(** * Quiz Pro: the storage layer, the text import parser and the offline
      worker, embedded from [src/js/storage.js], [src/js/creator.js] and
      [src/sw.js].

    The development follows the layout of the sources:
    - [Storage] embeds the class [QuizStorage] (explicit state passing over
      the contents of [localStorage], the clock, the id generator, the fates
      of the writes and the room on the call stack; a call returns or
      throws);
    - [Creator] embeds the text import parser and the validation of
      [QuestionCreator];
    - [Worker] embeds the cache handling of the service worker, with the
      cases in which the platform refuses to cache a response;
    - [Spec] and [Sample] hold the notions of the specification the
      statements use and the inputs of the examples;
    - [StorageFacts], [CreatorFacts] and [WorkerFacts] hold the proofs of
      the properties the specification claims, [RepositoryFacts],
      [ExchangeFacts], [LedgerFacts], [FormFacts] and [StrategyFacts] those
      of further properties of the same code. *)

From Stdlib Require Import ZArith Lia.
From stdpp Require Import base list strings sorting.

Local Open Scope string_scope.
Local Open Scope list_scope.
Local Open Scope Z_scope.

(* ===================================================================== *)
(** ** The storage module ([src/js/storage.js])                           *)
(* ===================================================================== *)

Module Storage.

(** *** Data *)

(** An ISO-8601 time stamp as written by [new Date().toISOString()] is read
    back with [new Date(s)]; the model keeps the number of milliseconds the
    string denotes. *)
Definition Timestamp : Type := Z.

Inductive QuestionType : Type := multiple | boolean | open.
Inductive Difficulty : Type := easy | medium | hard.

(** A question object.  [q_id] is [None] when the object has no [id]
    property. *)
Record Question : Type := mkQuestion {
  q_id : option string;
  q_text : string;
  q_type : QuestionType;
  q_options : list string;
  q_correct : Z;
  q_explanation : string;
  q_difficulty : Difficulty;
  q_category : string;
  q_tags : list string;
  q_createdAt : option Timestamp;
  q_updatedAt : option Timestamp;
  q_importedAt : option Timestamp
}.

Record Summary : Type := mkSummary {
  totalQuestions : Z;
  correctAnswers : Z;
  incorrectAnswers : Z;
  skipped : Z;
  percentage : Z;
  (** [summary.totalTime] may be missing: the code reads it as
      [result.summary.totalTime || 0]. *)
  totalTime : option Z
}.

Record AnswerRecord : Type := mkAnswerRecord {
  a_question : string;
  a_correctAnswer : Z;
  a_userAnswer : option Z;
  a_isCorrect : bool;
  a_timeSpent : Z
}.

Record QuizResult : Type := mkQuizResult {
  r_id : option string;
  r_timestamp : Timestamp;
  r_summary : Summary;
  r_questions : list AnswerRecord
}.

Record Collection : Type := mkCollection {
  c_id : option string;
  c_name : string;
  c_questionIds : list string;
  c_createdAt : option Timestamp;
  c_updatedAt : option Timestamp;
  c_importedAt : option Timestamp
}.

Record ImportLogEntry : Type := mkImportLogEntry {
  il_id : string;
  il_timestamp : Timestamp;
  il_questionsImported : nat;
  il_sourceVersion : option string;
  il_sourceDate : option Timestamp
}.

Definition Settings : Type := list (string * string).

(** The export bundle.  A list field is [None] when the property is missing
    or is not an array ([data.questions && Array.isArray(data.questions)]). *)
Record Bundle : Type := mkBundle {
  b_version : option string;
  b_exportDate : option Timestamp;
  b_questions : option (list Question);
  b_collections : option (list Collection);
  b_settings : option Settings;
  b_history : option (list QuizResult)
}.

Record StorageInfo : Type := mkStorageInfo {
  questionsCount : nat;
  historyCount : nat;
  collectionsCount : nat
}.

Record Backup : Type := mkBackup {
  bk_version : string;
  bk_timestamp : Timestamp;
  (** [None] when [backupData.data] is missing (or falsy) *)
  bk_data : option Bundle;
  bk_storageInfo : option StorageInfo
}.

(** *** The persistent store *)

(** What [getItem] returns for each of the keys of [storageKeys] the code
    under study reads: a key that holds no item reads as its default. *)
Record Store : Type := mkStore {
  questions : list Question;       (* 'quiz-created-questions' *)
  history : list QuizResult;       (* 'quiz-history' *)
  collections : list Collection;   (* 'quiz-collections' *)
  imports : list ImportLogEntry;   (* 'quiz-imports' *)
  settings : option Settings       (* 'quiz-settings' *)
}.

(** The argument pair of [setItem]: the key together with a value of the
    type stored under it. *)
Inductive Value : Type :=
  | VQuestions (qs : list Question)
  | VHistory (h : list QuizResult)
  | VCollections (cs : list Collection)
  | VImports (l : list ImportLogEntry)
  | VSettings (s : Settings).

(** [localStorage.setItem] either succeeds, throws a [QuotaExceededError] or
    throws another error. *)
Inductive WriteOutcome : Type := WriteOk | QuotaExceededError | OtherError.

(** The state the methods run in: the store, the number of readings of the
    clock and of the id generator made so far, the fate of each of the
    coming calls of [localStorage.setItem] (after the listed ones every call
    succeeds), and the room on the call stack: how many times [setItem] can
    enter [handleStorageFull], which calls [setItem] again, before the engine
    throws a [RangeError]. *)
Record World : Type := mkWorld {
  store : Store;
  tick : nat;
  fates : list WriteOutcome;
  stack : nat
}.

(** The environment: what the n-th reading of [generateId()] and of
    [new Date()] returns. *)
Record Env : Type := mkEnv {
  genId : nat -> string;
  clock : nat -> Timestamp
}.

Definition with_store (s : Store) (w : World) : World :=
  mkWorld s (tick w) (fates w) (stack w).
Definition with_fates (fs : list WriteOutcome) (w : World) : World :=
  mkWorld (store w) (tick w) fs (stack w).
Definition next_tick (w : World) : World :=
  mkWorld (store w) (S (tick w)) (fates w) (stack w).

(** A successful [localStorage.setItem(key, JSON.stringify(value))]. *)
Definition commit (v : Value) (s : Store) : Store :=
  match v with
  | VQuestions qs => mkStore qs (history s) (collections s) (imports s) (settings s)
  | VHistory h => mkStore (questions s) h (collections s) (imports s) (settings s)
  | VCollections cs => mkStore (questions s) (history s) cs (imports s) (settings s)
  | VImports l => mkStore (questions s) (history s) (collections s) l (settings s)
  | VSettings st => mkStore (questions s) (history s) (collections s) (imports s) (Some st)
  end.

(** JavaScript truthiness of an [id] property: present and not the empty
    string. *)
Definition truthy (i : option string) : bool :=
  match i with
  | Some s => negb (String.eqb s EmptyString)
  | None => false
  end.

(** [getQuizHistory(limit = 50)]: [None] is the call without argument. *)
Definition getQuizHistory (limit : option nat) (w : World) : list QuizResult :=
  let limit := default 50%nat limit in
  match limit with
  | O => history (store w)
  | S _ => take limit (history (store w))
  end.

Definition getAllQuestions (w : World) : list Question := questions (store w).
Definition getAllCollections (w : World) : list Collection := collections (store w).

(** A call either returns or throws an error with a message; the state it
    leaves is there in both cases. *)
Inductive Outcome (A : Type) : Type :=
  | Returned (a : A)
  | Thrown (message : string).
Arguments Returned {A} a.
Arguments Thrown {A} message.

(** [let! x, w := e in k]: [k] goes on from what [e] returns, and what [e]
    throws is thrown on (no [try] block is around the call). *)
Notation "'let!' x ',' w ':=' e 'in' k" :=
  (match e with
   | (Returned x, w) => k
   | (Thrown message, w) => (Thrown message, w)
   end)
  (at level 10, x name, w name, e at level 200, k at level 200, only parsing).

(** The message of the [RangeError] of a call that finds no room on the call
    stack. *)
Definition stackOverflow : string := "Maximum call stack size exceeded".

(** [handleStorageFull], over the [setItem] it calls (the two toasts go to
    the page and are not part of the state). *)
Definition handleStorageFull_with
    (set : Value -> World -> Outcome bool * World) (w : World)
    : Outcome unit * World :=
  let history := getQuizHistory None w in
  let! _, w :=
    (if (20 <? length history)%nat
     then let! _, w := set (VHistory (take 20 history)) w in (Returned tt, w)
     else (Returned tt, w)) in
  let! _, w := set (VImports []) w in
  (Returned tt, w).

(** [setItem(key, value)].  Every call of [localStorage.setItem] uses up one
    entry of [fates].  A failed write that is a [QuotaExceededError] calls
    [handleStorageFull] from the [catch] block, which calls [setItem] again,
    and so on while the writes fail on the quota: nothing ends this recursion
    but the call stack.  [room] is the room left on it; the call that finds
    none throws a [RangeError], which no [try] block of the chain encloses
    (the calls are made from the [catch] blocks), so that it reaches the
    caller of the outermost [setItem].  (Which call of the chain the engine
    stops at is its own matter; the room is counted in calls of
    [handleStorageFull].) *)
Fixpoint setItem_room (room : nat) (v : Value) (w : World)
    : Outcome bool * World :=
  match fates w with
  | [] => (Returned true, with_store (commit v (store w)) w)
  | WriteOk :: fs =>
      (Returned true, with_store (commit v (store w)) (with_fates fs w))
  | OtherError :: fs => (Returned false, with_fates fs w)
  | QuotaExceededError :: fs =>
      match room with
      | O => (Thrown stackOverflow, with_fates fs w)
      | S room' =>
          let! _, w :=
            handleStorageFull_with (setItem_room room') (with_fates fs w) in
          (Returned false, w)
      end
  end.

Definition setItem (v : Value) (w : World) : Outcome bool * World :=
  setItem_room (stack w) v w.

Definition handleStorageFull (w : World) : Outcome unit * World :=
  handleStorageFull_with setItem w.

Section WithEnv.

Variable E : Env.

(** [generateId()] and [new Date().toISOString()]. *)
Definition generateId (w : World) : string * World :=
  (genId E (tick w), next_tick w).
Definition now (w : World) : Timestamp * World :=
  (clock E (tick w), next_tick w).

(** *** Quiz history *)

Definition set_meta (i : string) (t : Timestamp) (r : QuizResult) : QuizResult :=
  mkQuizResult (Some i) t (r_summary r) (r_questions r).

Definition saveQuizResult (result : QuizResult) (w : World)
    : Outcome string * World :=
  let history := getQuizHistory None w in
  let '(i, w) := generateId w in
  let '(t, w) := now w in
  let resultWithMeta := set_meta i t result in
  let history := resultWithMeta :: history in
  let history :=
    if (100 <? length history)%nat then take 100 history else history in
  let! _, w := setItem (VHistory history) w in
  (Returned i, w).

(** [getQuizStatistics()] *)

Record Statistics : Type := mkStatistics {
  st_totalQuizzes : Z;
  st_totalQuestions : Z;
  st_averageScore : Z;
  st_bestScore : Z;
  st_totalTime : Z;
  st_averageTime : Z
}.

(** The accumulator of the [reduce]. *)
Record Acc : Type := mkAcc {
  acc_totalQuizzes : Z;
  acc_totalQuestions : Z;
  acc_totalScore : Z;
  acc_bestScore : Z;
  acc_totalTime : Z
}.

Definition acc0 : Acc := mkAcc 0 0 0 0 0.

Definition reducer (acc : Acc) (result : QuizResult) : Acc :=
  let s := r_summary result in
  mkAcc (acc_totalQuizzes acc + 1)
        (acc_totalQuestions acc + totalQuestions s)
        (acc_totalScore acc + percentage s)
        (if acc_bestScore acc <? percentage s then percentage s
         else acc_bestScore acc)
        (acc_totalTime acc + default 0 (totalTime s)).

(** The figures of a summary are integers (counts, a rounded percentage,
    seconds), and so are the sums of the [reduce]; the numbers of the
    platform are exact on the integers below 2^53, beyond which the sums of
    the code differ from those of this embedding.

    [Math.round(a / b)] for integers [a] and [b > 0]: the nearest integer,
    a half rounded up. *)
Definition round_div (a b : Z) : Z := (2 * a + b) / (2 * b).

Definition getQuizStatistics (w : World) : Statistics :=
  let history := getQuizHistory None w in
  if (length history =? 0)%nat then mkStatistics 0 0 0 0 0 0
  else
    let stats := fold_left reducer history acc0 in
    mkStatistics
      (acc_totalQuizzes stats)
      (acc_totalQuestions stats)
      (round_div (acc_totalScore stats) (acc_totalQuizzes stats))
      (acc_bestScore stats)
      (acc_totalTime stats)
      (if 0 <? acc_totalQuizzes stats
       then round_div (acc_totalTime stats) (acc_totalQuizzes stats)
       else 0).

(** *** Questions and collections *)

Definition q_set_id (i : option string) (q : Question) : Question :=
  mkQuestion i (q_text q) (q_type q) (q_options q) (q_correct q)
    (q_explanation q) (q_difficulty q) (q_category q) (q_tags q)
    (q_createdAt q) (q_updatedAt q) (q_importedAt q).
Definition q_set_createdAt (t : Timestamp) (q : Question) : Question :=
  mkQuestion (q_id q) (q_text q) (q_type q) (q_options q) (q_correct q)
    (q_explanation q) (q_difficulty q) (q_category q) (q_tags q)
    (Some t) (q_updatedAt q) (q_importedAt q).
Definition q_set_updatedAt (t : Timestamp) (q : Question) : Question :=
  mkQuestion (q_id q) (q_text q) (q_type q) (q_options q) (q_correct q)
    (q_explanation q) (q_difficulty q) (q_category q) (q_tags q)
    (q_createdAt q) (Some t) (q_importedAt q).
Definition q_set_importedAt (t : Timestamp) (q : Question) : Question :=
  mkQuestion (q_id q) (q_text q) (q_type q) (q_options q) (q_correct q)
    (q_explanation q) (q_difficulty q) (q_category q) (q_tags q)
    (q_createdAt q) (q_updatedAt q) (Some t).

Definition c_set_id (i : option string) (c : Collection) : Collection :=
  mkCollection i (c_name c) (c_questionIds c) (c_createdAt c) (c_updatedAt c)
    (c_importedAt c).
Definition c_set_createdAt (t : Timestamp) (c : Collection) : Collection :=
  mkCollection (c_id c) (c_name c) (c_questionIds c) (Some t) (c_updatedAt c)
    (c_importedAt c).
Definition c_set_updatedAt (t : Timestamp) (c : Collection) : Collection :=
  mkCollection (c_id c) (c_name c) (c_questionIds c) (c_createdAt c) (Some t)
    (c_importedAt c).
Definition c_set_importedAt (t : Timestamp) (c : Collection) : Collection :=
  mkCollection (c_id c) (c_name c) (c_questionIds c) (c_createdAt c)
    (c_updatedAt c) (Some t).

(** [arr.findIndex(p)]: [None] stands for [-1]. *)
Definition findIndex {A} (P : A -> Prop) `{forall x, Decision (P x)}
    (l : list A) : option nat :=
  fst <$> list_find P l.

(** [arr.find(p)]: [None] stands for [undefined]. *)
Definition find {A} (P : A -> Prop) `{forall x, Decision (P x)}
    (l : list A) : option A :=
  snd <$> list_find P l.

Definition saveQuestion (question : Question) (w : World)
    : Outcome (option string) * World :=
  let questions := getAllQuestions w in
  if truthy (q_id question) then
    let index := findIndex (fun q => q_id q = q_id question) questions in
    let '(t, w) := now w in
    let questions :=
      match index with
      | Some index => <[index := q_set_updatedAt t question]> questions
      | None => questions ++ [q_set_createdAt t question]
      end in
    let! _, w := setItem (VQuestions questions) w in
    (Returned (q_id question), w)
  else
    let '(i, w) := generateId w in
    let '(t, w) := now w in
    let question := q_set_createdAt t (q_set_id (Some i) question) in
    let! _, w := setItem (VQuestions (questions ++ [question])) w in
    (Returned (q_id question), w).

Definition getQuestionById (i : option string) (w : World) : option Question :=
  find (fun q => q_id q = i) (getAllQuestions w).

Definition saveCollection (collection : Collection) (w : World)
    : Outcome (option string) * World :=
  let collections := getAllCollections w in
  if truthy (c_id collection) then
    let index := findIndex (fun c => c_id c = c_id collection) collections in
    let '(collections, w) :=
      match index with
      | Some index =>
          let '(t, w) := now w in
          (<[index := c_set_updatedAt t collection]> collections, w)
      | None => (collections, w)
      end in
    let! _, w := setItem (VCollections collections) w in
    (Returned (c_id collection), w)
  else
    let '(i, w) := generateId w in
    let '(t, w) := now w in
    let collection := c_set_createdAt t (c_set_id (Some i) collection) in
    let! _, w := setItem (VCollections (collections ++ [collection])) w in
    (Returned (c_id collection), w).

Definition getCollectionById (i : option string) (w : World)
    : option Collection :=
  find (fun c => c_id c = i) (getAllCollections w).

(** *** Import and export *)

Record ImportOptions : Type := mkImportOptions {
  mergeQuestions : bool;
  mergeCollections : bool;
  mergeHistory : bool;
  overwriteSettings : bool
}.

(** The defaults of the destructuring in [importData]. *)
Definition defaultOptions : ImportOptions := mkImportOptions true true false false.

(** The object [importData] returns: [ImportFailure] is the one of the
    [catch] block, with the message of the error caught.  On bundles of type
    [Bundle] the one error thrown inside the [try] block is the [RangeError]
    of a [setItem] that runs out of stack. *)
Inductive ImportResult : Type :=
  | ImportSuccess (importedQuestions : nat)
  | ImportFailure (error : string).

Definition success (r : ImportResult) : bool :=
  match r with ImportSuccess _ => true | ImportFailure _ => false end.

(** The body of the [forEach] callbacks:
    [if (!q.id) q.id = this.generateId(); q.importedAt = new Date().toISOString()]. *)
Definition stampQuestion (q : Question) (w : World) : Question * World :=
  let '(q, w) :=
    if truthy (q_id q) then (q, w)
    else let '(i, w) := generateId w in (q_set_id (Some i) q, w) in
  let '(t, w) := now w in
  (q_set_importedAt t q, w).

Definition stampCollection (c : Collection) (w : World) : Collection * World :=
  let '(c, w) :=
    if truthy (c_id c) then (c, w)
    else let '(i, w) := generateId w in (c_set_id (Some i) c, w) in
  let '(t, w) := now w in
  (c_set_importedAt t c, w).

(** [arr.forEach(f)] for a callback that updates the element it is given. *)
Fixpoint forEach {A} (f : A -> World -> A * World) (l : list A) (w : World)
    : list A * World :=
  match l with
  | [] => ([], w)
  | x :: l =>
      let '(x, w) := f x w in
      let '(l, w) := forEach f l w in
      (x :: l, w)
  end.

(** The objects of [arr.filter(p)] are the objects of [arr]: after the
    callback of [forEach] has updated the filtered ones, [arr] holds the
    updated objects at the places of those that passed the filter. *)
Fixpoint write_back {A} (P : A -> Prop) `{forall x, Decision (P x)}
    (arr updated : list A) : list A :=
  match arr with
  | [] => []
  | x :: arr =>
      if decide (P x) then
        match updated with
        | y :: updated => y :: write_back P arr updated
        | [] => x :: write_back P arr []
        end
      else x :: write_back P arr updated
  end.

(** [arr.sort(cmp)]: the sort is stable, an element goes behind those the
    comparator puts strictly before it. *)
Fixpoint insert_sorted {A} (cmp : A -> A -> Z) (x : A) (l : list A) : list A :=
  match l with
  | [] => [x]
  | y :: l' => if cmp y x <? 0 then y :: insert_sorted cmp x l' else x :: l
  end.

Definition sort {A} (cmp : A -> A -> Z) (l : list A) : list A :=
  foldr (insert_sorted cmp) [] l.

(** [arr.filter((item, index, arr) => index === arr.findIndex(t => t.id === item.id))] *)
Definition uniqueById (arr : list QuizResult) : list QuizResult :=
  snd <$> filter
    (fun p : nat * QuizResult =>
       findIndex (fun t => r_id t = r_id (snd p)) arr = Some (fst p))
    (imap pair arr).

Definition logImport (data : Bundle) (importedCount : nat) (w : World)
    : Outcome unit * World :=
  let imports := imports (store w) in
  let '(i, w) := generateId w in
  let '(t, w) := now w in
  let imports :=
    mkImportLogEntry i t importedCount (b_version data) (b_exportDate data)
      :: imports in
  let imports :=
    if (20 <? length imports)%nat then take 20 imports else imports in
  let! _, w := setItem (VImports imports) w in
  (Returned tt, w).

(** The four sections of the [try] block of [importData], in the order of
    the source.  The bundle is an object the caller keeps: the sections that
    update its records return, beside their outcome, the array as the
    callbacks leave it, which they do before the write that may throw. *)

(* Import questions *)
Definition importQuestions (data : Bundle) (options : ImportOptions)
    (importedCount : nat) (w : World)
    : Outcome nat * option (list Question) * World :=
  match b_questions data with
  | Some dq =>
      if mergeQuestions options then
        let existingQuestions := getAllQuestions w in
        let existingIds := q_id <$> existingQuestions in
        let isNew := fun q : Question => q_id q ∉ existingIds in
        let newQuestions := filter isNew dq in
        let '(newQuestions, w) := forEach stampQuestion newQuestions w in
        let allQuestions := existingQuestions ++ newQuestions in
        match setItem (VQuestions allQuestions) w with
        | (Returned _, w) =>
            (Returned (importedCount + length newQuestions)%nat,
             Some (write_back isNew dq newQuestions), w)
        | (Thrown message, w) =>
            (Thrown message, Some (write_back isNew dq newQuestions), w)
        end
      else
        let '(dq, w) := forEach stampQuestion dq w in
        match setItem (VQuestions dq) w with
        | (Returned _, w) => (Returned (length dq), Some dq, w)
        | (Thrown message, w) => (Thrown message, Some dq, w)
        end
  | None => (Returned importedCount, None, w)
  end.

(* Import collections *)
Definition importCollections (data : Bundle) (options : ImportOptions)
    (w : World) : Outcome unit * option (list Collection) * World :=
  match b_collections data with
  | Some dc =>
      if mergeCollections options then
        let existingCollections := getAllCollections w in
        let existingIds := c_id <$> existingCollections in
        let isNew := fun c : Collection => c_id c ∉ existingIds in
        let newCollections := filter isNew dc in
        let '(newCollections, w) := forEach stampCollection newCollections w in
        let allCollections := existingCollections ++ newCollections in
        match setItem (VCollections allCollections) w with
        | (Returned _, w) =>
            (Returned tt, Some (write_back isNew dc newCollections), w)
        | (Thrown message, w) =>
            (Thrown message, Some (write_back isNew dc newCollections), w)
        end
      else (Returned tt, Some dc, w)
  | None => (Returned tt, None, w)
  end.

(* Import history *)
Definition importHistory (data : Bundle) (options : ImportOptions)
    (w : World) : Outcome unit * World :=
  match b_history data with
  | Some dh =>
      if mergeHistory options then
        let existingHistory := getQuizHistory None w in
        let allHistory := existingHistory ++ dh in
        (* Remove duplicates and sort by timestamp *)
        let uniqueHistory :=
          sort (fun a b => r_timestamp b - r_timestamp a)
               (uniqueById allHistory) in
        let! _, w := setItem (VHistory (take 100 uniqueHistory)) w in
        (Returned tt, w)
      else (Returned tt, w)
  | None => (Returned tt, w)
  end.

(* Import settings *)
Definition importSettings (data : Bundle) (options : ImportOptions)
    (w : World) : Outcome unit * World :=
  match b_settings data with
  | Some st =>
      if overwriteSettings options
      then let! _, w := setItem (VSettings st) w in (Returned tt, w)
      else (Returned tt, w)
  | None => (Returned tt, w)
  end.

(** The [try] block of [importData]: the count it reaches, beside the
    bundle as the sections leave it. *)
Definition importData_try (data : Bundle) (options : ImportOptions) (w : World)
    : Outcome nat * Bundle * World :=
  let importedCount := O in
  let '(r, data_questions, w) :=
    importQuestions data options importedCount w in
  let data :=
    mkBundle (b_version data) (b_exportDate data) data_questions
      (b_collections data) (b_settings data) (b_history data) in
  match r with
  | Thrown message => (Thrown message, data, w)
  | Returned importedCount =>
      let '(r, data_collections, w) := importCollections data options w in
      let data :=
        mkBundle (b_version data) (b_exportDate data) (b_questions data)
          data_collections (b_settings data) (b_history data) in
      match r with
      | Thrown message => (Thrown message, data, w)
      | Returned _ =>
          match importHistory data options w with
          | (Thrown message, w) => (Thrown message, data, w)
          | (Returned _, w) =>
              match importSettings data options w with
              | (Thrown message, w) => (Thrown message, data, w)
              | (Returned _, w) =>
                  (* Log import *)
                  match logImport data importedCount w with
                  | (Thrown message, w) => (Thrown message, data, w)
                  | (Returned _, w) => (Returned importedCount, data, w)
                  end
              end
          end
      end
  end.

(** [importData(data, options)]: the [catch] block turns an error into a
    result object. *)
Definition importData (data : Bundle) (options : ImportOptions) (w : World)
    : ImportResult * Bundle * World :=
  match importData_try data options w with
  | (Returned importedCount, data, w) => (ImportSuccess importedCount, data, w)
  | (Thrown message, data, w) => (ImportFailure message, data, w)
  end.

(** *** Backup and restore *)

(** [restoreBackup(backupData)]: [None] is a call on [null] or [undefined]. *)
Definition restoreBackup (backupData : option Backup) (w : World)
    : Outcome ImportResult * option Backup * World :=
  match backupData with
  | None => (Thrown "Dados de backup inválidos", backupData, w)
  | Some backup =>
      match bk_data backup with
      | None => (Thrown "Dados de backup inválidos", backupData, w)
      | Some data =>
          let '(result, data, w) :=
            importData data (mkImportOptions false false true true) w in
          (Returned result,
           Some (mkBackup (bk_version backup) (bk_timestamp backup) (Some data)
                   (bk_storageInfo backup)),
           w)
      end
  end.

(** *** Deleting *)

(** [deleteQuestion(id)] *)
Definition deleteQuestion (i : option string) (w : World)
    : Outcome bool * World :=
  let questions := getAllQuestions w in
  let filtered := filter (fun q => q_id q <> i) questions in
  let! _, w := setItem (VQuestions filtered) w in
  (Returned (length filtered <? length questions)%nat, w).

(** [deleteCollection(id)] *)
Definition deleteCollection (i : option string) (w : World)
    : Outcome bool * World :=
  let collections := getAllCollections w in
  let filtered := filter (fun c => c_id c <> i) collections in
  let! _, w := setItem (VCollections filtered) w in
  (Returned (length filtered <? length collections)%nat, w).

(** [deleteQuizHistory()] *)
Definition deleteQuizHistory (w : World) : Outcome unit * World :=
  let! _, w := setItem (VHistory []) w in
  (Returned tt, w).

(** *** Export *)

(** [exportData(includeHistory = true)]: the settings read as [{}] when
    nothing is stored. *)
Definition exportData (includeHistory : bool) (w : World) : Bundle * World :=
  let '(t, w) := now w in
  (mkBundle (Some "1.0") (Some t)
     (Some (getAllQuestions w))
     (Some (getAllCollections w))
     (Some (default [] (settings (store w))))
     (if includeHistory then Some (getQuizHistory None w) else None),
   w).

(** *** Start-up *)

Section Startup.

(** The date arithmetic of [d.setMonth(d.getMonth() - 6)], in the time zone
    of the browser. *)
Variable sixMonthsBefore : Timestamp -> Timestamp.

(** [cleanupOldEntries()] *)
Definition cleanupOldEntries (w : World) : Outcome unit * World :=
  let '(t, w) := now w in
  let sixMonthsAgo := sixMonthsBefore t in
  let history := getQuizHistory None w in
  let recentHistory :=
    List.filter (fun item => sixMonthsAgo <? r_timestamp item) history in
  if (length recentHistory <? length history)%nat
  then let! _, w := setItem (VHistory recentHistory) w in (Returned tt, w)
  else (Returned tt, w).

End Startup.

End WithEnv.

(** *** Search *)

Record SearchFilters : Type := mkSearchFilters {
  f_difficulty : option Difficulty;
  f_type : option QuestionType;
  f_category : option string
}.

(** The default [filters = {}]. *)
Definition noFilters : SearchFilters := mkSearchFilters None None None.

(** [a === b] on the values of the two enumerations. *)
Definition difficulty_eqb (a b : Difficulty) : bool :=
  match a, b with
  | easy, easy | medium, medium | hard, hard => true
  | _, _ => false
  end.
Definition type_eqb (a b : QuestionType) : bool :=
  match a, b with
  | multiple, multiple | boolean, boolean | open, open => true
  | _, _ => false
  end.

Section Search.

(** [s.toLowerCase()] and [s.includes(t)] of the platform. *)
Variable toLowerCase : string -> string.
Variable includes : string -> string -> bool.

(** The callback of the [filter] in [searchQuestions].  A filter that is
    not set (missing, or the empty string) is [None]. *)
Definition searchMatch (query : option string) (filters : SearchFilters)
    (question : Question) : bool :=
  if (if truthy query then
        let searchText := toLowerCase (default EmptyString query) in
        let inText := includes (toLowerCase (q_text question)) searchText in
        let inCategory :=
          includes (toLowerCase (q_category question)) searchText in
        let inTags :=
          existsb (fun tag => includes (toLowerCase tag) searchText)
            (q_tags question) in
        negb inText && negb inCategory && negb inTags
      else false)
  then false
  else if match f_difficulty filters with
          | Some d => negb (difficulty_eqb (q_difficulty question) d)
          | None => false
          end
  then false
  else if match f_type filters with
          | Some t => negb (type_eqb (q_type question) t)
          | None => false
          end
  then false
  else if truthy (f_category filters)
          && negb (String.eqb (q_category question)
                     (default EmptyString (f_category filters)))
  then false
  else true.

(** [searchQuestions(query, filters = {})] *)
Definition searchQuestions (query : option string) (filters : SearchFilters)
    (w : World) : list Question :=
  List.filter (searchMatch query filters) (getAllQuestions w).

End Search.

End Storage.

(* ===================================================================== *)
(** ** The text import parser ([src/js/creator.js])                       *)
(* ===================================================================== *)

Module Creator.

(** A JavaScript string: its UTF-16 code units. *)
Definition jsstring : Type := list Z.

(** The code units of a literal written in this file (which is UTF-8
    encoded): sequences of one and of two bytes are decoded, which covers the
    literals of the parser. *)
Fixpoint js (s : string) : jsstring :=
  match s with
  | EmptyString => []
  | String a s' =>
      let x := Z.of_N (Ascii.N_of_ascii a) in
      if (192 <=? x) && (x <? 224) then
        match s' with
        | String b s'' =>
            Z.lor (Z.shiftl (Z.land x 31) 6)
                  (Z.land (Z.of_N (Ascii.N_of_ascii b)) 63) :: js s''
        | EmptyString => [x]
        end
      else x :: js s'
  end.

Definition LF : Z := 10.

(** White space and line terminators: what [trim()] removes and what the
    class [\s] of a regular expression matches. *)
Definition is_space (c : Z) : bool :=
  ((9 <=? c) && (c <=? 13)) || (c =? 32) || (c =? 160) || (c =? 5760)
  || ((8192 <=? c) && (c <=? 8202)) || (c =? 8232) || (c =? 8233)
  || (c =? 8239) || (c =? 8287) || (c =? 12288) || (c =? 65279).

(** The class [[A-Za-z]]. *)
Definition is_letter (c : Z) : bool :=
  ((65 <=? c) && (c <=? 90)) || ((97 <=? c) && (c <=? 122)).

Fixpoint dropWhile (p : Z -> bool) (s : jsstring) : jsstring :=
  match s with
  | [] => []
  | c :: s' => if p c then dropWhile p s' else s
  end.

Fixpoint takeWhile (p : Z -> bool) (s : jsstring) : jsstring :=
  match s with
  | [] => []
  | c :: s' => if p c then c :: takeWhile p s' else []
  end.

(** [s.trim()] *)
Definition trim (s : jsstring) : jsstring :=
  reverse (dropWhile is_space (reverse (dropWhile is_space s))).

(** [s.toLowerCase()] and [s.toUpperCase()] for the use the parser makes of
    them: the letters of Basic Latin and of Latin-1 are folded, every other
    code unit is left as it is.  The platform folds the cased letters of the
    other scripts too; the parser compares the lower-cased line with
    'answer:', 'resposta:', 'explanation:' and 'explicação:' only, and no
    code unit from U+0100 on folds into a letter of these in the place of one
    code unit (U+0130 gives an i followed by U+0307), so that the tests below
    have the outcome they have on the platform.  The upper case is taken of
    a letter of [[A-Za-z]] only. *)
Definition lower_unit (c : Z) : Z :=
  if ((65 <=? c) && (c <=? 90))
     || ((192 <=? c) && (c <=? 222) && negb (c =? 215))
  then c + 32 else c.
Definition upper_unit (c : Z) : Z :=
  if ((97 <=? c) && (c <=? 122))
     || ((224 <=? c) && (c <=? 254) && negb (c =? 247))
  then c - 32 else c.
Definition toLowerCase (s : jsstring) : jsstring := lower_unit <$> s.
Definition toUpperCase (s : jsstring) : jsstring := upper_unit <$> s.

(** [s.startsWith(p)], also the match of a pattern [^p] made of literal
    characters. *)
Fixpoint startsWith (p s : jsstring) : bool :=
  match p, s with
  | [], _ => true
  | a :: p', b :: s' => (a =? b) && startsWith p' s'
  | _ :: _, [] => false
  end.

(** [s.split('\n')] *)
Fixpoint split_lines_aux (cur : jsstring) (s : jsstring) : list jsstring :=
  match s with
  | [] => [reverse cur]
  | c :: s' =>
      if c =? LF then reverse cur :: split_lines_aux [] s'
      else split_lines_aux (c :: cur) s'
  end.
Definition split_lines (s : jsstring) : list jsstring := split_lines_aux [] s.

(** The position behind the last line feed of [s], if [s] has one. *)
Fixpoint after_last_LF (s : jsstring) : option nat :=
  match s with
  | [] => None
  | c :: s' =>
      match after_last_LF s' with
      | Some n => Some (S n)
      | None => if c =? LF then Some 1%nat else None
      end
  end.

(** [text.split(/\n\s*\n/)].  The pattern matches at a line feed when the
    white space that follows holds another line feed, and then (the star is
    greedy) up to the last line feed of that white space.  [skip] counts the
    code units of a match still to be passed over, [cur] holds the current
    piece in reverse. *)
Fixpoint split_blocks_aux (skip : nat) (cur : jsstring) (s : jsstring)
    : list jsstring :=
  match s with
  | [] => [reverse cur]
  | c :: s' =>
      match skip with
      | S k => split_blocks_aux k cur s'
      | O =>
          if c =? LF then
            match after_last_LF (takeWhile is_space s') with
            | Some n => reverse cur :: split_blocks_aux n [] s'
            | None => split_blocks_aux O (c :: cur) s'
            end
          else split_blocks_aux O (c :: cur) s'
      end
  end.
Definition split_blocks (text : jsstring) : list jsstring :=
  split_blocks_aux O [] text.

(** [s.indexOf(':')], [None] for [-1]. *)
Fixpoint indexOf (c : Z) (s : jsstring) : option nat :=
  match s with
  | [] => None
  | d :: s' => if d =? c then Some O else S <$> indexOf c s'
  end.

(** The object [parseSingleQuestionFromText] returns. *)
Record TextQuestion : Type := mkTextQuestion {
  text : jsstring;
  type : jsstring;
  options : list jsstring;
  correct : Z;
  explanation : jsstring
}.

(** [line.match(/^[A-Za-z]\)/)] *)
Definition isOptionLine (line : jsstring) : bool :=
  match line with
  | c :: d :: _ => is_letter c && (d =? 41)
  | _ => false
  end.

(** [line.toLowerCase().match(/^(answer|resposta):/)] *)
Definition isAnswerLine (line : jsstring) : bool :=
  let l := toLowerCase line in
  startsWith (js "answer:") l || startsWith (js "resposta:") l.

(** [line.toLowerCase().match(/^(explanation|explicação):/)] *)
Definition isExplanationLine (line : jsstring) : bool :=
  let l := toLowerCase line in
  startsWith (js "explanation:") l || startsWith (js "explicação:") l.

(** The variables of the loop over the lines. *)
Record LoopState : Type := mkLoopState {
  ls_options : list jsstring;
  ls_answerLine : jsstring;
  ls_explanation : jsstring
}.

Definition loopBody (st : LoopState) (line : jsstring) : LoopState :=
  if isOptionLine line then
    mkLoopState (ls_options st ++ [line]) (ls_answerLine st) (ls_explanation st)
  else if isAnswerLine line then
    mkLoopState (ls_options st) line (ls_explanation st)
  else if isExplanationLine line then
    let start :=
      match indexOf 58 line with Some i => S i | None => O end in
    mkLoopState (ls_options st) (ls_answerLine st) (trim (drop start line))
  else st.

(** [answerLine.match(/[A-Za-z]/)?.[0]?.toUpperCase()]: the first letter of
    the answer line, in upper case. *)
Definition answerLetter (answerLine : jsstring) : option Z :=
  upper_unit <$> List.find is_letter answerLine.

Definition isEmpty (s : jsstring) : bool :=
  match s with [] => true | _ => false end.

Definition parseSingleQuestionFromText (block : jsstring) : option TextQuestion :=
  let lines :=
    List.filter (fun line => negb (isEmpty line)) (trim <$> split_lines block) in
  if (length lines <? 3)%nat then None
  else
    match lines with
    | [] => None
    | questionText :: rest =>
        let st := fold_left loopBody rest (mkLoopState [] [] []) in
        let options := ls_options st in
        let answerLine := ls_answerLine st in
        let explanation := ls_explanation st in
        if (length options <? 2)%nat || isEmpty answerLine then None
        else
          let correctIndex :=
            match answerLetter answerLine with
            | Some letter => letter - 65
            | None => -1
            end in
          if (correctIndex <? 0) || (Z.of_nat (length options) <=? correctIndex)
          then None
          else
            Some (mkTextQuestion questionText (js "multiple") options
                    correctIndex
                    (if isEmpty explanation
                     then js "Sem explicação fornecida."
                     else explanation))
    end.

(** The objects [parseMultipleQuestionsFromText] collects. *)
Record ImportedQuestion : Type := mkImportedQuestion {
  iq_question : TextQuestion;
  iq_id : string;
  iq_createdAt : Storage.Timestamp;
  iq_difficulty : jsstring;
  iq_category : jsstring
}.

(** [parseMultipleQuestionsFromText(text)]; [tick] counts the readings of
    the id generator and of the clock. *)
Fixpoint collectQuestions (E : Storage.Env) (blocks : list jsstring)
    (tick : nat) : list ImportedQuestion :=
  match blocks with
  | [] => []
  | block :: blocks =>
      match parseSingleQuestionFromText block with
      | Some question =>
          mkImportedQuestion question (Storage.genId E tick)
            (Storage.clock E (S tick)) (js "medium") (js "Importada")
          :: collectQuestions E blocks (S (S tick))
      | None => collectQuestions E blocks tick
      end
  end.

Definition parseMultipleQuestionsFromText (E : Storage.Env) (text : jsstring)
    (tick : nat) : list ImportedQuestion :=
  collectQuestions E (split_blocks text) tick.

(** *** Validation of the form data *)

(** The object [collectFormData] builds.  [qd_correct] is [None] for the
    [NaN] that [parseInt] gives for a value that is no number. *)
Record QuestionData : Type := mkQuestionData {
  qd_text : jsstring;
  qd_type : jsstring;
  qd_options : list jsstring;
  qd_correct : option Z;
  qd_explanation : jsstring;
  qd_difficulty : jsstring;
  qd_category : jsstring;
  qd_tags : list jsstring;
  qd_createdAt : Storage.Timestamp;
  qd_id : string
}.

(** The messages [validateQuestion] collects, in the order of the source:
    the text is shorter than 10, fewer than 2 options, an option is blank,
    two options are equal up to case, the correct index is too large. *)
Inductive ValidationError : Type :=
  | TextTooShort
  | TooFewOptions
  | BlankOption
  | DuplicateOptions
  | InvalidCorrect.

(** [new Set(arr).size] *)
Definition setSize (l : list jsstring) : nat := length (remove_dups l).

Section Validation.

(** [s.toLowerCase()] as the platform has it, for every script: the options
    of a form are arbitrary strings, and the test for duplicates depends on
    the folding of each of their letters. *)
Variable toLowerCase : jsstring -> jsstring.

(** The array [errors] of [validateQuestion]. *)
Definition validationErrors (questionData : QuestionData) : list ValidationError :=
  (if isEmpty (qd_text questionData)
      || (length (qd_text questionData) <? 10)%nat
   then [TextTooShort] else [])
  ++
  (if negb (bool_decide (qd_type questionData = js "open")) then
     (if (length (qd_options questionData) <? 2)%nat
      then [TooFewOptions] else [])
     ++
     (let emptyOptions :=
        List.filter (fun opt => isEmpty (trim opt)) (qd_options questionData) in
      if (0 <? length emptyOptions)%nat then [BlankOption] else [])
     ++
     (let uniqueOptions := toLowerCase <$> qd_options questionData in
      if negb (setSize uniqueOptions =? length (qd_options questionData))%nat
      then [DuplicateOptions] else [])
     ++
     (if match qd_correct questionData with
         | Some correct =>
             Z.of_nat (length (qd_options questionData)) <=? correct
         | None => false
         end
      then [InvalidCorrect] else [])
   else []).

(** [validateQuestion(questionData)]: the value returned (the toast that
    shows the errors goes to the page). *)
Definition validateQuestion (questionData : QuestionData) : bool :=
  match validationErrors questionData with
  | [] => true
  | _ :: _ => false
  end.

End Validation.

(** *** Tags *)

(** [s.split(sep)] for a separator of one code unit. *)
Fixpoint split_on_aux (sep : Z) (cur : jsstring) (s : jsstring)
    : list jsstring :=
  match s with
  | [] => [reverse cur]
  | c :: s' =>
      if c =? sep then reverse cur :: split_on_aux sep [] s'
      else split_on_aux sep (c :: cur) s'
  end.
Definition split_on (sep : Z) (s : jsstring) : list jsstring :=
  split_on_aux sep [] s.

Definition COMMA : Z := 44.

(** [parseTags(category)]: [None] is a category that is [null]. *)
Definition parseTags (category : option jsstring) : list jsstring :=
  match category with
  | None => []
  | Some category =>
      if isEmpty category then []
      else
        List.filter (fun tag => negb (isEmpty tag))
          (trim <$> split_on COMMA category)
  end.

End Creator.

(* ===================================================================== *)
(** ** The service worker ([src/sw.js])                                   *)
(* ===================================================================== *)

Module Worker.

Definition STATIC_CACHE_NAME : string := "quiz-pro-static-v1.0.0".
Definition DYNAMIC_CACHE_NAME : string := "quiz-pro-dynamic-v1.0.0".

Definition STATIC_FILES : list string :=
  [ "/"; "/index.html"; "/styles.css"; "/js/app.js"; "/js/quiz.js";
    "/js/creator.js"; "/js/storage.js"; "/js/stats.js"; "/js/pwa.js";
    "/manifest.json"; "/icon-192.png"; "/icon-512.png";
    "https://cdnjs.cloudflare.com/ajax/libs/font-awesome/6.4.0/css/all.min.css" ].

Definition DYNAMIC_FILES : list string := [ "/api/"; "/data/"; "/assets/" ].

Definition NETWORK_ONLY : list string := [ "/api/sync"; "/api/update" ].

(** A request, with the parts of [new URL(request.url)] the worker reads. *)
Record Request : Type := mkRequest {
  method : string;
  url : string;
  protocol : string;
  pathname : string;
  mode : string
}.

(** A response: [vary] holds the values of its [Vary] header, none when it
    has no such header. *)
Record Response : Type := mkResponse {
  status : Z;
  statusText : string;
  body : string;
  vary : list string
}.

(** [response.ok] *)
Definition ok (r : Response) : bool := (200 <=? status r) && (status r <=? 299).

(** A cache maps the URL of a request to the stored response; the cache
    storage lists the caches by name, in the order of their creation. *)
Definition Cache : Type := list (string * Response).
Definition CacheStorage : Type := list (string * Cache).

(** [s.startsWith(p)] and [s.endsWith(p)] *)
Definition startsWith (s p : string) : bool := String.prefix p s.
Definition endsWith (s p : string) : bool :=
  (String.length p <=? String.length s)%nat
  && String.eqb
       (String.substring (String.length s - String.length p) (String.length p) s)
       p.

(** [caches.keys()] *)
Definition keys (cs : CacheStorage) : list string := fst <$> cs.

(** [cache.match(request)] *)
Fixpoint cache_match (u : string) (c : Cache) : option Response :=
  match c with
  | [] => None
  | (k, r) :: c' => if String.eqb k u then Some r else cache_match u c'
  end.

(** [caches.match(request)]: the first match over the caches, in the order
    of their creation. *)
Fixpoint caches_match (u : string) (cs : CacheStorage) : option Response :=
  match cs with
  | [] => None
  | (_, c) :: cs' =>
      match cache_match u c with
      | Some r => Some r
      | None => caches_match u cs'
      end
  end.

(** The cache with the entry of the URL [u] set to [r]: an entry that is
    there is replaced. *)
Fixpoint cache_set (u : string) (r : Response) (c : Cache) : Cache :=
  match c with
  | [] => [(u, r)]
  | (k, r') :: c' =>
      if String.eqb k u then (k, r) :: c' else (k, r') :: cache_set u r c'
  end.

(** The cases in which the platform rejects [cache.put(request, response)]
    with a [TypeError] and stores nothing: the request is not a GET over
    http or https, the response is a partial one (status 206), or its [Vary]
    header holds a star.  (The responses the worker puts come from [fetch]
    and are put as they came or as a clone, so that their body is never
    used up.) *)
Definition put_rejects (request : Request) (response : Response) : bool :=
  negb (String.eqb (protocol request) "http:"
        || String.eqb (protocol request) "https:")
  || negb (String.eqb (method request) "GET")
  || (status response =? 206)
  || existsb (String.eqb "*") (vary response).

(** [cache.put(request, response)].  The worker does not await the promise
    and handles no rejection: a [put] that is rejected leaves the cache as
    it is and is not noticed. *)
Definition cache_put (request : Request) (response : Response) (c : Cache)
    : Cache :=
  if put_rejects request response then c
  else cache_set (url request) response c.

(** [caches.open(name).then(cache => cache.put(request, response))]:
    [caches.open] creates the cache when there is none of that name. *)
Fixpoint open_put (name : string) (request : Request) (response : Response)
    (cs : CacheStorage) : CacheStorage :=
  match cs with
  | [] => [(name, cache_put request response [])]
  | (n, c) :: cs' =>
      if String.eqb n name then (n, cache_put request response c) :: cs'
      else (n, c) :: open_put name request response cs'
  end.

(** The cache [caches.open(name)] resolves to: an empty one when the storage
    has none of that name. *)
Definition cache_named (name : string) (cs : CacheStorage) : Cache :=
  match List.find (fun e => String.eqb (fst e) name) cs with
  | Some e => snd e
  | None => []
  end.

(** [caches.delete(name)] *)
Definition caches_delete (name : string) (cs : CacheStorage) : CacheStorage :=
  List.filter (fun e => negb (String.eqb (fst e) name)) cs.

(** *** The activate event *)

(** The condition under which the listener deletes the cache [cacheName]. *)
Definition isOldCache (cacheName : string) : bool :=
  negb (String.eqb cacheName STATIC_CACHE_NAME)
  && negb (String.eqb cacheName DYNAMIC_CACHE_NAME)
  && startsWith cacheName "quiz-pro-".

(** The callback of [cacheNames.map]. *)
Definition deleteIfOld (cs : CacheStorage) (cacheName : string) : CacheStorage :=
  if isOldCache cacheName then caches_delete cacheName cs else cs.

(** The cache storage once the promise given to [event.waitUntil] has
    settled. *)
Definition activate (cs : CacheStorage) : CacheStorage :=
  fold_left deleteIfOld (keys cs) cs.

(** *** The fetch event *)

Definition offline (message : string) : Response :=
  mkResponse 503 "Service Unavailable" message [].

(** The outcome of [fetch(request)]: [None] when the promise rejects. *)
Definition Network : Type := option Response.

Definition cacheFirst (request : Request) (net : Network) (cs : CacheStorage)
    : Response * CacheStorage :=
  match caches_match (url request) cs with
  | Some cachedResponse => (cachedResponse, cs)
  | None =>
      match net with
      | Some networkResponse =>
          (networkResponse,
           if ok networkResponse
           then open_put STATIC_CACHE_NAME request networkResponse cs
           else cs)
      | None => (offline "Offline - Resource not available", cs)
      end
  end.

(** [cache.put] is not awaited by the strategies: the cache storage they
    return here is the one the pending [put] leaves. *)
Definition networkFirst (request : Request) (net : Network) (cs : CacheStorage)
    : Response * CacheStorage :=
  match net with
  | Some networkResponse =>
      (networkResponse,
       if ok networkResponse
       then open_put DYNAMIC_CACHE_NAME request networkResponse cs
       else cs)
  | None =>
      match caches_match (url request) cs with
      | Some cachedResponse => (cachedResponse, cs)
      | None => (offline "Offline - Resource not available", cs)
      end
  end.

(** The branch the first fetch listener takes. *)
Inductive Strategy : Type :=
  | PassThrough            (* the listener returns without responding *)
  | NetworkOnly            (* [fetch(request)] *)
  | CacheFirst
  | NetworkFirst
  | CacheFirstWithRefresh.

Definition fetchListener (request : Request) : Strategy :=
  if negb (String.eqb (method request) "GET") then PassThrough
  else if negb (startsWith (protocol request) "http") then PassThrough
  else if existsb (fun pattern => startsWith (pathname request) pattern)
            NETWORK_ONLY
  then NetworkOnly
  else if existsb
            (fun file =>
               String.eqb (pathname request) file
               || endsWith (pathname request) file)
            STATIC_FILES
  then CacheFirst
  else if existsb (fun pattern => startsWith (pathname request) pattern)
            DYNAMIC_FILES
  then NetworkFirst
  else CacheFirstWithRefresh.

(** [cacheFirstWithRefresh]: with a cached copy the refresh runs in the
    background; the cache storage returned is the one the refresh leaves. *)
Definition cacheFirstWithRefresh (root : string) (request : Request)
    (net : Network) (cs : CacheStorage) : option Response * CacheStorage :=
  match caches_match (url request) cs with
  | Some cachedResponse =>
      (Some cachedResponse,
       match net with
       | Some networkResponse =>
           if ok networkResponse
           then open_put DYNAMIC_CACHE_NAME request networkResponse cs
           else cs
       | None => cs
       end)
  | None =>
      match net with
      | Some networkResponse =>
          (Some networkResponse,
           if ok networkResponse
           then open_put DYNAMIC_CACHE_NAME request networkResponse cs
           else cs)
      | None =>
          if String.eqb (mode request) "navigate"
          then (caches_match root cs, cs)
          else (Some (offline "Offline"), cs)
      end
  end.

(** What the listener hands to [event.respondWith]. *)
Inductive Reply : Type :=
  | NotAnswered                       (* the listener returns without a call *)
  | Fulfilled (r : option Response)   (* [None]: the promise gave [undefined] *)
  | Rejected.                         (* the promise of [fetch] rejected *)

Definition fetched (net : Network) : Reply :=
  match net with Some r => Fulfilled (Some r) | None => Rejected end.

(** The first listener of the fetch event, the one that chooses the
    strategy: [root] is the URL [caches.match('/')] looks up, [net] the
    outcome of the [fetch] of the branch taken.  (The listener registered at
    the end of the file measures the time of a plain [fetch] and calls
    [respondWith] on its own; it takes no part in the caching.) *)
Definition onFetch (root : string) (request : Request) (net : Network)
    (cs : CacheStorage) : Reply * CacheStorage :=
  match fetchListener request with
  | PassThrough => (NotAnswered, cs)
  | NetworkOnly => (fetched net, cs)
  | CacheFirst =>
      let '(r, cs) := cacheFirst request net cs in (Fulfilled (Some r), cs)
  | NetworkFirst =>
      let '(r, cs) := networkFirst request net cs in (Fulfilled (Some r), cs)
  | CacheFirstWithRefresh =>
      let '(r, cs) := cacheFirstWithRefresh root request net cs in
      (Fulfilled r, cs)
  end.

End Worker.

(* ===================================================================== *)
(** ** The aggregate of the specification, and sample inputs              *)
(* ===================================================================== *)

Module Spec.
Import Storage.

Definition sumZ (l : list Z) : Z := foldr Z.add 0 l.
Definition maxZ (l : list Z) : Z := foldr Z.max 0 l.

(** The aggregate as the specification words it: the six figures computed
    over a given history (the number of results, the sums of the questions
    and of the times, the best percentage, none below 0, and the rounded
    means). *)
Definition aggregate (h : list QuizResult) : Statistics :=
  let n := Z.of_nat (length h) in
  let scores := (fun r => percentage (r_summary r)) <$> h in
  let times := (fun r => default 0 (totalTime (r_summary r))) <$> h in
  match h with
  | [] => mkStatistics 0 0 0 0 0 0
  | _ =>
      mkStatistics n
        (sumZ ((fun r => totalQuestions (r_summary r)) <$> h))
        (round_div (sumZ scores) n)
        (maxZ scores)
        (sumZ times)
        (round_div (sumZ times) n)
  end.

(** What a run of [handleStorageFull] may do to the store: a front part of
    the history is kept, the import log is emptied or kept, and the rest is
    as before. *)
Definition cleaned (s s' : Store) : Prop :=
  questions s' = questions s
  /\ collections s' = collections s
  /\ settings s' = settings s
  /\ (exists k, history s' = take k (history s))
  /\ (imports s' = [] \/ imports s' = imports s).

(** [q'] is the bundle record [q] as an import stores it: with the time of
    the import, a reading of the clock, under the id it came with or, when it
    came without one, under an id the generator gave. *)
Definition stamped (E : Env) (q q' : Question) : Prop :=
  exists i k,
    q' = q_set_importedAt (clock E k) (q_set_id i q)
    /\ (if truthy (q_id q) then i = q_id q
        else exists n, i = Some (genId E n)).

(** The number of the coming writes that fail on the quota. *)
Fixpoint quotaFailures (fs : list WriteOutcome) : nat :=
  match fs with
  | [] => O
  | QuotaExceededError :: fs => S (quotaFailures fs)
  | _ :: fs => quotaFailures fs
  end.

(** What a call that writes does, whatever the fates of its writes: from the
    world [w] it comes to an outcome [r] and a world [w'] with the room on
    the stack of [w] and no failure on the quota to come that [w] did not
    have; it throws nothing but the [RangeError] of the stack, and it returns
    when the stack has room for the failures on the quota to come. *)
Definition safely {A} (w : World) (r : Outcome A) (w' : World) : Prop :=
  stack w' = stack w
  /\ (quotaFailures (fates w') <= quotaFailures (fates w))%nat
  /\ (forall message, r = Thrown message -> message = stackOverflow)
  /\ ((quotaFailures (fates w) <= stack w)%nat -> exists a, r = Returned a).

(** [arr.join(sep)] *)
Fixpoint joinWith (sep : Creator.jsstring) (l : list Creator.jsstring)
    : Creator.jsstring :=
  match l with
  | [] => []
  | x :: l' =>
      match l' with
      | [] => x
      | _ :: _ => x ++ sep ++ joinWith sep l'
      end
  end.

(** Every response a cache storage holds has a status of 200 to 299. *)
Definition only_ok (cs : Worker.CacheStorage) : Prop :=
  Forall (fun e : string * Worker.Cache =>
            Forall (fun kv : string * Worker.Response =>
                      Worker.ok (snd kv) = true) (snd e)) cs.

End Spec.

Module Sample.
Import Storage.

(** An environment: the n-th id is [g] followed by n primes, the clock
    advances by one millisecond a reading. *)
Fixpoint primes (n : nat) : string :=
  match n with
  | O => EmptyString
  | S n => "'" +:+ primes n
  end.

Definition E0 : Env :=
  mkEnv (fun n => "g" +:+ primes n) (fun n => 1000 + Z.of_nat n).

Definition emptyStore : Store := mkStore [] [] [] [] None.

(** The room on the call stack in the examples. *)
Definition stackRoom : nat := 1000.

(** A world with an empty store in which every write succeeds. *)
Definition w0 : World := mkWorld emptyStore 0 [] stackRoom.

(** A quiz result with the given percentage, as handed to [saveQuizResult]. *)
Definition result (p : Z) : QuizResult :=
  mkQuizResult None 0 (mkSummary 10 5 5 0 p (Some 30)) [].

(** [saveQuizResult] called on each of the results, the first of the list
    first. *)
Definition saveAll (E : Env) (results : list QuizResult) (w : World) : World :=
  fold_left (fun w r => snd (saveQuizResult E r w)) results w.

(** The results with the percentages 1, 2, ..., n. *)
Definition results (n : nat) : list QuizResult :=
  (fun k => result (Z.of_nat k)) <$> seq 1 n.

Definition question (i : option string) (t : string) : Question :=
  mkQuestion i t multiple ["yes"; "no"] 0 "none" medium "general" [] None None
    None.

Definition collection (i : option string) (n : string) : Collection :=
  mkCollection i n [] None None None.

(** A bundle with the given questions and collections, and no history. *)
Definition bundle (qs : list Question) (cs : list Collection) : Bundle :=
  mkBundle (Some "1.0") (Some 500) (Some qs) (Some cs) None None.

Definition backup (b : Bundle) : Backup := mkBackup "1.0" 600 (Some b) None.

(** A block of the text format whose answer line reads "Answer: C". *)
Definition answerBlock : Creator.jsstring :=
  Creator.js "Capital of Brazil?" ++ [Creator.LF] ++ Creator.js "A) SP"
  ++ [Creator.LF] ++ Creator.js "B) RJ" ++ [Creator.LF]
  ++ Creator.js "C) Brasilia" ++ [Creator.LF] ++ Creator.js "Answer: C"
  ++ [Creator.LF] ++ Creator.js "Explicação: test".

(** What [parseSingleQuestionFromText] makes of it. *)
Definition answerQuestion : Creator.TextQuestion :=
  Creator.mkTextQuestion (Creator.js "Capital of Brazil?")
    (Creator.js "multiple")
    [Creator.js "A) SP"; Creator.js "B) RJ"; Creator.js "C) Brasilia"] 0
    (Creator.js "test").

End Sample.

(* ===================================================================== *)
(** ** Properties of the storage module                                   *)
(* ===================================================================== *)

Module StorageFacts.
Import Storage Spec Sample.

(** *** Writes *)

Lemma setItem_succeeds (v : Value) (w : World) :
  fates w = [] ->
  setItem v w = (Returned true, with_store (commit v (store w)) w).
Proof.
  intros Hf. unfold setItem. destruct (stack w); simpl; rewrite Hf; reflexivity.
Qed.

(** Unfolding [handleStorageFull_with] at a history of a given length. *)
Ltac storage_full w1 :=
  unfold handleStorageFull_with;
  let h := fresh "h" in
  set (h := getQuizHistory None w1) in *;
  destruct (20 <? length h)%nat.

(** The room on the stack is the same after a call. *)
Lemma setItem_room_stack (n : nat) :
  forall v w, stack (snd (setItem_room n v w)) = stack w.
Proof.
  induction n as [|n IH]; intros v w; simpl;
    destruct (fates w) as [|[] fs] eqn:Hf; try reflexivity.
  set (w1 := with_fates fs w). change (stack w) with (stack w1).
  storage_full w1.
  - pose proof (IH (VHistory (take 20 h)) w1) as Ha.
    destruct (setItem_room n (VHistory (take 20 h)) w1) as [[b|m] w2];
      cbn [fst snd] in *; [|exact Ha].
    pose proof (IH (VImports []) w2) as Hb.
    destruct (setItem_room n (VImports []) w2) as [[b'|m'] w3];
      cbn [fst snd] in *; congruence.
  - pose proof (IH (VImports []) w1) as Hb.
    destruct (setItem_room n (VImports []) w1) as [[b'|m'] w3];
      cbn [fst snd] in *; congruence.
Qed.

Lemma setItem_stack (v : Value) (w : World) :
  stack (snd (setItem v w)) = stack w.
Proof. apply setItem_room_stack. Qed.

(** No call adds to the failures on the quota still to come. *)
Lemma setItem_room_quotaFailures (n : nat) :
  forall v w,
    (quotaFailures (fates (snd (setItem_room n v w)))
     <= quotaFailures (fates w))%nat.
Proof.
  induction n as [|n IH]; intros v w; simpl;
    destruct (fates w) as [|[] fs] eqn:Hf; cbn [fst snd with_store with_fates
      fates quotaFailures]; try rewrite Hf; cbn [quotaFailures]; try lia.
  set (w1 := with_fates fs w).
  change (quotaFailures fs) with (quotaFailures (fates w1)).
  storage_full w1.
  - pose proof (IH (VHistory (take 20 h)) w1) as Ha.
    destruct (setItem_room n (VHistory (take 20 h)) w1) as [[b|m] w2];
      cbn [fst snd] in *; [|lia].
    pose proof (IH (VImports []) w2) as Hb.
    destruct (setItem_room n (VImports []) w2) as [[b'|m'] w3];
      cbn [fst snd] in *; lia.
  - pose proof (IH (VImports []) w1) as Hb.
    destruct (setItem_room n (VImports []) w1) as [[b'|m'] w3];
      cbn [fst snd] in *; lia.
Qed.

(** With room for every failure on the quota still to come, the recursion of
    [setItem] through [handleStorageFull] ends before the stack does: the
    call returns, and the result does not depend on the room. *)
Lemma setItem_room_enough (n : nat) :
  forall m v w,
    (quotaFailures (fates w) <= n)%nat -> (quotaFailures (fates w) <= m)%nat ->
    setItem_room n v w = setItem_room m v w
    /\ exists b, fst (setItem_room n v w) = Returned b.
Proof.
  induction n as [|n IH]; intros m v w Hn Hm.
  - destruct m; simpl; destruct (fates w) as [|[] fs] eqn:Hf;
      cbn [quotaFailures] in *; try lia; eauto.
  - destruct m as [|m]; simpl; destruct (fates w) as [|[] fs] eqn:Hf;
      cbn [quotaFailures] in *; try lia; eauto.
    set (w1 := with_fates fs w).
    assert (H1 : (quotaFailures (fates w1) <= n)%nat) by (simpl; lia).
    assert (H1' : (quotaFailures (fates w1) <= m)%nat) by (simpl; lia).
    storage_full w1.
    + destruct (IH m (VHistory (take 20 h)) w1 H1 H1') as [<- [b Hb]].
      pose proof (setItem_room_quotaFailures n (VHistory (take 20 h)) w1) as Hle.
      destruct (setItem_room n (VHistory (take 20 h)) w1) as [[b0|m0] w2];
        cbn [fst snd] in *; [|discriminate Hb].
      destruct (IH m (VImports []) w2) as [<- [b' Hb']]; [lia|lia|].
      destruct (setItem_room n (VImports []) w2) as [[b1|m1] w3];
        cbn [fst snd] in *; [eauto|discriminate Hb'].
    + destruct (IH m (VImports []) w1 H1 H1') as [<- [b' Hb']].
      destruct (setItem_room n (VImports []) w1) as [[b1|m1] w3];
        cbn [fst snd] in *; [eauto|discriminate Hb'].
Qed.

Lemma setItem_room_setItem (n : nat) (v : Value) (w : World) :
  (quotaFailures (fates w) <= n)%nat ->
  (quotaFailures (fates w) <= stack w)%nat ->
  setItem_room n v w = setItem v w.
Proof. intros Hn Hs. unfold setItem. by apply setItem_room_enough. Qed.

(** A write returns when the stack has room for the failures on the quota
    that are to come. *)
Lemma setItem_returns (v : Value) (w : World) :
  (quotaFailures (fates w) <= stack w)%nat ->
  exists b, fst (setItem v w) = Returned b.
Proof.
  intros Hs. unfold setItem.
  by destruct (setItem_room_enough (stack w) (stack w) v w Hs Hs) as [_ ?].
Qed.

(** The one error a write throws is the [RangeError] of the stack. *)
Lemma setItem_room_outcome (n : nat) :
  forall v w m, fst (setItem_room n v w) = Thrown m -> m = stackOverflow.
Proof.
  induction n as [|n IH]; intros v w m; simpl;
    destruct (fates w) as [|[] fs] eqn:Hf; cbn [fst]; try congruence.
  set (w1 := with_fates fs w).
  storage_full w1.
  - pose proof (IH (VHistory (take 20 h)) w1) as Ha.
    destruct (setItem_room n (VHistory (take 20 h)) w1) as [[b0|m0] w2];
      cbn [fst snd] in *; [|intros [= <-]; by apply Ha].
    pose proof (IH (VImports []) w2) as Hb.
    destruct (setItem_room n (VImports []) w2) as [[b1|m1] w3];
      cbn [fst snd] in *; [discriminate|intros [= <-]; by apply Hb].
  - pose proof (IH (VImports []) w1) as Hb.
    destruct (setItem_room n (VImports []) w1) as [[b1|m1] w3];
      cbn [fst snd] in *; [discriminate|intros [= <-]; by apply Hb].
Qed.

Lemma setItem_outcome (v : Value) (w : World) (m : string) :
  fst (setItem v w) = Thrown m -> m = stackOverflow.
Proof. apply setItem_room_outcome. Qed.

Lemma setItem_quotaFailures (v : Value) (w : World) :
  (quotaFailures (fates (snd (setItem v w))) <= quotaFailures (fates w))%nat.
Proof. apply setItem_room_quotaFailures. Qed.

Lemma handleStorageFull_with_room (n : nat) (w : World) :
  (quotaFailures (fates w) <= n)%nat ->
  (quotaFailures (fates w) <= stack w)%nat ->
  handleStorageFull_with (setItem_room n) w = handleStorageFull w.
Proof.
  intros Hn Hs. unfold handleStorageFull. storage_full w.
  - rewrite (setItem_room_setItem n (VHistory (take 20 h)) w Hn Hs).
    pose proof (setItem_quotaFailures (VHistory (take 20 h)) w) as Hle.
    pose proof (setItem_stack (VHistory (take 20 h)) w) as Hst.
    destruct (setItem (VHistory (take 20 h)) w) as [[b|m] w2];
      cbn [fst snd] in *; [|reflexivity].
    rewrite setItem_room_setItem by lia. reflexivity.
  - rewrite setItem_room_setItem by lia. reflexivity.
Qed.

(** [handleStorageFull] returns when the stack has room for the failures on
    the quota that are to come. *)
Lemma handleStorageFull_returns (w : World) :
  (quotaFailures (fates w) <= stack w)%nat ->
  fst (handleStorageFull w) = Returned tt.
Proof.
  intros Hs. unfold handleStorageFull. storage_full w.
  - destruct (setItem_returns (VHistory (take 20 h)) w Hs) as [b Hb].
    pose proof (setItem_quotaFailures (VHistory (take 20 h)) w) as Hle.
    pose proof (setItem_stack (VHistory (take 20 h)) w) as Hst.
    destruct (setItem (VHistory (take 20 h)) w) as [[b0|m0] w2];
      cbn [fst snd] in *; [|discriminate Hb].
    destruct (setItem_returns (VImports []) w2) as [b' Hb']; [lia|].
    destruct (setItem (VImports []) w2) as [[b1|m1] w3];
      cbn [fst snd] in *; [reflexivity|discriminate Hb'].
  - destruct (setItem_returns (VImports []) w Hs) as [b' Hb'].
    destruct (setItem (VImports []) w) as [[b1|m1] w3];
      cbn [fst snd] in *; [reflexivity|discriminate Hb'].
Qed.

(** The equation of [setItem] for a write that fails on the quota, when the
    stack has room for this failure and for those to come. *)
Lemma setItem_quota (v : Value) (w : World) (fs : list WriteOutcome) :
  fates w = QuotaExceededError :: fs ->
  (quotaFailures (fates w) <= stack w)%nat ->
  setItem v w = (Returned false, snd (handleStorageFull (with_fates fs w))).
Proof.
  intros Hf Hs. rewrite Hf in Hs. cbn [quotaFailures] in Hs.
  unfold setItem. destruct (stack w) as [|d] eqn:Hd; [lia|].
  simpl. rewrite Hf.
  rewrite handleStorageFull_with_room by (simpl; lia).
  pose proof (handleStorageFull_returns (with_fates fs w)) as Hr.
  destruct (handleStorageFull (with_fates fs w)) as [[[]|m] w'];
    cbn [fst snd] in *; [reflexivity|].
  by discriminate Hr; simpl; lia.
Qed.

(** While the writes fail on the quota, [setItem] and [handleStorageFull]
    call each other: with one failure more than the stack has room for, the
    call throws the [RangeError], and nothing has been written. *)
Lemma setItem_room_overflow (n : nat) :
  forall v w fs,
    fates w = replicate (S n) QuotaExceededError ++ fs ->
    setItem_room n v w = (Thrown stackOverflow, with_fates fs w).
Proof.
  induction n as [|n IH]; intros v w fs Hf; simpl; rewrite Hf; simpl;
    [reflexivity|].
  set (w1 := with_fates (QuotaExceededError :: replicate n QuotaExceededError ++ fs) w).
  assert (H1 : fates w1 = replicate (S n) QuotaExceededError ++ fs) by reflexivity.
  storage_full w1; rewrite (IH _ w1 fs H1); reflexivity.
Qed.

Lemma setItem_overflow (v : Value) (w : World) (fs : list WriteOutcome) :
  fates w = replicate (S (stack w)) QuotaExceededError ++ fs ->
  setItem v w = (Thrown stackOverflow, with_fates fs w).
Proof. apply setItem_room_overflow. Qed.


(** *** What a write leaves of the store *)

Lemma cleaned_refl (s : Store) : cleaned s s.
Proof.
  repeat split; auto. exists (length (history s)). by rewrite take_ge.
Qed.

Lemma cleaned_trans (s1 s2 s3 : Store) :
  cleaned s1 s2 -> cleaned s2 s3 -> cleaned s1 s3.
Proof.
  intros (Hq & Hc & Hs & [k Hh] & Hi) (Hq' & Hc' & Hs' & [k' Hh'] & Hi').
  repeat split; try congruence.
  - exists (min k' k). rewrite Hh', Hh. apply take_take.
  - destruct Hi' as [->| ->]; auto.
Qed.

(** The clean-up leaves a cleaned store, whatever the [setItem] it calls
    does, as long as each call of it stores the value or leaves a cleaned
    store. *)
Lemma handleStorageFull_with_cleaned
    (set : Value -> World -> Outcome bool * World) (w : World) :
  (forall v w,
     store (snd (set v w)) = commit v (store w)
     \/ cleaned (store w) (store (snd (set v w)))) ->
  cleaned (store w) (store (snd (handleStorageFull_with set w))).
Proof.
  intros Hset.
  assert (Hi : forall w2, cleaned (store w) (store w2) ->
               cleaned (store w) (store (snd (set (VImports []) w2)))).
  { intros w2 H12. destruct (Hset (VImports []) w2) as [->|H23].
    - destruct H12 as (? & ? & ? & ? & ?).
      split; [|split; [|split; [|split]]]; simpl; auto.
    - eapply cleaned_trans; eauto. }
  assert (Hh : forall k, cleaned (store w)
                 (store (snd (set (VHistory (take k (getQuizHistory None w))) w)))).
  { intros k. destruct (Hset (VHistory (take k (getQuizHistory None w))) w)
      as [->|H12]; [|exact H12].
    split; [|split; [|split; [|split]]]; simpl; auto.
    exists (min k 50). unfold getQuizHistory. simpl. apply take_take. }
  unfold handleStorageFull_with.
  set (h := getQuizHistory None w) in *.
  destruct (20 <? length h)%nat.
  - specialize (Hh 20%nat).
    destruct (set (VHistory (take 20 h)) w) as [[b|m] w2]; cbn [fst snd] in *;
      [|exact Hh].
    specialize (Hi w2 Hh).
    destruct (set (VImports []) w2) as [[b'|m'] w3]; exact Hi.
  - specialize (Hi w (cleaned_refl _)).
    destruct (set (VImports []) w) as [[b'|m'] w3]; exact Hi.
Qed.

(** A write either stores its value or, when it fails or throws, leaves a
    cleaned store, whatever the later writes do. *)
Lemma setItem_room_cases (n : nat) :
  forall v w,
    let s' := store (snd (setItem_room n v w)) in
    s' = commit v (store w) \/ cleaned (store w) s'.
Proof.
  induction n as [|n IH]; intros v w; simpl;
    destruct (fates w) as [|[] fs] eqn:Hf; simpl; auto using cleaned_refl.
  right.
  pose proof (handleStorageFull_with_cleaned (setItem_room n) (with_fates fs w) IH)
    as Hc.
  destruct (handleStorageFull_with (setItem_room n) (with_fates fs w))
    as [[[]|m] w']; exact Hc.
Qed.

Lemma setItem_cases (v : Value) (w : World) :
  store (snd (setItem v w)) = commit v (store w)
  \/ cleaned (store w) (store (snd (setItem v w))).
Proof. apply setItem_room_cases. Qed.

Lemma handleStorageFull_cleaned (w : World) :
  cleaned (store w) (store (snd (handleStorageFull w))).
Proof. apply handleStorageFull_with_cleaned, setItem_cases. Qed.

(** A write that does not return [true] has stored nothing. *)
Lemma setItem_room_not_stored (n : nat) (v : Value) (w : World) :
  fst (setItem_room n v w) <> Returned true ->
  cleaned (store w) (store (snd (setItem_room n v w))).
Proof.
  intros Hr. destruct n as [|n]; simpl in *;
    destruct (fates w) as [|[] fs] eqn:Hf; simpl in *;
    try congruence; try apply cleaned_refl.
  pose proof (handleStorageFull_with_cleaned (setItem_room n) (with_fates fs w)
                (setItem_room_cases n)) as Hc.
  destruct (handleStorageFull_with (setItem_room n) (with_fates fs w))
    as [[[]|m] w']; exact Hc.
Qed.


(** *** Writes that fail on the quota *)

(** When the writes of [handleStorageFull] succeed, the history is cut to
    its 20 most recent results (when the 50 most recent are more than 20) and
    the import log is emptied. *)
Lemma handleStorageFull_succeeds (w : World) :
  fates w = [] ->
  store (snd (handleStorageFull w)) =
    mkStore (questions (store w))
      (if (20 <? length (take 50 (history (store w))))%nat
       then take 20 (history (store w)) else history (store w))
      (collections (store w)) [] (settings (store w)).
Proof.
  intros Hf. unfold handleStorageFull, handleStorageFull_with.
  change (getQuizHistory None w) with (take 50 (history (store w))).
  destruct (20 <? length (take 50 (history (store w))))%nat.
  - rewrite (setItem_succeeds _ w Hf). cbn [fst snd].
    rewrite setItem_succeeds by exact Hf. simpl.
    rewrite take_take. reflexivity.
  - rewrite (setItem_succeeds _ w Hf). reflexivity.
Qed.

(** C5 (as amended).  A write that fails with a quota error is not tried
    again: when the stack has room for this failure and for the failures on
    the quota of the writes of the clean-up, [setItem] runs
    [handleStorageFull] and returns [false], and the store it leaves is the
    store before the call cleaned of old history and of the import log,
    without the value that was to be written.  When the writes of the
    clean-up succeed, the history is cut to its 20 most recent results and
    the import log is empty. *)
Theorem setItem_quota_cleans_and_fails (v : Value) (w : World)
    (fs : list WriteOutcome) :
  (quotaFailures (QuotaExceededError :: fs) <= stack w)%nat ->
  let r := setItem v (with_fates (QuotaExceededError :: fs) w) in
  let r0 := setItem v (with_fates [QuotaExceededError] w) in
  fst r = Returned false
  /\ snd r = snd (handleStorageFull (with_fates fs w))
  /\ cleaned (store w) (store (snd r))
  /\ fst r0 = Returned false
  /\ history (store (snd r0)) =
       (if (20 <? length (take 50 (history (store w))))%nat
        then take 20 (history (store w)) else history (store w))
  /\ imports (store (snd r0)) = [].
Proof.
  intros Hs r r0. unfold r, r0.
  rewrite (setItem_quota v _ fs) by (reflexivity || exact Hs).
  rewrite (setItem_quota v _ []) by (reflexivity || (cbn in *; lia)).
  cbn [fst snd]. split; [reflexivity|]. split; [reflexivity|].
  split; [apply (handleStorageFull_cleaned (with_fates fs w))|].
  split; [reflexivity|].
  rewrite handleStorageFull_succeeds by reflexivity. split; reflexivity.
Qed.

(** C5 at a write that fails on the quota, followed by a write of the
    clean-up that fails on it too. *)
Lemma setItem_quota_cleans_and_fails_witness :
  let v := VQuestions [question (Some "a") "first"] in
  let fs := [QuotaExceededError; WriteOk] in
  (quotaFailures (QuotaExceededError :: fs) <= stack w0)%nat
  /\ fst (setItem v (with_fates (QuotaExceededError :: fs) w0)) = Returned false
  /\ questions (store (snd (setItem v (with_fates (QuotaExceededError :: fs) w0))))
     = [].
Proof.
  split; [vm_compute; lia|].
  destruct (setItem_quota_cleans_and_fails
              (VQuestions [question (Some "a") "first"]) w0
              [QuotaExceededError; WriteOk]) as (Hr & _ & Hc & _);
    [vm_compute; lia|].
  split; [exact Hr|]. by destruct Hc as (-> & _).
Defined.

(** C5 (counterexample).  The first write of a question fails on the quota
    and every later write would succeed: the call returns [false] and the
    question is not stored, no second attempt is made. *)
Lemma setItem_quota_no_retry_counterexample :
  let v := VQuestions [question (Some "a") "first"] in
  let r := setItem v (mkWorld emptyStore 0 [QuotaExceededError] stackRoom) in
  fates (snd r) = []
  /\ fst r = Returned false
  /\ questions (store (snd r)) = []
  /\ ~ (fst r = Returned true
        /\ questions (store (snd r)) = [question (Some "a") "first"]).
Proof.
  vm_compute. repeat split. intros [H _]. discriminate H.
Qed.

(** Outside the condition of C5: the writes of the clean-up fail on the
    quota as the first write did, until the stack is used up (here it has
    room for 3 calls).  The call does not return [false]: it throws the
    [RangeError], and the store is the one from before. *)
Example setItem_quota_stack_overflow :
  let v := VQuestions [question (Some "a") "first"] in
  let w := mkWorld emptyStore 0 (replicate 4 QuotaExceededError) 3 in
  setItem v w = (Thrown stackOverflow, mkWorld emptyStore 0 [] 3)
  /\ fst (setItem v w) <> Returned false.
Proof. vm_compute. split; [reflexivity|discriminate]. Qed.


(** *** The history ledger *)

Section History.
Variable E : Env.

Lemma getQuizHistory_default (w : World) :
  getQuizHistory None w = take 50 (history (store w)).
Proof. reflexivity. Qed.

(** An append whose write succeeds stores the new result in front of the
    50 most recent results: the default limit of [getQuizHistory] applies to
    the history [saveQuizResult] reads. *)
Lemma saveQuizResult_history (r : QuizResult) (w : World) :
  fates w = [] ->
  history (store (snd (saveQuizResult E r w))) =
    set_meta (genId E (tick w)) (clock E (S (tick w))) r
      :: take 50 (history (store w)).
Proof.
  intros Hf. unfold saveQuizResult, generateId, now.
  rewrite getQuizHistory_default. cbn [next_tick tick store fates].
  set (x := set_meta _ _ r).
  assert (Hlen : (100 <? length (x :: take 50 (history (store w))))%nat = false).
  { apply Nat.ltb_ge. cbn [length]. rewrite length_take. lia. }
  rewrite Hlen. rewrite setItem_succeeds by exact Hf. reflexivity.
Qed.

Lemma saveQuizResult_fates (r : QuizResult) (w : World) :
  fates w = [] -> fates (snd (saveQuizResult E r w)) = [].
Proof.
  intros Hf. unfold saveQuizResult, generateId, now.
  cbn [next_tick tick store fates].
  destruct (100 <? _)%nat; rewrite setItem_succeeds by exact Hf; exact Hf.
Qed.

(** Two appends in a row: the later result comes first, what [getQuizHistory]
    returns starts with the second and the first. *)
Lemma saveQuizResult_most_recent_first (r1 r2 : QuizResult) (w : World) :
  fates w = [] ->
  let w1 := snd (saveQuizResult E r1 w) in
  let w2 := snd (saveQuizResult E r2 w1) in
  exists m1 m2 rest,
    getQuizHistory None w2 = m2 :: m1 :: rest
    /\ r_summary m2 = r_summary r2 /\ r_summary m1 = r_summary r1.
Proof.
  intros Hf w1 w2.
  pose proof (saveQuizResult_fates r1 w Hf) as Hf1.
  rewrite getQuizHistory_default. unfold w2.
  rewrite saveQuizResult_history by exact Hf1. unfold w1.
  rewrite saveQuizResult_history by exact Hf.
  eexists _, _, _. split; [reflexivity|]. split; reflexivity.
Qed.

(** The stored history never holds more than 51 results after an append. *)
Lemma saveQuizResult_length (r : QuizResult) (w : World) :
  fates w = [] ->
  (length (history (store (snd (saveQuizResult E r w)))) <= 51)%nat.
Proof.
  intros Hf. rewrite saveQuizResult_history by exact Hf. simpl.
  rewrite length_take. lia.
Qed.

(** The length of the stored history after a run of appends: it grows by
    one an append from the 50 most recent results and stays at 51. *)
Lemma saveAll_length (results : list QuizResult) :
  forall w,
    fates w = [] -> results <> [] ->
    length (history (store (saveAll E results w)))
    = Nat.min 51 (Nat.min (length (history (store w))) 50 + length results).
Proof.
  induction results as [|r rs IH]; intros w Hf Hne; [done|].
  unfold saveAll in *. cbn [fold_left].
  pose proof (saveQuizResult_history r w Hf) as Hh.
  pose proof (saveQuizResult_fates r w Hf) as Hf1.
  destruct rs as [|r' rs].
  - cbn [fold_left]. rewrite Hh. cbn [length]. rewrite length_take. lia.
  - rewrite (IH _ Hf1) by done. rewrite Hh. cbn [length].
    rewrite length_take. lia.
Qed.

End History.

(** C1 (the code at the failing input).  After 101 appends to an empty
    history, every write succeeding, the store holds 51 results and not 100:
    the results with the percentages 101 down to 51, so the 50 oldest have
    been evicted and not the oldest one alone. *)
Theorem saveQuizResult_101_appends :
  let h := history (store (saveAll E0 (results 101) w0)) in
  length h = 51%nat
  /\ (fun r => percentage (r_summary r)) <$> h
     = (fun k => Z.of_nat k) <$> reverse (seq 51 51).
Proof. vm_compute. split; reflexivity. Qed.

(** *** Statistics *)

Lemma foldr_max_shift (b p : Z) (l : list Z) :
  foldr Z.max (Z.max b p) l = Z.max p (foldr Z.max b l).
Proof. induction l as [|x l IH]; simpl; [|rewrite IH]; lia. Qed.

Lemma fold_left_reducer (h : list QuizResult) :
  forall acc,
    fold_left reducer h acc =
      mkAcc (acc_totalQuizzes acc + Z.of_nat (length h))
        (acc_totalQuestions acc
         + sumZ ((fun r => totalQuestions (r_summary r)) <$> h))
        (acc_totalScore acc + sumZ ((fun r => percentage (r_summary r)) <$> h))
        (foldr Z.max (acc_bestScore acc)
           ((fun r => percentage (r_summary r)) <$> h))
        (acc_totalTime acc
         + sumZ ((fun r => default 0 (totalTime (r_summary r))) <$> h)).
Proof.
  induction h as [|r h IH]; intros acc.
  - destruct acc; simpl. f_equal; lia.
  - cbn [fold_left]. rewrite IH. unfold reducer at 1 2 3 4 5.
    cbn [acc_totalQuizzes acc_totalQuestions acc_totalScore acc_bestScore
         acc_totalTime].
    rewrite !fmap_cons. cbn [length foldr sumZ].
    replace (if acc_bestScore acc <? percentage (r_summary r)
             then percentage (r_summary r) else acc_bestScore acc)
      with (Z.max (acc_bestScore acc) (percentage (r_summary r)))
      by (destruct (Z.ltb_spec (acc_bestScore acc) (percentage (r_summary r))); lia).
    rewrite foldr_max_shift. unfold sumZ. f_equal; lia.
Qed.

(** In general the statistics are the aggregate of the 50 most recent
    stored results, which is what [getQuizHistory()] returns: a result behind
    the 50 most recent ones does not contribute.  (The figures are integers
    here; the sums of the code are the same as long as they stay below
    2^53.) *)
Lemma getQuizStatistics_recent (w : World) :
  getQuizStatistics w = aggregate (take 50 (history (store w))).
Proof.
  unfold getQuizStatistics. rewrite getQuizHistory_default.
  destruct (take 50 (history (store w))) as [|r h] eqn:Hh; [reflexivity|].
  rewrite fold_left_reducer. unfold aggregate, maxZ. simpl.
  replace (0 <? Z.pos (Pos.of_succ_nat (length h))) with true
    by (symmetry; apply Z.ltb_lt; lia).
  f_equal.
Qed.

(** C2 (the code at the failing input).  With 51 results stored, of 10
    questions and 30 seconds each and with the percentages 51 down to 1, the
    statistics are those of the 50 most recent results: 50 quizzes, 500
    questions, a mean of 27 and 1500 seconds.  The aggregate of the stored
    history has 51 quizzes, 510 questions, a mean of 26 and 1530 seconds: the
    oldest result does not contribute to the statistics. *)
Theorem getQuizStatistics_51_results :
  let w := saveAll E0 (results 51) w0 in
  length (history (store w)) = 51%nat
  /\ getQuizStatistics w = mkStatistics 50 500 27 51 1500 30
  /\ aggregate (history (store w)) = mkStatistics 51 510 26 51 1530 30
  /\ getQuizStatistics w <> aggregate (history (store w)).
Proof.
  vm_compute. split; [reflexivity|]. split; [reflexivity|].
  split; [reflexivity|]. discriminate.
Qed.


(** *** Collections *)

(** C7 (the code at the failing input).  Saving a collection whose id
    matches no stored entry returns the id and stores nothing: a lookup of
    the returned id finds no collection.  [saveQuestion] appends in the same
    situation. *)
Theorem saveCollection_unknown_id_not_stored :
  let c := collection (Some "c1") "Capitals" in
  let r := saveCollection E0 c w0 in
  fst r = Returned (Some "c1")
  /\ collections (store (snd r)) = []
  /\ getCollectionById (Some "c1") (snd r) = None
  /\ let q := question (Some "q1") "Capital of Brazil?" in
     let rq := saveQuestion E0 q w0 in
     fst rq = Returned (Some "q1")
     /\ getQuestionById (Some "q1") (snd rq) = Some (q_set_createdAt 1000 q).
Proof. vm_compute. repeat split. Qed.

(** In general: a collection that comes with an id no stored collection
    has is not stored, whatever the writes do; the id is returned unless the
    write runs out of stack. *)
Lemma saveCollection_unknown_id (E : Env) (c : Collection) (w : World) :
  truthy (c_id c) = true ->
  (forall c', c' ∈ collections (store w) -> c_id c' <> c_id c) ->
  let r := saveCollection E c w in
  (fst r = Returned (c_id c) \/ fst r = Thrown stackOverflow)
  /\ ((quotaFailures (fates w) <= stack w)%nat -> fst r = Returned (c_id c))
  /\ collections (store (snd r)) = collections (store w)
  /\ getCollectionById (c_id c) (snd r) = None.
Proof.
  intros Ht Hnew r. unfold r, saveCollection. rewrite Ht.
  unfold getAllCollections, findIndex.
  assert (Hfind : list_find (fun c' => c_id c' = c_id c) (collections (store w))
                  = None).
  { apply list_find_None, Forall_forall. exact Hnew. }
  rewrite Hfind. cbn [fmap option_fmap option_map].
  pose proof (setItem_cases (VCollections (collections (store w))) w) as Hc.
  pose proof (setItem_outcome (VCollections (collections (store w))) w) as Ho.
  pose proof (setItem_returns (VCollections (collections (store w))) w) as Hr.
  destruct (setItem (VCollections (collections (store w))) w) as [[b|m] w1];
    cbn [fst snd] in *.
  - assert (Hsame : collections (store w1) = collections (store w)).
    { destruct Hc as [->|Hc]; [reflexivity|apply Hc]. }
    split; [by left|]. split; [done|]. split; [exact Hsame|].
    unfold getCollectionById, find, getAllCollections. by rewrite Hsame, Hfind.
  - assert (Hsame : collections (store w1) = collections (store w)).
    { destruct Hc as [->|Hc]; [reflexivity|apply Hc]. }
    split; [right; by rewrite (Ho m eq_refl)|].
    split; [intros Hs; destruct (Hr Hs); discriminate|]. split; [exact Hsame|].
    unfold getCollectionById, find, getAllCollections. by rewrite Hsame, Hfind.
Qed.

(** *** Frames of the writes *)

Lemma setItem_collections (v : Value) (w : World) :
  (forall cs, v <> VCollections cs) ->
  collections (store (snd (setItem v w))) = collections (store w).
Proof.
  intros Hv. destruct (setItem_cases v w) as [->|H].
  - destruct v; try reflexivity. by destruct (Hv cs).
  - apply H.
Qed.

Lemma setItem_questions (v : Value) (w : World) :
  (forall qs, v <> VQuestions qs) ->
  questions (store (snd (setItem v w))) = questions (store w).
Proof.
  intros Hv. destruct (setItem_cases v w) as [->|H].
  - destruct v; try reflexivity. by destruct (Hv qs).
  - apply H.
Qed.

(** [run_setItem Hq Hc] takes the next call of [setItem] of the goal apart,
    with what the call leaves of the questions and of the collections. *)
Ltac run_setItem Hq Hc :=
  match goal with
  | |- context [setItem ?v ?w] =>
      pose proof (setItem_questions v w) as Hq;
      pose proof (setItem_collections v w) as Hc;
      destruct (setItem v w) as [[?|?] ?]
  end;
  cbn [fst snd] in *.

Section Importing.
Variable E : Env.

Lemma stampQuestion_store (q : Question) (w : World) :
  store (snd (stampQuestion E q w)) = store w.
Proof. unfold stampQuestion. destruct (truthy (q_id q)); reflexivity. Qed.

Lemma stampCollection_store (c : Collection) (w : World) :
  store (snd (stampCollection E c w)) = store w.
Proof. unfold stampCollection. destruct (truthy (c_id c)); reflexivity. Qed.

Lemma stampQuestion_fates (q : Question) (w : World) :
  fates (snd (stampQuestion E q w)) = fates w.
Proof. unfold stampQuestion. destruct (truthy (q_id q)); reflexivity. Qed.

Lemma stampCollection_fates (c : Collection) (w : World) :
  fates (snd (stampCollection E c w)) = fates w.
Proof. unfold stampCollection. destruct (truthy (c_id c)); reflexivity. Qed.

Lemma stampQuestion_stack (q : Question) (w : World) :
  stack (snd (stampQuestion E q w)) = stack w.
Proof. unfold stampQuestion. destruct (truthy (q_id q)); reflexivity. Qed.

Lemma stampCollection_stack (c : Collection) (w : World) :
  stack (snd (stampCollection E c w)) = stack w.
Proof. unfold stampCollection. destruct (truthy (c_id c)); reflexivity. Qed.

Lemma forEach_frame {A} (f : A -> World -> A * World) (l : list A) :
  (forall x w, store (snd (f x w)) = store w) ->
  (forall x w, fates (snd (f x w)) = fates w) ->
  forall w,
    store (snd (forEach f l w)) = store w
    /\ fates (snd (forEach f l w)) = fates w
    /\ length (fst (forEach f l w)) = length l.
Proof.
  intros Hs Hf. induction l as [|x l IH]; intros w; [by simpl|].
  simpl. specialize (Hs x w). specialize (Hf x w).
  destruct (f x w) as [x' w1]. specialize (IH w1).
  destruct (forEach f l w1) as [l' w2]. simpl in *.
  destruct IH as (-> & -> & ->). auto.
Qed.

Lemma forEach_stack {A} (f : A -> World -> A * World) (l : list A) :
  (forall x w, stack (snd (f x w)) = stack w) ->
  forall w, stack (snd (forEach f l w)) = stack w.
Proof.
  intros Hs. induction l as [|x l IH]; intros w; [by simpl|].
  simpl. specialize (Hs x w).
  destruct (f x w) as [x' w1]. specialize (IH w1).
  destruct (forEach f l w1) as [l' w2]. simpl in *. congruence.
Qed.

Lemma logImport_frame (data : Bundle) (n : nat) (w : World) :
  questions (store (snd (logImport E data n w))) = questions (store w)
  /\ collections (store (snd (logImport E data n w))) = collections (store w).
Proof.
  unfold logImport, generateId, now. cbn [next_tick tick store fates].
  run_setItem Hq Hc;
    (split; [apply Hq|apply Hc]; intros ? ?; discriminate).
Qed.

Lemma importHistory_frame (data : Bundle) (o : ImportOptions) (w : World) :
  questions (store (snd (importHistory data o w))) = questions (store w)
  /\ collections (store (snd (importHistory data o w))) = collections (store w).
Proof.
  unfold importHistory. destruct (b_history data); [|done].
  destruct (mergeHistory o); [|done].
  run_setItem Hq Hc;
    (split; [apply Hq|apply Hc]; intros ? ?; discriminate).
Qed.

Lemma importSettings_frame (data : Bundle) (o : ImportOptions) (w : World) :
  questions (store (snd (importSettings data o w))) = questions (store w)
  /\ collections (store (snd (importSettings data o w))) = collections (store w).
Proof.
  unfold importSettings. destruct (b_settings data); [|done].
  destruct (overwriteSettings o); [|done].
  run_setItem Hq Hc;
    (split; [apply Hq|apply Hc]; intros ? ?; discriminate).
Qed.

Lemma importQuestions_collections (data : Bundle) (o : ImportOptions)
    (n : nat) (w : World) :
  collections (store (snd (importQuestions E data o n w)))
  = collections (store w).
Proof.
  unfold importQuestions. destruct (b_questions data) as [dq|]; [|done].
  destruct (mergeQuestions o).
  - match goal with |- context [forEach ?f ?l ?w] =>
      pose proof (forEach_frame f l (stampQuestion_store) (stampQuestion_fates) w)
        as (Hs & _ & _); destruct (forEach f l w) as [l' w1] end.
    simpl in Hs. run_setItem Hq Hc;
      (rewrite Hc; [by rewrite Hs|]; intros ? ?; discriminate).
  - match goal with |- context [forEach ?f ?l ?w] =>
      pose proof (forEach_frame f l (stampQuestion_store) (stampQuestion_fates) w)
        as (Hs & _ & _); destruct (forEach f l w) as [l' w1] end.
    simpl in Hs. run_setItem Hq Hc;
      (rewrite Hc; [by rewrite Hs|]; intros ? ?; discriminate).
Qed.

(** The sections of [importData] behind the questions and the collections,
    with the log: they leave the questions and the collections as they are,
    whether they return or throw. *)
Lemma importData_try_sections (data : Bundle) (o : ImportOptions) (n : nat)
    (w : World) :
  let r :=
    match importHistory data o w with
    | (Thrown message, w) => (Thrown message, data, w)
    | (Returned _, w) =>
        match importSettings data o w with
        | (Thrown message, w) => (Thrown message, data, w)
        | (Returned _, w) =>
            match logImport E data n w with
            | (Thrown message, w) => (Thrown message, data, w)
            | (Returned _, w) => (Returned n, data, w)
            end
        end
    end in
  snd (fst r) = data
  /\ questions (store (snd r)) = questions (store w)
  /\ collections (store (snd r)) = collections (store w).
Proof.
  destruct (importHistory_frame data o w) as [Hq1 Hc1].
  destruct (importHistory data o w) as [[[]|m1] w1]; cbn [fst snd] in *; [|done].
  destruct (importSettings_frame data o w1) as [Hq2 Hc2].
  destruct (importSettings data o w1) as [[[]|m2] w2]; cbn [fst snd] in *;
    [|split; [done|split; congruence]].
  destruct (logImport_frame data n w2) as [Hq3 Hc3].
  destruct (logImport E data n w2) as [[[]|m3] w3]; cbn [fst snd] in *;
    (split; [done|split; congruence]).
Qed.

(** A restore never writes the collections: whatever the bundle holds and
    whatever the writes do, the stored collections are those from before. *)
Lemma restoreBackup_collections (backupData : option Backup) (w : World) :
  collections (store (snd (restoreBackup E backupData w)))
  = collections (store w).
Proof.
  unfold restoreBackup. destruct backupData as [b|]; [|done].
  destruct (bk_data b) as [data|]; [|done].
  assert (H : collections (store (snd (importData_try E data
                (mkImportOptions false false true true) w)))
              = collections (store w)).
  { unfold importData_try.
    pose proof (importQuestions_collections data
                  (mkImportOptions false false true true) 0 w) as Hq.
    destruct (importQuestions E data _ 0 w) as [[[n|m] dq] w1];
      cbn [fst snd] in *; [|exact Hq].
    unfold importCollections. cbn [mergeCollections b_collections].
    destruct (b_collections data);
      match goal with |- context [importHistory ?d ?o ?w] =>
        destruct (importData_try_sections d o n w) as (_ & _ & Hc) end;
      cbn zeta in Hc; rewrite Hc; exact Hq. }
  unfold importData.
  destruct (importData_try E data _ w) as [[[n|m] data'] w']; exact H.
Qed.

End Importing.

(** C3 (the code at the failing input).  A restore replaces the questions by
    those of the bundle but leaves the stored collections as they were: the
    collection of the bundle is not stored, the one from before stays. *)
Theorem restoreBackup_keeps_old_collections :
  let old := collection (Some "c1") "old" in
  let new := collection (Some "c2") "new" in
  let q := question (Some "q2") "Capital of Brazil?" in
  let w := mkWorld (mkStore [question (Some "q1") "Capital of France?"] []
                      [old] [] None) 0 [] stackRoom in
  let r := restoreBackup E0 (Some (backup (bundle [q] [new]))) w in
  fst (fst r) = Returned (ImportSuccess 1)
  /\ questions (store (snd r)) = [q_set_importedAt 1000 q]
  /\ collections (store (snd r)) = [old]
  /\ collections (store (snd r)) <> [new].
Proof. vm_compute. repeat split. discriminate. Qed.

(** The history section of an import: the 50 most recent stored results and
    those of the bundle, one result an id, the most recent first. *)
Example importHistory_merges :
  let r (i : string) (t : Z) := mkQuizResult (Some i) t (mkSummary 10 5 5 0 50 None) [] in
  let w := mkWorld (mkStore [] [r "b" 30; r "a" 10] [] [] None) 0 [] stackRoom in
  let data := mkBundle None None None None None
                (Some [r "c" 20; r "a" 40; r "d" 30]) in
  history (store (snd (importHistory data
                         (mkImportOptions false false true true) w)))
  = [r "b" 30; r "d" 30; r "c" 20; r "a" 10].
Proof. vm_compute. reflexivity. Qed.

(** C10.  [restoreBackup] called on [null] or [undefined], or on an object
    without [data], throws the error 'Dados de backup inválidos': it does
    not return a result object, and the state is the one from before. *)
Theorem restoreBackup_invalid_throws (E : Env) (backupData : option Backup)
    (w : World) :
  backupData = None \/ (exists b, backupData = Some b /\ bk_data b = None) ->
  restoreBackup E backupData w
  = (Thrown "Dados de backup inválidos", backupData, w).
Proof.
  intros [->|(b & -> & Hb)]; [reflexivity|].
  unfold restoreBackup. rewrite Hb. reflexivity.
Qed.

(** The two calls of C10 on the empty store. *)
Lemma restoreBackup_invalid_throws_witness :
  restoreBackup E0 None w0 = (Thrown "Dados de backup inválidos", None, w0)
  /\ restoreBackup E0 (Some (mkBackup "1.0" 600 None None)) w0
     = (Thrown "Dados de backup inválidos",
        Some (mkBackup "1.0" 600 None None), w0).
Proof.
  split.
  - apply (restoreBackup_invalid_throws E0 None w0). left. reflexivity.
  - apply (restoreBackup_invalid_throws E0 (Some (mkBackup "1.0" 600 None None)) w0).
    right. exists (mkBackup "1.0" 600 None None). split; reflexivity.
Defined.


(** *** Merging the questions of a bundle *)

Section Merge.
Variable E : Env.

Lemma write_back_elem {A} (P : A -> Prop) `{forall x, Decision (P x)}
    (arr : list A) :
  forall updated x,
    length updated = length (filter P arr) ->
    x ∈ write_back P arr updated ->
    (x ∈ arr /\ ~ P x) \/ x ∈ updated.
Proof.
  induction arr as [|a arr IH]; intros updated x Hlen Hx; simpl in Hx.
  - by apply elem_of_nil in Hx.
  - rewrite filter_cons in Hlen. destruct (decide (P a)) as [Ha|Ha].
    + destruct updated as [|y updated]; [discriminate Hlen|].
      simpl in Hlen. apply elem_of_cons in Hx as [->|Hx].
      * right. left.
      * destruct (IH updated x) as [[? ?]|?]; [lia|exact Hx| |].
        -- left. split; [by right|done].
        -- right. by right.
    + apply elem_of_cons in Hx as [->|Hx].
      * left. split; [left|exact Ha].
      * destruct (IH updated x Hlen Hx) as [[? ?]|?].
        -- left. split; [by right|done].
        -- by right.
Qed.

(** The callback gives a record without id the id the generator gives at
    that reading, and every record the time the clock gives. *)
Lemma stampQuestion_stamped (q : Question) (w : World) :
  stamped E q (fst (stampQuestion E q w)).
Proof.
  unfold stamped, stampQuestion, generateId, now.
  destruct (truthy (q_id q)) eqn:Ht; simpl.
  - exists (q_id q), (tick w). split; [by destruct q|done].
  - exists (Some (genId E (tick w))), (S (tick w)).
    split; [done|]. by exists (tick w).
Qed.

Lemma forEach_stamped (l : list Question) :
  forall w, Forall2 (stamped E) l (fst (forEach (stampQuestion E) l w)).
Proof.
  induction l as [|q l IH]; intros w; simpl; [constructor|].
  pose proof (stampQuestion_stamped q w) as Hq.
  destruct (stampQuestion E q w) as [q' w1]. specialize (IH w1).
  destruct (forEach (stampQuestion E) l w1) as [l' w2]. simpl in *.
  by constructor.
Qed.

Lemma stamped_ids (l l' : list Question) :
  Forall2 (stamped E) l l' ->
  Forall (fun q => truthy (q_id q) = true) l ->
  q_id <$> l' = q_id <$> l.
Proof.
  induction 1 as [|q q' l l' (i & t & -> & Hi) _ IH]; intros Hall; [done|].
  inversion Hall as [|? ? Hq Hl]; subst. simpl. rewrite Hq in Hi. rewrite Hi.
  f_equal. by apply IH.
Qed.

Lemma stampQuestion_id (q : Question) (w : World) :
  let r := stampQuestion E q w in
  if truthy (q_id q)
  then q_id (fst r) = q_id q /\ tick (snd r) = S (tick w)
  else q_id (fst r) = Some (genId E (tick w)) /\ tick (snd r) = S (S (tick w)).
Proof.
  unfold stampQuestion, generateId, now.
  destruct (truthy (q_id q)); split; reflexivity.
Qed.

(** The ids the records have behind the callbacks are pairwise distinct
    when the ids the records came with are and the generator gives each id
    once and none that a record came with.  Each id is one a record came
    with or one the generator gave from the first reading on. *)
Lemma forEach_stamped_NoDup (l : list Question) :
  (forall n m, genId E n = genId E m -> n = m) ->
  (forall n q, q ∈ l -> q_id q <> Some (genId E n)) ->
  NoDup (q_id <$> filter (fun q => truthy (q_id q) = true) l) ->
  forall w,
    NoDup (q_id <$> fst (forEach (stampQuestion E) l w))
    /\ forall i, i ∈ (q_id <$> fst (forEach (stampQuestion E) l w)) ->
         (exists q, q ∈ l /\ truthy (q_id q) = true /\ i = q_id q)
         \/ (exists n, (tick w <= n)%nat /\ i = Some (genId E n)).
Proof.
  intros Hinj. induction l as [|q l IH]; intros Hfresh Hnd w; simpl.
  - split; [constructor|]. intros i Hi. by apply elem_of_nil in Hi.
  - assert (Hfresh' : forall n q', q' ∈ l -> q_id q' <> Some (genId E n))
      by (intros n q' Hq'; apply Hfresh; by right).
    pose proof (stampQuestion_id q w) as Hid. cbv zeta in Hid.
    destruct (stampQuestion E q w) as [q' w1]. cbn [fst snd] in Hid.
    rewrite filter_cons in Hnd.
    destruct (truthy (q_id q)) eqn:Ht; destruct Hid as [Hid Htick].
    + rewrite decide_True in Hnd by done. rewrite fmap_cons in Hnd.
      apply NoDup_cons in Hnd as [Hq Hnd].
      destruct (IH Hfresh' Hnd w1) as [IHnd IHin].
      destruct (forEach (stampQuestion E) l w1) as [l' w2].
      cbn [fst snd] in *. rewrite fmap_cons, Hid. split.
      * apply NoDup_cons. split; [|exact IHnd].
        intros [(q0 & Hq0 & Ht0 & Heq)|(n & _ & Heq)]%IHin.
        -- apply Hq. rewrite Heq. apply list_elem_of_fmap_2.
           by apply list_elem_of_filter.
        -- by apply (Hfresh n q); [left|].
      * intros i [->|Hi]%elem_of_cons.
        -- left. exists q. split; [left|done].
        -- destruct (IHin i Hi) as [(q0 & Hq0 & Ht0 & Heq)|(n & Hn & Heq)].
           ++ left. exists q0. split; [by right|done].
           ++ right. exists n. split; [lia|done].
    + rewrite decide_False in Hnd by discriminate.
      destruct (IH Hfresh' Hnd w1) as [IHnd IHin].
      destruct (forEach (stampQuestion E) l w1) as [l' w2].
      cbn [fst snd] in *. rewrite fmap_cons, Hid. split.
      * apply NoDup_cons. split; [|exact IHnd].
        intros [(q0 & Hq0 & Ht0 & Heq)|(n & Hn & Heq)]%IHin.
        -- by apply (Hfresh (tick w) q0); [right|].
        -- injection Heq as Heq. apply Hinj in Heq. lia.
      * intros i [->|Hi]%elem_of_cons.
        -- right. exists (tick w). split; [lia|done].
        -- destruct (IHin i Hi) as [(q0 & Hq0 & Ht0 & Heq)|(n & Hn & Heq)].
           ++ left. exists q0. split; [by right|done].
           ++ right. exists n. split; [lia|done].
Qed.

(** The questions of the store after an import that merges, every write
    succeeding, and the questions the bundle holds afterwards. *)
Lemma importQuestions_merge (data : Bundle) (o : ImportOptions) (n : nat)
    (w : World) (dq : list Question) :
  fates w = [] -> mergeQuestions o = true -> b_questions data = Some dq ->
  let isNew := fun q : Question => q_id q ∉ (q_id <$> questions (store w)) in
  let added := fst (forEach (stampQuestion E) (filter isNew dq) w) in
  let r := importQuestions E data o n w in
  questions (store (snd r)) = questions (store w) ++ added
  /\ snd (fst r) = Some (write_back isNew dq added).
Proof.
  intros Hf Hm Hq isNew added r. unfold r, importQuestions.
  rewrite Hq, Hm. unfold getAllQuestions. fold isNew.
  pose proof (forEach_frame (stampQuestion E) (filter isNew dq)
                (stampQuestion_store E) (stampQuestion_fates E) w)
    as (Hs & Hf' & _).
  unfold added. destruct (forEach (stampQuestion E) (filter isNew dq) w)
    as [new' w1]. simpl in Hs, Hf'. cbn [fst].
  rewrite setItem_succeeds by congruence. simpl. done.
Qed.

Lemma importCollections_questions (data : Bundle) (o : ImportOptions)
    (w : World) :
  questions (store (snd (importCollections E data o w)))
  = questions (store w).
Proof.
  unfold importCollections. destruct (b_collections data) as [dc|]; [|done].
  destruct (mergeCollections o); [|done].
  match goal with |- context [forEach ?f ?l ?w] =>
    pose proof (forEach_frame f l (stampCollection_store E)
                  (stampCollection_fates E) w) as (Hs & _ & _);
    destruct (forEach f l w) as [l' w1] end.
  simpl in Hs. run_setItem Hq Hc;
    (rewrite Hq; [by rewrite Hs|]; intros ? ?; discriminate).
Qed.

(** The questions of the store and of the bundle after [importData] are
    those [importQuestions] leaves, whatever the writes do. *)
Lemma importData_questions (data : Bundle) (o : ImportOptions) (w : World) :
  let r := importData E data o w in
  let rq := importQuestions E data o 0 w in
  questions (store (snd r)) = questions (store (snd rq))
  /\ b_questions (snd (fst r)) = snd (fst rq).
Proof.
  intros r rq.
  assert (H : questions (store (snd (importData_try E data o w)))
              = questions (store (snd rq))
              /\ b_questions (snd (fst (importData_try E data o w)))
                 = snd (fst rq)).
  { unfold rq, importData_try.
    destruct (importQuestions E data o 0 w) as [[[n|m] dq] w1];
      cbn [fst snd]; [|done].
    match goal with |- context [importCollections E ?d o w1] =>
      pose proof (importCollections_questions d o w1) as Hc;
      destruct (importCollections E d o w1) as [[[[]|m] dc] w2] end;
      cbn [fst snd] in *; [|done].
    match goal with |- context [importHistory ?d ?o ?w] =>
      destruct (importData_try_sections E d o n w) as (Hd & Hq & _) end.
    cbn zeta in Hd, Hq. rewrite Hd, Hq. done. }
  unfold r, importData.
  destruct (importData_try E data o w) as [[[n|m] data'] w']; exact H.
Qed.

(** An import that merges adds nothing when every id of the bundle is the
    id of a stored question, whatever the writes do. *)
Lemma importQuestions_nothing_new (data : Bundle) (o : ImportOptions)
    (n : nat) (w : World) :
  mergeQuestions o = true ->
  (forall dq q, b_questions data = Some dq -> q ∈ dq ->
                q_id q ∈ (q_id <$> questions (store w))) ->
  questions (store (snd (importQuestions E data o n w))) = questions (store w).
Proof.
  intros Hm Hall. unfold importQuestions.
  destruct (b_questions data) as [dq|] eqn:Hq; [|done]. rewrite Hm.
  unfold getAllQuestions.
  set (isNew := fun q : Question => q_id q ∉ (q_id <$> questions (store w))).
  assert (Hnil : filter isNew dq = []).
  { specialize (Hall dq). clear Hq. induction dq as [|q dq IH]; [done|].
    rewrite filter_cons_False.
    - apply IH. intros q' _ Hq'. apply Hall; [done|by right].
    - intros Hnew. apply Hnew, Hall; [done|left]. }
  rewrite Hnil. simpl. rewrite app_nil_r.
  match goal with |- context [setItem ?v ?w] =>
    pose proof (setItem_cases v w) as Hc;
    destruct (setItem v w) as [[b|m] w2] end;
    simpl in *; (destruct Hc as [->|Hc]; [done|apply Hc]).
Qed.

End Merge.

(** The sample generator gives each id once, and none that starts with
    another letter than g. *)
Lemma primes_inj (n m : nat) : primes n = primes m -> n = m.
Proof.
  revert m. induction n as [|n IH]; intros [|m]; simpl; try discriminate;
    [done|]. intros [= H]. f_equal. by apply IH.
Qed.

Lemma genId_E0_inj (n m : nat) : genId E0 n = genId E0 m -> n = m.
Proof. simpl. intros [= H]. by apply primes_inj. Qed.

(** C4 (as amended).  With the writes succeeding, importing a bundle with
    [mergeQuestions] a second time leaves the questions as the first import
    left them, whatever the writes of the second import do; the first import
    adds, behind the stored questions, the records of the bundle whose id
    is not the id of a stored question, each with the time of the import and,
    when it came without an id, with an id of the generator; and the ids are
    pairwise distinct afterwards when those of the store and those the
    records of the bundle came with were, and either every record came with
    an id or the generator gives each id once and none that is in the store
    or in the bundle. *)
Theorem importData_merge_idempotent (E : Env) (data : Bundle)
    (o : ImportOptions) (w : World) (fs : list WriteOutcome) :
  fates w = [] -> mergeQuestions o = true ->
  let dq := default [] (b_questions data) in
  let r1 := importData E data o w in
  let data1 := snd (fst r1) in
  let w1 := snd r1 in
  let w2 := snd (importData E data1 o (with_fates fs w1)) in
  questions (store w2) = questions (store w1)
  /\ (exists added,
        questions (store w1) = questions (store w) ++ added
        /\ Forall2 (stamped E)
             (filter (fun q => q_id q ∉ (q_id <$> questions (store w))) dq)
             added)
  /\ (NoDup (q_id <$> questions (store w)) ->
      NoDup (q_id <$> filter (fun q => truthy (q_id q) = true) dq) ->
      Forall (fun q => truthy (q_id q) = true) dq
      \/ ((forall n m, genId E n = genId E m -> n = m)
          /\ (forall n q, q ∈ questions (store w) ++ dq ->
                          q_id q <> Some (genId E n))) ->
      NoDup (q_id <$> questions (store w1))).
Proof.
  intros Hf Hm dq r1 data1 w1 w2.
  destruct (importData_questions E data o w) as [Hw1 Hd1].
  fold r1 in Hw1, Hd1. fold w1 in Hw1. fold data1 in Hd1.
  set (isNew := fun q : Question => q_id q ∉ (q_id <$> questions (store w))).
  destruct (b_questions data) as [dq0|] eqn:Hq.
  - destruct (importQuestions_merge E data o 0 w dq0 Hf Hm Hq) as [Hs Hb].
    fold isNew in Hs, Hb.
    set (added := fst (forEach (stampQuestion E) (filter isNew dq0) w)) in *.
    pose proof (forEach_stamped E (filter isNew dq0) w) as Hst.
    fold added in Hst.
    rewrite Hs in Hw1. rewrite Hb in Hd1.
    split; [|split].
    + unfold w2.
      rewrite (proj1 (importData_questions E data1 o (with_fates fs w1))).
      apply (importQuestions_nothing_new E data1 o 0 (with_fates fs w1) Hm).
      intros dq' q Hdq' Hin. rewrite Hd1 in Hdq'. injection Hdq' as <-.
      change (store (with_fates fs w1)) with (store w1).
      rewrite Hw1, fmap_app, elem_of_app.
      apply write_back_elem in Hin as [[Hin Hnew]|Hin].
      * left. unfold isNew in Hnew.
        by destruct (decide (q_id q ∈ q_id <$> questions (store w))).
      * right. by apply list_elem_of_fmap_2.
      * symmetry. by apply (Forall2_length _ _ _ Hst).
    + exists added. split; [exact Hw1|exact Hst].
    + intros Hnd Hndq Hgen. rewrite Hw1, fmap_app.
      assert (Hsub : filter (fun q => truthy (q_id q) = true) (filter isNew dq0)
                     `sublist_of` filter (fun q => truthy (q_id q) = true) dq0).
      { clear. induction dq0 as [|q dq0 IH]; [done|].
        rewrite (filter_cons isNew).
        destruct (decide (isNew q)); rewrite !filter_cons;
          destruct (decide (truthy (q_id q) = true));
          try (by constructor); exact IH. }
      destruct Hgen as [Hall|[Hinj Hfresh]].
      * assert (Hids : q_id <$> added = q_id <$> filter isNew dq0).
        { apply (stamped_ids E); [exact Hst|].
          apply Forall_forall. intros q [_ Hin]%list_elem_of_filter.
          revert q Hin. by apply Forall_forall. }
        rewrite Hids. apply NoDup_app. split; [exact Hnd|]. split.
        -- intros i Hi (q & -> & [Hnew _]%list_elem_of_filter)%list_elem_of_fmap.
           by apply Hnew.
        -- eapply sublist_NoDup; [|apply fmap_sublist, sublist_filter].
           replace dq0 with (filter (fun q => truthy (q_id q) = true) dq0) at 1;
             [exact Hndq|].
           change dq with dq0 in Hall. clear -Hall.
           induction Hall as [|q l Hq Hl IH]; [done|].
           rewrite filter_cons, decide_True by done. by f_equal.
      * destruct (forEach_stamped_NoDup E (filter isNew dq0) Hinj) with (w := w)
          as [Hnda Hin].
        { intros n q [_ Hin]%list_elem_of_filter. apply Hfresh.
          apply elem_of_app. by right. }
        { eapply sublist_NoDup; [exact Hndq|]. by apply fmap_sublist. }
        fold added in Hnda, Hin.
        apply NoDup_app. split; [exact Hnd|]. split; [|exact Hnda].
        intros i Hi [(q & [Hnew _]%list_elem_of_filter & _ & ->)
                    |(n & _ & ->)]%Hin.
        -- by apply Hnew.
        -- apply list_elem_of_fmap in Hi as (q & Heq & Hq').
           apply (Hfresh n q); [apply elem_of_app; by left|done].
  - assert (Hs : questions (store w1) = questions (store w)).
    { rewrite Hw1. unfold importQuestions. by rewrite Hq. }
    assert (Hb : b_questions data1 = None).
    { rewrite Hd1. unfold importQuestions. by rewrite Hq. }
    split; [|split].
    + unfold w2.
      rewrite (proj1 (importData_questions E data1 o (with_fates fs w1))).
      unfold importQuestions. by rewrite Hb.
    + exists []. rewrite app_nil_r. split; [exact Hs|]. simpl. constructor.
    + intros Hnd _ _. by rewrite Hs.
Qed.


(** C4 at a bundle of two questions, one of them without id, imported into
    the empty store: the second import adds nothing, and the two ids, the
    one the first record came with and the one generated for the second, are
    distinct. *)
Lemma importData_merge_idempotent_witness :
  fates w0 = [] /\ mergeQuestions defaultOptions = true
  /\ let data :=
       bundle [question (Some "a") "first"; question None "second"] [] in
     let dq := default [] (b_questions data) in
     let r1 := importData E0 data defaultOptions w0 in
     let data1 := snd (fst r1) in
     let w1 := snd r1 in
     let w2 := snd (importData E0 data1 defaultOptions (with_fates [] w1)) in
     questions (store w2) = questions (store w1)
     /\ (exists added,
           questions (store w1) = questions (store w0) ++ added
           /\ Forall2 (stamped E0)
                (filter (fun q => q_id q ∉ (q_id <$> questions (store w0))) dq)
                added)
     /\ NoDup (q_id <$> questions (store w1)).
Proof.
  split; [reflexivity|]. split; [reflexivity|].
  destruct (importData_merge_idempotent E0
              (bundle [question (Some "a") "first"; question None "second"] [])
              defaultOptions w0 [] eq_refl eq_refl) as (H1 & H2 & H3).
  split; [exact H1|]. split; [exact H2|]. apply H3.
  - constructor.
  - apply (bool_decide_unpack _). vm_compute. exact I.
  - right. split; [exact genId_E0_inj|].
    intros n q Hq. apply elem_of_app in Hq as [Hq|Hq];
      [by apply elem_of_nil in Hq|].
    simpl in Hq. apply elem_of_cons in Hq as [->|Hq];
      [simpl; discriminate|].
    apply elem_of_cons in Hq as [->|Hq]; [simpl; discriminate|].
    by apply elem_of_nil in Hq.
Defined.

(** The idempotence is one of the bundle object: the first import writes
    the ids it generates into the records of the bundle.  A second copy of
    the same bundle, whose record without id is without id again, has that
    record added a second time. *)
Example importData_fresh_copy_adds_again :
  let data := bundle [question None "no id"] [] in
  let w1 := snd (importData E0 data defaultOptions w0) in
  let w2 := snd (importData E0 data defaultOptions w1) in
  length (questions (store w1)) = 1%nat
  /\ length (questions (store w2)) = 2%nat
  /\ (q_id <$> questions (store w2)) = [Some "g"; Some "g''''"].
Proof. vm_compute. repeat split. Qed.

(** C4 (counterexample).  Two records of a bundle with the same id, which
    no stored question has, are both added: the id is there twice. *)
Lemma importData_duplicate_ids_counterexample :
  let data :=
    bundle [question (Some "a") "first"; question (Some "a") "second"] [] in
  let w1 := snd (importData E0 data defaultOptions w0) in
  q_id <$> questions (store w1) = [Some "a"; Some "a"]
  /\ ~ NoDup (q_id <$> questions (store w1)).
Proof.
  assert (H : q_id <$> questions (store (snd (importData E0
                (bundle [question (Some "a") "first";
                         question (Some "a") "second"] [])
                defaultOptions w0))) = [Some "a"; Some "a"])
    by (vm_compute; reflexivity).
  cbv zeta. rewrite H. split; [reflexivity|].
  intros Hnd. apply NoDup_cons in Hnd as [Hnot _]. apply Hnot. left.
Qed.

End StorageFacts.

(* ===================================================================== *)
(** ** Properties of the text import parser                               *)
(* ===================================================================== *)

Module CreatorFacts.
Import Creator Sample.

(** The letter taken from an answer line is the first letter of the line,
    the A of Answer or the R of Resposta, whatever follows the colon. *)
Lemma answerLetter_of_answer_line (line : jsstring) :
  isAnswerLine line = true ->
  answerLetter line = Some 65 \/ answerLetter line = Some 82.
Proof.
  unfold isAnswerLine, answerLetter. intros H.
  change (js "answer:") with (97 :: js "nswer:") in H.
  change (js "resposta:") with (114 :: js "esposta:") in H.
  destruct line as [|c line]; [discriminate H|].
  unfold toLowerCase in H. rewrite fmap_cons in H. cbn [startsWith] in H.
  assert (Hc : lower_unit c = 97 \/ lower_unit c = 114).
  { apply orb_true_iff in H as [H|H];
      apply andb_true_iff in H as [Hc _]; apply Z.eqb_eq in Hc; lia. }
  assert (Hcc : (c = 65 \/ c = 97) \/ (c = 82 \/ c = 114)).
  { revert Hc. unfold lower_unit.
    destruct ((65 <=? c) && (c <=? 90)
              || (192 <=? c) && (c <=? 222) && negb (c =? 215)); lia. }
  destruct Hcc as [[-> | ->] | [-> | ->]]; [left|left|right|right];
    reflexivity.
Qed.

Lemma loopBody_answerLine (lines : list jsstring) :
  forall st,
    (ls_answerLine st = [] \/ isAnswerLine (ls_answerLine st) = true) ->
    let st' := fold_left loopBody lines st in
    ls_answerLine st' = [] \/ isAnswerLine (ls_answerLine st') = true.
Proof.
  induction lines as [|line lines IH]; intros st Hst; [exact Hst|].
  simpl. apply IH. unfold loopBody.
  destruct (isOptionLine line); [exact Hst|].
  destruct (isAnswerLine line) eqn:Ha; [by right|].
  destruct (isExplanationLine line); exact Hst.
Qed.

(** Every question the parser returns has the first option or the
    eighteenth as its correct one. *)
Lemma parseSingleQuestionFromText_correct (block : jsstring)
    (q : TextQuestion) :
  parseSingleQuestionFromText block = Some q ->
  correct q = 0 \/ correct q = 17.
Proof.
  unfold parseSingleQuestionFromText.
  set (lines := List.filter _ _).
  destruct (length lines <? 3)%nat; [discriminate|].
  destruct lines as [|questionText rest]; [discriminate|].
  pose proof (loopBody_answerLine rest (mkLoopState [] [] []) (or_introl eq_refl))
    as Hinv. cbv zeta in Hinv.
  set (st := fold_left loopBody rest _) in *.
  destruct ((length (ls_options st) <? 2)%nat || isEmpty (ls_answerLine st))
    eqn:Hguard; [discriminate|].
  apply orb_false_iff in Hguard as [_ Hne].
  destruct Hinv as [Hnil|Hans]; [rewrite Hnil in Hne; discriminate Hne|].
  destruct (answerLetter_of_answer_line _ Hans) as [-> | ->];
    match goal with |- context [if ?b then _ else _] => destruct b end;
    try discriminate; intros [= <-]; simpl; auto.
Qed.

(** A block yields a question only with at least two options and a correct
    index that is the index of one of them. *)
Lemma parseSingleQuestionFromText_valid (block : jsstring) (q : TextQuestion) :
  parseSingleQuestionFromText block = Some q ->
  (2 <= length (options q))%nat
  /\ 0 <= correct q < Z.of_nat (length (options q)).
Proof.
  unfold parseSingleQuestionFromText.
  set (lines := List.filter _ _).
  destruct (length lines <? 3)%nat; [discriminate|].
  destruct lines as [|questionText rest]; [discriminate|].
  set (st := fold_left loopBody rest _).
  destruct ((length (ls_options st) <? 2)%nat || isEmpty (ls_answerLine st))
    eqn:Hguard; [discriminate|].
  apply orb_false_iff in Hguard as [Hopts _]. apply Nat.ltb_ge in Hopts.
  set (correctIndex := match answerLetter _ with Some l => l - 65 | None => -1 end).
  destruct ((correctIndex <? 0)
            || (Z.of_nat (length (ls_options st)) <=? correctIndex))
    eqn:Hrange; [discriminate|].
  apply orb_false_iff in Hrange as [Hlo Hhi].
  apply Z.ltb_ge in Hlo. apply Z.leb_gt in Hhi.
  intros [= <-]. cbn [options correct]. lia.
Qed.

(** C6 (the code at the failing input).  On the text of the specification
    the parser returns no question at all: the answer letter is the R of
    "Resposta", index 17, and the block has three options.  With "Answer: C"
    in place of "Resposta: C" the block yields a question whose correct
    option is 0, not 2. *)
Theorem parse_spec_example_yields_nothing (E : Storage.Env) (tick : nat) :
  let example :=
    js "Capital of Brazil?" ++ [LF] ++ js "A) SP" ++ [LF] ++ js "B) RJ"
    ++ [LF] ++ js "C) Brasilia" ++ [LF] ++ js "Resposta: C" ++ [LF]
    ++ js "Explicação: test" in
  let example' :=
    js "Capital of Brazil?" ++ [LF] ++ js "A) SP" ++ [LF] ++ js "B) RJ"
    ++ [LF] ++ js "C) Brasilia" ++ [LF] ++ js "Answer: C" ++ [LF]
    ++ js "Explicação: test" in
  parseMultipleQuestionsFromText E example tick = []
  /\ parseSingleQuestionFromText example = None
  /\ answerLetter (js "Resposta: C") = Some 82
  /\ parseSingleQuestionFromText example'
     = Some (mkTextQuestion (js "Capital of Brazil?") (js "multiple")
               [js "A) SP"; js "B) RJ"; js "C) Brasilia"] 0 (js "test")).
Proof.
  cbv zeta. unfold parseMultipleQuestionsFromText.
  split; [|split; [|split]]; vm_compute; reflexivity.
Qed.

End CreatorFacts.

(* ===================================================================== *)
(** ** Properties of the service worker                                   *)
(* ===================================================================== *)

Module WorkerFacts.
Import Worker.

(** *** Caches *)

Lemma cache_match_set (u : string) (r : Response) (c : Cache) :
  cache_match u (cache_set u r c) = Some r.
Proof.
  induction c as [|[k r'] c IH]; simpl.
  - by rewrite String.eqb_refl.
  - destruct (String.eqb k u) eqn:Hk; simpl; rewrite Hk; [done|exact IH].
Qed.

(** A [put] the platform accepts leaves the response under the URL of the
    request. *)
Lemma cache_match_put (request : Request) (r : Response) (c : Cache) :
  put_rejects request r = false ->
  cache_match (url request) (cache_put request r c) = Some r.
Proof. intros Hp. unfold cache_put. rewrite Hp. apply cache_match_set. Qed.

(** A [put] the platform rejects leaves the cache as it is. *)
Lemma cache_put_rejected (request : Request) (r : Response) (c : Cache) :
  put_rejects request r = true -> cache_put request r c = c.
Proof. intros Hp. unfold cache_put. by rewrite Hp. Qed.

Lemma cache_named_open_put (name : string) (request : Request) (r : Response)
    (cs : CacheStorage) :
  put_rejects request r = false ->
  cache_match (url request) (cache_named name (open_put name request r cs))
  = Some r.
Proof.
  intros Hp. unfold cache_named. induction cs as [|[n c] cs IH]; simpl.
  - rewrite String.eqb_refl. simpl. by apply cache_match_put.
  - destruct (String.eqb n name) eqn:Hn; simpl; rewrite Hn.
    + simpl. by apply cache_match_put.
    + exact IH.
Qed.

Lemma caches_match_open_put (name : string) (request : Request) (r : Response)
    (cs : CacheStorage) :
  put_rejects request r = false ->
  exists cached,
    caches_match (url request) (open_put name request r cs) = Some cached.
Proof.
  intros Hp. induction cs as [|[n c] cs IH]; simpl.
  - rewrite cache_match_put by done. eauto.
  - destruct (String.eqb n name); simpl.
    + rewrite cache_match_put by done. eauto.
    + destruct (cache_match (url request) c); eauto.
Qed.

(** With a [put] the platform rejects, the caches answer every request as
    before: the one change is that the cache opened is there, empty, when it
    was not. *)
Lemma caches_match_open_put_rejected (name : string) (request : Request)
    (r : Response) (cs : CacheStorage) (u : string) :
  put_rejects request r = true ->
  caches_match u (open_put name request r cs) = caches_match u cs
  /\ cache_named name (open_put name request r cs) = cache_named name cs.
Proof.
  intros Hp. unfold cache_named. induction cs as [|[n c] cs [IH1 IH2]]; simpl.
  - rewrite cache_put_rejected by done. by rewrite String.eqb_refl.
  - destruct (String.eqb n name) eqn:Hn; simpl; rewrite ?Hn; simpl.
    + by rewrite cache_put_rejected.
    + rewrite IH1. done.
Qed.

(** *** The fetch event *)

(** C8 (as amended).  A request the fetch listener hands to [networkFirst]
    is answered with the response of the network when the fetch succeeds.  A
    copy of it is then in the dynamic cache when its status is 2xx and the
    cache accepts the [put] (so that the same request finds a cached copy
    when the network fails later); when the status is not 2xx or the [put]
    is rejected, the caches answer as before.  When the fetch fails the
    request is answered with the cached copy if there is one, and with the
    synthesized 503 response only if there is none. *)
Theorem networkFirst_for_dynamic_requests (root : string) (request : Request)
    (net : Network) (cs : CacheStorage) :
  fetchListener request = NetworkFirst ->
  match net with
  | Some networkResponse =>
      let cs' :=
        if ok networkResponse
        then open_put DYNAMIC_CACHE_NAME request networkResponse cs
        else cs in
      onFetch root request net cs = (Fulfilled (Some networkResponse), cs')
      /\ (ok networkResponse = true ->
          put_rejects request networkResponse = false ->
          cache_match (url request) (cache_named DYNAMIC_CACHE_NAME cs')
          = Some networkResponse
          /\ exists cached,
               caches_match (url request) cs' = Some cached
               /\ onFetch root request None cs' = (Fulfilled (Some cached), cs'))
      /\ (ok networkResponse = false
          \/ put_rejects request networkResponse = true ->
          forall u, caches_match u cs' = caches_match u cs)
  | None =>
      match caches_match (url request) cs with
      | Some cachedResponse =>
          onFetch root request net cs = (Fulfilled (Some cachedResponse), cs)
      | None =>
          onFetch root request net cs
          = (Fulfilled (Some (offline "Offline - Resource not available")), cs)
          /\ status (offline "Offline - Resource not available") = 503
      end
  end.
Proof.
  intros Hd. unfold onFetch. rewrite Hd. unfold networkFirst.
  destruct net as [networkResponse|].
  - split; [reflexivity|]. split.
    + intros Hok Hp. rewrite Hok. split; [by apply cache_named_open_put|].
      destruct (caches_match_open_put DYNAMIC_CACHE_NAME request
                  networkResponse cs Hp) as [cached Hc].
      exists cached. rewrite Hc. split; reflexivity.
    + intros [Hok|Hp] u; [by rewrite Hok|].
      destruct (ok networkResponse); [|done].
      by apply caches_match_open_put_rejected.
  - destruct (caches_match (url request) cs); [reflexivity|].
    split; reflexivity.
Qed.

(** C8 at a request for [/api/questions] that the network answers with a
    response of status 200 while nothing is cached: the response is returned,
    a copy is in the dynamic cache, and the request is answered from the
    caches when the network fails afterwards. *)
Lemma networkFirst_for_dynamic_requests_witness :
  let request :=
    mkRequest "GET" "https://quiz.example/api/questions" "https:"
      "/api/questions" "cors" in
  let fresh := mkResponse 200 "OK" "[1,2,3]" [] in
  let cs' := open_put DYNAMIC_CACHE_NAME request fresh [] in
  fetchListener request = NetworkFirst
  /\ ok fresh = true /\ put_rejects request fresh = false
  /\ onFetch "https://quiz.example/" request (Some fresh) []
     = (Fulfilled (Some fresh), cs')
  /\ cache_match (url request) (cache_named DYNAMIC_CACHE_NAME cs') = Some fresh
  /\ exists cached,
       caches_match (url request) cs' = Some cached
       /\ onFetch "https://quiz.example/" request None cs'
          = (Fulfilled (Some cached), cs').
Proof.
  split; [reflexivity|]. split; [reflexivity|]. split; [reflexivity|].
  destruct (networkFirst_for_dynamic_requests "https://quiz.example/"
              (mkRequest "GET" "https://quiz.example/api/questions" "https:"
                 "/api/questions" "cors")
              (Some (mkResponse 200 "OK" "[1,2,3]" [])) [] eq_refl)
    as (H1 & H2 & _).
  split; [exact H1|]. exact (H2 eq_refl eq_refl).
Defined.

(** A cached copy answers the request while the network is down. *)
Example networkFirst_offline :
  let request :=
    mkRequest "GET" "https://quiz.example/api/questions" "https:"
      "/api/questions" "cors" in
  let cached := mkResponse 200 "OK" "[1,2,3]" [] in
  let cs := [(STATIC_CACHE_NAME, []);
             (DYNAMIC_CACHE_NAME, [("https://quiz.example/api/questions", cached)])] in
  onFetch "https://quiz.example/" request None cs = (Fulfilled (Some cached), cs).
Proof. vm_compute. reflexivity. Qed.

(** C8 (counterexample).  The network answers a request for
    [/api/questions] with a partial response, of status 206: the status is
    2xx and the response is returned, but the cache rejects the [put], no
    copy is stored, and the same request gets the 503 response when the
    network fails afterwards. *)
Lemma networkFirst_partial_response_counterexample :
  let request :=
    mkRequest "GET" "https://quiz.example/api/questions" "https:"
      "/api/questions" "cors" in
  let partial := mkResponse 206 "Partial Content" "[1,2" [] in
  let r := onFetch "https://quiz.example/" request (Some partial) [] in
  fetchListener request = NetworkFirst
  /\ ok partial = true
  /\ fst r = Fulfilled (Some partial)
  /\ cache_match (url request) (cache_named DYNAMIC_CACHE_NAME (snd r)) = None
  /\ onFetch "https://quiz.example/" request None (snd r)
     = (Fulfilled (Some (offline "Offline - Resource not available")), snd r)
  /\ ~ (ok partial = true ->
        cache_match (url request) (cache_named DYNAMIC_CACHE_NAME (snd r))
        = Some partial).
Proof.
  vm_compute. repeat split. intros H. by specialize (H eq_refl).
Qed.

(** *** The activate event *)

Lemma fold_deleteIfOld_nil (names : list string) :
  fold_left deleteIfOld names [] = [].
Proof.
  induction names as [|n names IH]; [done|]. simpl.
  unfold deleteIfOld at 2. by destruct (isOldCache n).
Qed.

Lemma fold_deleteIfOld_cons (names : list string) :
  forall e cs,
    fold_left deleteIfOld names (e :: cs) =
      (if existsb (fun n => isOldCache n && String.eqb (fst e) n) names
       then [] else [e])
      ++ fold_left deleteIfOld names cs.
Proof.
  induction names as [|n names IH]; intros e cs; [done|].
  cbn [fold_left existsb]. unfold deleteIfOld at 2 4.
  destruct (isOldCache n); cbn [andb orb]; [|apply IH].
  unfold caches_delete. cbn [List.filter].
  destruct (String.eqb _ n); cbn [negb orb]; [done|apply IH].
Qed.

Lemma fold_deleteIfOld_filter (names : list string) (cs : CacheStorage) :
  fold_left deleteIfOld names cs =
    List.filter
      (fun e =>
         negb (existsb (fun n => isOldCache n && String.eqb (fst e) n) names))
      cs.
Proof.
  induction cs as [|e cs IH]; [apply fold_deleteIfOld_nil|].
  rewrite fold_deleteIfOld_cons, IH. cbn [List.filter].
  by destruct (existsb _ names).
Qed.

Lemma activate_filter (cs : CacheStorage) :
  activate cs = List.filter (fun e => negb (isOldCache (fst e))) cs.
Proof.
  unfold activate.
  rewrite fold_deleteIfOld_filter. apply List.filter_ext_in.
  intros e He. f_equal.
  destruct (isOldCache (fst e)) eqn:Hold.
  - apply existsb_exists. exists (fst e). split.
    + apply in_map_iff. by exists e.
    + by rewrite Hold, String.eqb_refl.
  - apply not_true_is_false. intros (n & _ & Hn)%existsb_exists.
    apply andb_true_iff in Hn as [Hn Heq%String.eqb_eq]. congruence.
Qed.

(** C9 (as amended).  Activation deletes the caches whose name starts with
    'quiz-pro-' and is neither the static nor the dynamic name of the
    current version; every other cache stays, with its entries: the names
    left are the current two and those that do not start with
    'quiz-pro-'. *)
Theorem activate_deletes_old_quiz_pro_caches (cs : CacheStorage) :
  activate cs = List.filter (fun e => negb (isOldCache (fst e))) cs
  /\ forall name,
       name ∈ keys (activate cs) <->
       name ∈ keys cs
       /\ (name = STATIC_CACHE_NAME \/ name = DYNAMIC_CACHE_NAME
           \/ startsWith name "quiz-pro-" = false).
Proof.
  split; [apply activate_filter|]. intros name.
  rewrite activate_filter. unfold keys.
  rewrite !list_elem_of_fmap.
  assert (Hold : forall n,
             negb (isOldCache n) = true <->
             n = STATIC_CACHE_NAME \/ n = DYNAMIC_CACHE_NAME
             \/ startsWith n "quiz-pro-" = false).
  { intros n. unfold isOldCache.
    destruct (String.eqb_spec n STATIC_CACHE_NAME) as [->|Hs]; [by intuition|].
    destruct (String.eqb_spec n DYNAMIC_CACHE_NAME) as [->|Hd]; [by intuition|].
    destruct (startsWith n "quiz-pro-"); simpl; intuition congruence. }
  split.
  - intros (e & -> & He). apply list_elem_of_In, filter_In in He as [He Hk].
    split; [exists e; split; [done|by apply list_elem_of_In]|by apply Hold].
  - intros [(e & -> & He) Hk]. exists e. split; [done|].
    apply list_elem_of_In, filter_In. split; [by apply list_elem_of_In|].
    by apply Hold.
Qed.

(** C9 (counterexample).  A cache of another name, not one of the two of
    the current version, is still there after activation. *)
Lemma activate_keeps_foreign_cache_counterexample :
  let cs := [("other-app-v1", [("https://quiz.example/x", mkResponse 200 "OK" "x" [])]);
             ("quiz-pro-static-v0.9.0", [])] in
  "other-app-v1" <> STATIC_CACHE_NAME
  /\ "other-app-v1" <> DYNAMIC_CACHE_NAME
  /\ keys (activate cs) = ["other-app-v1"]
  /\ ~ (forall name,
          name ∈ keys cs -> name <> STATIC_CACHE_NAME ->
          name <> DYNAMIC_CACHE_NAME -> name ∉ keys (activate cs)).
Proof.
  cbv zeta.
  split; [discriminate|]. split; [discriminate|]. split; [reflexivity|].
  intros H. apply (H "other-app-v1"); [left|discriminate|discriminate|].
  change (keys (activate _)) with ["other-app-v1"]. left.
Qed.

End WorkerFacts.

(* ===================================================================== *)
(** ** Saving, finding and deleting questions and collections             *)
(* ===================================================================== *)

Module RepositoryFacts.
Import Storage Spec Sample StorageFacts.

(** *** Lists *)

Lemma Returned_eq {A} (a b : A) : Returned a = Returned b <-> a = b.
Proof. split; [by intros [= ->]|by intros ->]. Qed.

Lemma find_insert_first {A} (P : A -> Prop) `{!forall x, Decision (P x)}
    (l : list A) (i : nat) (x y : A) :
  list_find P l = Some (i, x) -> P y ->
  list_find P (<[i:=y]> l) = Some (i, y).
Proof.
  intros (Hi & _ & Hleast)%list_find_Some Hy. apply list_find_insert_Some.
  right; left. split_and!; eauto using lookup_lt_Some.
Qed.

Lemma find_insert_other {A} (P Q : A -> Prop) `{!forall x, Decision (P x)}
    `{!forall x, Decision (Q x)} (l : list A) (i : nat) (x y : A) :
  l !! i = Some x -> ~ Q x -> ~ Q y ->
  snd <$> list_find Q (<[i:=y]> l) = snd <$> list_find Q l.
Proof.
  revert i. induction l as [|a l IH]; intros i Hi Hx Hy; [done|].
  destruct i as [|i]; simpl in *.
  - injection Hi as ->. rewrite !decide_False by done. done.
  - destruct (decide (Q a)); [done|].
    specialize (IH i Hi Hx Hy).
    destruct (list_find Q (<[i:=y]> l)) as [[]|], (list_find Q l) as [[]|];
      simpl in *; congruence.
Qed.

Lemma find_app_other {A} (Q : A -> Prop) `{!forall x, Decision (Q x)}
    (l : list A) (y : A) :
  ~ Q y -> snd <$> list_find Q (l ++ [y]) = snd <$> list_find Q l.
Proof.
  intros Hy. induction l as [|a l IH]; simpl.
  - by rewrite decide_False.
  - destruct (decide (Q a)); [done|].
    destruct (list_find Q (l ++ [y])) as [[]|], (list_find Q l) as [[]|];
      simpl in *; congruence.
Qed.

Lemma find_filter_other {A} (P Q : A -> Prop) `{!forall x, Decision (P x)}
    `{!forall x, Decision (Q x)} (l : list A) :
  (forall x, Q x -> P x) ->
  snd <$> list_find Q (filter P l) = snd <$> list_find Q l.
Proof.
  intros HQP. induction l as [|a l IH]; [done|].
  rewrite filter_cons. simpl. destruct (decide (P a)) as [Ha|Ha]; simpl.
  - destruct (decide (Q a)); [done|].
    destruct (list_find Q (filter P l)) as [[]|], (list_find Q l) as [[]|];
      simpl in *; congruence.
  - rewrite decide_False by (intros Hq; apply Ha, HQP, Hq).
    destruct (list_find Q (filter P l)) as [[]|], (list_find Q l) as [[]|];
      simpl in *; congruence.
Qed.

Lemma filter_length_lt {A} (P : A -> Prop) `{!forall x, Decision (P x)}
    (l : list A) :
  (length (filter P l) <? length l)%nat = true <-> exists x, x ∈ l /\ ~ P x.
Proof.
  rewrite Nat.ltb_lt. induction l as [|a l IH].
  - simpl. split; [lia|]. intros (x & Hx & _). by apply elem_of_nil in Hx.
  - rewrite filter_cons. pose proof (length_filter P l) as Hle.
    destruct (decide (P a)) as [Ha|Ha]; simpl.
    + rewrite <- Nat.succ_lt_mono, IH. split.
      * intros (x & Hx & Hn). exists x. split; [by right|done].
      * intros (x & [->|Hx]%elem_of_cons & Hn); [done|eauto].
    + split; [|lia]. intros _. exists a. split; [left|done].
Qed.

(** X1.  A question saved under an id is found under that id: as the
    stored version with [updatedAt] set when a question of that id was
    stored before, with [createdAt] set otherwise. *)
Theorem saveQuestion_getQuestionById (E : Env) (q : Question) (w : World) :
  fates w = [] -> truthy (q_id q) = true ->
  let r := saveQuestion E q w in
  let t := clock E (tick w) in
  fst r = Returned (q_id q)
  /\ getQuestionById (q_id q) (snd r)
     = Some (if bool_decide (q_id q ∈ q_id <$> questions (store w))
             then q_set_updatedAt t q else q_set_createdAt t q).
Proof.
  intros Hf Ht r t. subst r t. unfold saveQuestion. rewrite Ht.
  unfold now, getAllQuestions, findIndex. cbn [next_tick tick store fates].
  destruct (list_find (fun q0 => q_id q0 = q_id q) (questions (store w)))
    as [[i x]|] eqn:Hfind; cbn [fmap option_fmap option_map fst];
    rewrite setItem_succeeds by exact Hf; cbn [fst snd];
    (split; [reflexivity|]); unfold getQuestionById, find, getAllQuestions;
    cbn [store with_store next_tick commit questions].
  - rewrite (find_insert_first _ _ _ _ (q_set_updatedAt _ q) Hfind eq_refl).
    rewrite bool_decide_true; [reflexivity|].
    apply list_find_Some in Hfind as (Hi & Hx & _).
    apply list_elem_of_fmap. exists x. split; [done|].
    by eapply list_elem_of_lookup_2.
  - rewrite list_find_app_r by exact Hfind. simpl.
    rewrite decide_True by reflexivity. simpl.
    rewrite bool_decide_false; [reflexivity|].
    intros (x & Hx & Hin)%list_elem_of_fmap.
    apply list_find_None in Hfind. rewrite Forall_forall in Hfind.
    by apply (Hfind x).
Qed.

Lemma saveQuestion_getQuestionById_witness :
  fates w0 = [] /\ truthy (Some "q1") = true
  /\ let q := question (Some "q1") "Capital of Brazil?" in
     let r := saveQuestion E0 q w0 in
     let t := clock E0 (tick w0) in
     fst r = Returned (q_id q)
     /\ getQuestionById (q_id q) (snd r)
        = Some (if bool_decide (q_id q ∈ q_id <$> questions (store w0))
                then q_set_updatedAt t q else q_set_createdAt t q).
Proof.
  split; [reflexivity|]. split; [reflexivity|].
  apply (saveQuestion_getQuestionById E0
           (question (Some "q1") "Capital of Brazil?") w0); reflexivity.
Defined.


(** X2.  A question saved without id gets the id the generator gives, is
    appended with [createdAt] set, and is found under the id returned,
    provided no stored question has that id already. *)
Theorem saveQuestion_new_id (E : Env) (q : Question) (w : World) :
  fates w = [] -> truthy (q_id q) = false ->
  Some (genId E (tick w)) ∉ (q_id <$> questions (store w)) ->
  let r := saveQuestion E q w in
  let q' := q_set_createdAt (clock E (S (tick w)))
              (q_set_id (Some (genId E (tick w))) q) in
  fst r = Returned (Some (genId E (tick w)))
  /\ questions (store (snd r)) = questions (store w) ++ [q']
  /\ getQuestionById (Some (genId E (tick w))) (snd r) = Some q'.
Proof.
  intros Hf Ht Hfresh r q'. subst r q'. unfold saveQuestion. rewrite Ht.
  unfold generateId, now, getAllQuestions. cbn [next_tick tick store fates].
  rewrite setItem_succeeds by exact Hf. cbn [fst snd].
  split; [reflexivity|]. split; [reflexivity|].
  unfold getQuestionById, find, getAllQuestions.
  cbn [store with_store next_tick commit questions].
  rewrite list_find_app_r.
  - simpl. rewrite decide_True by reflexivity. reflexivity.
  - apply list_find_None, Forall_forall. intros x Hx Heq. apply Hfresh.
    apply list_elem_of_fmap. exists x. split; [by rewrite Heq|done].
Qed.

(** The generated id at work on the empty store. *)
Lemma saveQuestion_new_id_witness :
  fates w0 = [] /\ truthy None = false
  /\ (Some (genId E0 (tick w0)) ∉ (q_id <$> questions (store w0)))
  /\ let q := question None "Capital of Brazil?" in
     let r := saveQuestion E0 q w0 in
     let q' := q_set_createdAt (clock E0 (S (tick w0)))
                 (q_set_id (Some (genId E0 (tick w0))) q) in
     fst r = Returned (Some (genId E0 (tick w0)))
     /\ questions (store (snd r)) = questions (store w0) ++ [q']
     /\ getQuestionById (Some (genId E0 (tick w0))) (snd r) = Some q'.
Proof.
  assert (H : Some (genId E0 (tick w0)) ∉ (q_id <$> questions (store w0)))
    by (simpl; apply not_elem_of_nil).
  split; [reflexivity|]. split; [reflexivity|]. split; [exact H|].
  apply (saveQuestion_new_id E0 (question None "Capital of Brazil?") w0);
    [reflexivity|reflexivity|exact H].
Defined.

(** X3.  Saving a question under an id changes no question of another id:
    each is found as before, and the number of stored questions grows by one
    exactly when the id is new. *)
Theorem saveQuestion_other_questions (E : Env) (q : Question) (w : World)
    (j : option string) :
  fates w = [] -> truthy (q_id q) = true -> j <> q_id q ->
  let w' := snd (saveQuestion E q w) in
  getQuestionById j w' = getQuestionById j w
  /\ length (questions (store w'))
     = (length (questions (store w))
        + (if bool_decide (q_id q ∈ q_id <$> questions (store w)) then 0 else 1))%nat.
Proof.
  intros Hf Ht Hj w'. subst w'. unfold saveQuestion. rewrite Ht.
  unfold now, getAllQuestions, findIndex. cbn [next_tick tick store fates].
  destruct (list_find (fun q0 => q_id q0 = q_id q) (questions (store w)))
    as [[i x]|] eqn:Hfind; cbn [fmap option_fmap option_map fst];
    rewrite setItem_succeeds by exact Hf; cbn [fst snd];
    unfold getQuestionById, find, getAllQuestions;
    cbn [store with_store next_tick commit questions].
  - pose proof Hfind as (Hi & Hx & _)%list_find_Some. split.
    + apply (find_insert_other (fun q0 => q_id q0 = q_id q) _ _ i x);
        [exact Hi|congruence|simpl; congruence].
    + rewrite length_insert, bool_decide_true; [lia|].
      apply list_elem_of_fmap. exists x. split; [done|].
      by eapply list_elem_of_lookup_2.
  - split.
    + apply find_app_other. simpl. congruence.
    + rewrite length_app, bool_decide_false; [reflexivity|].
      intros (x & Hx & Hin)%list_elem_of_fmap.
      apply list_find_None in Hfind. rewrite Forall_forall in Hfind.
      by apply (Hfind x).
Qed.

(** A second question saved next to a first one. *)
Lemma saveQuestion_other_questions_witness :
  let w := snd (saveQuestion E0 (question (Some "q1") "Capital of Brazil?") w0) in
  let q := question (Some "q2") "Capital of France?" in
  fates w = [] /\ truthy (q_id q) = true /\ Some "q1" <> q_id q
  /\ let w' := snd (saveQuestion E0 q w) in
     getQuestionById (Some "q1") w' = getQuestionById (Some "q1") w
     /\ length (questions (store w'))
        = (length (questions (store w))
           + (if bool_decide (q_id q ∈ q_id <$> questions (store w))
              then 0 else 1))%nat.
Proof.
  split; [reflexivity|]. split; [reflexivity|]. split; [discriminate|].
  apply (saveQuestion_other_questions E0 (question (Some "q2") "Capital of France?")
           (snd (saveQuestion E0 (question (Some "q1") "Capital of Brazil?") w0))
           (Some "q1")); [reflexivity|reflexivity|discriminate].
Defined.

(** X4.  [deleteQuestion] returns [true] exactly when a stored question has
    the id; when its write succeeds no question is found under the id
    afterwards and every question of another id is found as before. *)
Theorem deleteQuestion_removes (i : option string) (w : World) :
  fates w = [] ->
  let r := deleteQuestion i w in
  (fst r = Returned true <-> i ∈ (q_id <$> questions (store w)))
  /\ getQuestionById i (snd r) = None
  /\ forall j, j <> i -> getQuestionById j (snd r) = getQuestionById j w.
Proof.
  intros Hf r. subst r. unfold deleteQuestion, getAllQuestions.
  rewrite setItem_succeeds by exact Hf. cbn [fst snd].
  unfold getQuestionById, find, getAllQuestions.
  cbn [store with_store commit questions]. split; [|split].
  - rewrite Returned_eq, filter_length_lt, list_elem_of_fmap. split.
    + intros (x & Hx & Hn). exists x. split; [|done].
      destruct (decide (q_id x = i)); [done|by destruct Hn].
    + intros (x & -> & Hx). exists x. split; [done|]. intros Hn. by apply Hn.
  - replace (list_find _ _) with (@None (nat * Question)); [done|].
    symmetry. apply list_find_None, Forall_forall.
    intros x [Hx _]%list_elem_of_filter. exact Hx.
  - intros j Hj. apply find_filter_other. intros x -> . exact Hj.
Qed.

(** A stored question deleted. *)
Lemma deleteQuestion_removes_witness :
  let w := snd (saveQuestion E0 (question (Some "q1") "Capital of Brazil?") w0) in
  fates w = []
  /\ let r := deleteQuestion (Some "q1") w in
     (fst r = Returned true <-> Some "q1" ∈ (q_id <$> questions (store w)))
     /\ getQuestionById (Some "q1") (snd r) = None
     /\ forall j, j <> Some "q1" ->
                  getQuestionById j (snd r) = getQuestionById j w.
Proof.
  split; [reflexivity|].
  apply (deleteQuestion_removes (Some "q1")
           (snd (saveQuestion E0 (question (Some "q1") "Capital of Brazil?") w0))).
  reflexivity.
Defined.

(** X5.  [deleteCollection] returns [true] exactly when a stored collection
    has the id; when its write succeeds no collection is found under the id
    afterwards and every collection of another id is found as before. *)
Theorem deleteCollection_removes (i : option string) (w : World) :
  fates w = [] ->
  let r := deleteCollection i w in
  (fst r = Returned true <-> i ∈ (c_id <$> collections (store w)))
  /\ getCollectionById i (snd r) = None
  /\ forall j, j <> i -> getCollectionById j (snd r) = getCollectionById j w.
Proof.
  intros Hf r. subst r. unfold deleteCollection, getAllCollections.
  rewrite setItem_succeeds by exact Hf. cbn [fst snd].
  unfold getCollectionById, find, getAllCollections.
  cbn [store with_store commit collections]. split; [|split].
  - rewrite Returned_eq, filter_length_lt, list_elem_of_fmap. split.
    + intros (x & Hx & Hn). exists x. split; [|done].
      destruct (decide (c_id x = i)); [done|by destruct Hn].
    + intros (x & -> & Hx). exists x. split; [done|]. intros Hn. by apply Hn.
  - replace (list_find _ _) with (@None (nat * Collection)); [done|].
    symmetry. apply list_find_None, Forall_forall.
    intros x [Hx _]%list_elem_of_filter. exact Hx.
  - intros j Hj. apply find_filter_other. intros x -> . exact Hj.
Qed.

(** A stored collection deleted. *)
Lemma deleteCollection_removes_witness :
  let w := snd (saveCollection E0 (collection None "Capitals") w0) in
  fates w = []
  /\ let r := deleteCollection (Some "g") w in
     (fst r = Returned true <-> Some "g" ∈ (c_id <$> collections (store w)))
     /\ getCollectionById (Some "g") (snd r) = None
     /\ forall j, j <> Some "g" ->
                  getCollectionById j (snd r) = getCollectionById j w.
Proof.
  split; [reflexivity|].
  apply (deleteCollection_removes (Some "g")
           (snd (saveCollection E0 (collection None "Capitals") w0))).
  reflexivity.
Defined.


(** *** Writes that fail *)

Lemma setItem_other_error (v : Value) (w : World) (fs : list WriteOutcome) :
  fates w = OtherError :: fs -> setItem v w = (Returned false, with_fates fs w).
Proof.
  intros Hf. unfold setItem. destruct (stack w); simpl; by rewrite Hf.
Qed.

(** X6.  A write that fails (with an error other than the quota error) goes
    unreported: [saveQuestion] and [saveQuizResult] return the id and
    [deleteQuestion] returns [true] for a stored id as after a write that
    succeeded, while the store is the one from before. *)
Theorem failed_write_unreported (E : Env) (w : World) (fs : list WriteOutcome) :
  fates w = OtherError :: fs ->
  (forall q, truthy (q_id q) = true ->
     let r := saveQuestion E q w in
     fst r = Returned (q_id q) /\ store (snd r) = store w)
  /\ (forall result,
        let r := saveQuizResult E result w in
        fst r = Returned (genId E (tick w)) /\ store (snd r) = store w)
  /\ (forall i,
        let r := deleteQuestion i w in
        (fst r = Returned true <-> i ∈ (q_id <$> questions (store w)))
        /\ store (snd r) = store w).
Proof.
  intros Hf. split; [|split].
  - intros q Ht r. subst r. unfold saveQuestion. rewrite Ht.
    unfold now. cbn [next_tick tick store fates].
    rewrite (setItem_other_error _ _ fs) by exact Hf. done.
  - intros result r. subst r. unfold saveQuizResult, generateId, now.
    cbn [next_tick tick store fates].
    rewrite (setItem_other_error _ _ fs) by exact Hf. done.
  - intros i r. subst r. unfold deleteQuestion, getAllQuestions.
    rewrite (setItem_other_error _ _ fs) by exact Hf. cbn [fst snd].
    split; [|done].
    rewrite Returned_eq, filter_length_lt, list_elem_of_fmap. split.
    + intros (x & Hx & Hn). exists x. split; [|done].
      destruct (decide (q_id x = i)); [done|by destruct Hn].
    + intros (x & -> & Hx). exists x. split; [done|]. intros Hn. by apply Hn.
Qed.

(** The three calls on a store whose next write fails. *)
Lemma failed_write_unreported_witness :
  let w := mkWorld (mkStore [question (Some "q1") "Capital of Brazil?"] [] [] []
                      None) 0 [OtherError] stackRoom in
  fates w = [OtherError]
  /\ (forall q, truthy (q_id q) = true ->
        let r := saveQuestion E0 q w in
        fst r = Returned (q_id q) /\ store (snd r) = store w)
  /\ (forall result,
        let r := saveQuizResult E0 result w in
        fst r = Returned (genId E0 (tick w)) /\ store (snd r) = store w)
  /\ (forall i,
        let r := deleteQuestion i w in
        (fst r = Returned true <-> i ∈ (q_id <$> questions (store w)))
        /\ store (snd r) = store w).
Proof.
  split; [reflexivity|].
  apply (failed_write_unreported E0
           (mkWorld (mkStore [question (Some "q1") "Capital of Brazil?"] [] []
                       [] None) 0 [OtherError] stackRoom) []).
  reflexivity.
Defined.

(** *** Search *)

Lemma difficulty_eqb_eq (a b : Difficulty) : difficulty_eqb a b = true <-> a = b.
Proof. destruct a, b; simpl; split; congruence. Qed.

Lemma type_eqb_eq (a b : QuestionType) : type_eqb a b = true <-> a = b.
Proof. destruct a, b; simpl; split; congruence. Qed.

Lemma if_false_else (c r : bool) :
  (if c then false else r) = true <-> c = false /\ r = true.
Proof. destruct c, r; intuition congruence. Qed.

(** X7.  [searchQuestions] returns, in the order of the store, exactly the
    stored questions that pass the text search (when there is a query, the
    lower-cased query occurs in the lower-cased text, category or one of the
    tags) and every filter that is set; without query and filters it returns
    every stored question. *)
Theorem searchQuestions_exact (toLowerCase : string -> string)
    (includes : string -> string -> bool) (query : option string)
    (filters : SearchFilters) (w : World) :
  let found := searchQuestions toLowerCase includes query filters w in
  found `sublist_of` questions (store w)
  /\ (forall q,
        q ∈ found <->
        q ∈ questions (store w)
        /\ (truthy query = true ->
            let s := toLowerCase (default EmptyString query) in
            includes (toLowerCase (q_text q)) s = true
            \/ includes (toLowerCase (q_category q)) s = true
            \/ exists tag, tag ∈ q_tags q /\ includes (toLowerCase tag) s = true)
        /\ (forall d, f_difficulty filters = Some d -> q_difficulty q = d)
        /\ (forall t, f_type filters = Some t -> q_type q = t)
        /\ (forall c, f_category filters = Some c -> c <> EmptyString ->
                      q_category q = c))
  /\ searchQuestions toLowerCase includes None noFilters w = questions (store w).
Proof.
  intros found. subst found. unfold searchQuestions, getAllQuestions.
  split; [|split].
  - induction (questions (store w)) as [|a l IH]; simpl; [constructor|].
    destruct (searchMatch _ _ _ _ a); by constructor.
  - intros q. rewrite list_elem_of_In, filter_In, <- list_elem_of_In.
    apply and_iff_compat_l. unfold searchMatch.
    rewrite !if_false_else.
    assert (H1 : (if truthy query
                  then negb (includes (toLowerCase (q_text q))
                               (toLowerCase (default EmptyString query)))
                       && negb (includes (toLowerCase (q_category q))
                                  (toLowerCase (default EmptyString query)))
                       && negb (existsb
                                  (fun tag => includes (toLowerCase tag)
                                     (toLowerCase (default EmptyString query)))
                                  (q_tags q))
                  else false) = false
                 <-> (truthy query = true ->
                      let s := toLowerCase (default EmptyString query) in
                      includes (toLowerCase (q_text q)) s = true
                      \/ includes (toLowerCase (q_category q)) s = true
                      \/ exists tag, tag ∈ q_tags q
                                     /\ includes (toLowerCase tag) s = true)).
    { destruct (truthy query); [|by intuition]. cbv zeta.
      set (s := toLowerCase (default EmptyString query)).
      rewrite !andb_false_iff, !negb_false_iff, existsb_exists.
      split.
      - intros [[?|?]|(tag & Htag%list_elem_of_In & ?)] _; eauto.
      - intros H. destruct (H eq_refl) as [?|[?|(tag & Htag%list_elem_of_In & ?)]];
          eauto. }
    assert (H2 : match f_difficulty filters with
                 | Some d => negb (difficulty_eqb (q_difficulty q) d)
                 | None => false
                 end = false
                 <-> forall d, f_difficulty filters = Some d -> q_difficulty q = d).
    { destruct (f_difficulty filters) as [d|]; [|by intuition].
      rewrite negb_false_iff, difficulty_eqb_eq. split.
      - by intros -> ? [= <-].
      - intros H. by apply H. }
    assert (H3 : match f_type filters with
                 | Some t => negb (type_eqb (q_type q) t)
                 | None => false
                 end = false
                 <-> forall t, f_type filters = Some t -> q_type q = t).
    { destruct (f_type filters) as [t|]; [|by intuition].
      rewrite negb_false_iff, type_eqb_eq. split.
      - by intros -> ? [= <-].
      - intros H. by apply H. }
    assert (H4 : truthy (f_category filters)
                 && negb (String.eqb (q_category q)
                            (default EmptyString (f_category filters))) = false
                 <-> forall c, f_category filters = Some c -> c <> EmptyString ->
                               q_category q = c).
    { destruct (f_category filters) as [c|]; [|by intuition].
      cbn [truthy default]. rewrite andb_false_iff, !negb_false_iff.
      rewrite !String.eqb_eq. split.
      - intros [->| ->] ? [= <-] ?; done.
      - intros H. destruct (decide (c = EmptyString)) as [->|Hc]; [by left|].
        right. by apply H. }
    rewrite H1, H2, H3, H4. intuition.
  - induction (questions (store w)) as [|a l IH]; simpl; [done|].
    by rewrite IH.
Qed.


(** *** Collections *)

(** X28.  When its write succeeds, [saveCollection] replaces the stored
    collection of the id given by the collection saved, with [updatedAt]
    set, and leaves the collections of other ids as they are; a collection
    saved without id is appended under the id the generator gives, with
    [createdAt] set, and is found under the id returned when that id is
    new. *)
Theorem saveCollection_stores (E : Env) (c : Collection) (w : World) :
  fates w = [] ->
  let r := saveCollection E c w in
  (truthy (c_id c) = true ->
   c_id c ∈ (c_id <$> collections (store w)) ->
   fst r = Returned (c_id c)
   /\ getCollectionById (c_id c) (snd r)
      = Some (c_set_updatedAt (clock E (tick w)) c)
   /\ length (collections (store (snd r))) = length (collections (store w))
   /\ forall j, j <> c_id c ->
        getCollectionById j (snd r) = getCollectionById j w)
  /\ (truthy (c_id c) = false ->
      let c' := c_set_createdAt (clock E (S (tick w)))
                  (c_set_id (Some (genId E (tick w))) c) in
      fst r = Returned (Some (genId E (tick w)))
      /\ collections (store (snd r)) = collections (store w) ++ [c']
      /\ (Some (genId E (tick w)) ∉ (c_id <$> collections (store w)) ->
          getCollectionById (Some (genId E (tick w))) (snd r) = Some c')).
Proof.
  intros Hf r. subst r. split.
  - intros Ht Hin. unfold saveCollection. rewrite Ht.
    unfold getAllCollections, findIndex.
    destruct (list_find (fun c0 => c_id c0 = c_id c) (collections (store w)))
      as [[i x]|] eqn:Hfind.
    + cbn [fmap option_fmap option_map fst]. unfold now.
      cbn [next_tick tick store fates].
      rewrite setItem_succeeds by exact Hf. cbn [fst snd].
      unfold getCollectionById, find, getAllCollections.
      cbn [store with_store next_tick commit collections].
      pose proof Hfind as (Hi & Hx & _)%list_find_Some.
      split_and!; [done| |by rewrite length_insert|].
      * by rewrite (find_insert_first _ _ _ _ (c_set_updatedAt _ c) Hfind eq_refl).
      * intros j Hj.
        apply (find_insert_other (fun c0 => c_id c0 = c_id c) _ _ i x);
          [exact Hi|congruence|simpl; congruence].
    + exfalso. apply list_find_None in Hfind. rewrite Forall_forall in Hfind.
      apply list_elem_of_fmap in Hin as (x & Hx & Hin). by apply (Hfind x).
  - intros Ht c'. subst c'. unfold saveCollection. rewrite Ht.
    unfold generateId, now, getAllCollections.
    cbn [next_tick tick store fates].
    rewrite setItem_succeeds by exact Hf. cbn [fst snd].
    split_and!; [done|done|]. intros Hfresh.
    unfold getCollectionById, find, getAllCollections.
    cbn [store with_store next_tick commit collections].
    rewrite list_find_app_r.
    + simpl. rewrite decide_True by reflexivity. reflexivity.
    + apply list_find_None, Forall_forall. intros x Hx Heq. apply Hfresh.
      apply list_elem_of_fmap. exists x. split; [by rewrite Heq|done].
Qed.

(** A collection saved without id, then saved again under its id. *)
Lemma saveCollection_stores_witness :
  let w := snd (saveCollection E0 (collection None "Capitals") w0) in
  let c := collection (Some "g") "Capital cities" in
  fates w = []
  /\ let r := saveCollection E0 c w in
     (truthy (c_id c) = true ->
      c_id c ∈ (c_id <$> collections (store w)) ->
      fst r = Returned (c_id c)
      /\ getCollectionById (c_id c) (snd r)
         = Some (c_set_updatedAt (clock E0 (tick w)) c)
      /\ length (collections (store (snd r))) = length (collections (store w))
      /\ forall j, j <> c_id c ->
           getCollectionById j (snd r) = getCollectionById j w)
     /\ (truthy (c_id c) = false ->
         let c' := c_set_createdAt (clock E0 (S (tick w)))
                     (c_set_id (Some (genId E0 (tick w))) c) in
         fst r = Returned (Some (genId E0 (tick w)))
         /\ collections (store (snd r)) = collections (store w) ++ [c']
         /\ (Some (genId E0 (tick w)) ∉ (c_id <$> collections (store w)) ->
             getCollectionById (Some (genId E0 (tick w))) (snd r) = Some c')).
Proof.
  split; [reflexivity|].
  apply (saveCollection_stores E0 (collection (Some "g") "Capital cities")
           (snd (saveCollection E0 (collection None "Capitals") w0))).
  reflexivity.
Defined.

End RepositoryFacts.

(* ===================================================================== *)
(** ** Import, export and the import log                                  *)
(* ===================================================================== *)

Module ExchangeFacts.
Import Storage Spec Sample StorageFacts.

(** *** The sections of an import, whatever the writes do *)

Lemma setItem_safely (v : Value) (w : World) :
  safely w (fst (setItem v w)) (snd (setItem v w)).
Proof.
  split; [apply setItem_stack|]. split; [apply setItem_quotaFailures|].
  split; [apply setItem_outcome|apply setItem_returns].
Qed.

(** A call that returns, followed by a second call. *)
Lemma safely_step {A B} (w w1 w2 : World) (r1 : Outcome A) (r2 : Outcome B) :
  safely w r1 w1 -> safely w1 r2 w2 -> safely w r2 w2.
Proof.
  intros (Hs1 & Hq1 & _ & _) (Hs2 & Hq2 & Ht2 & Hr2).
  split; [congruence|]. split; [lia|]. split; [exact Ht2|].
  intros Hle. apply Hr2. lia.
Qed.

(** A call whose result is made from what another call returns. *)
Lemma safely_map {A B} (w w' : World) (r : Outcome A) (r' : Outcome B) :
  safely w r w' ->
  (forall a, r = Returned a -> exists b, r' = Returned b) ->
  (forall message, r = Thrown message -> r' = Thrown message) ->
  safely w r' w'.
Proof.
  intros (Hs & Hq & Ht & Hr) Hret Hthr.
  split; [exact Hs|]. split; [exact Hq|]. split.
  - intros m Hm. destruct r as [a|m'].
    + destruct (Hret a eq_refl) as [b Hb]. congruence.
    + rewrite (Hthr m' eq_refl) in Hm. injection Hm as <-. by apply Ht.
  - intros Hle. destruct (Hr Hle) as [a ->]. by apply (Hret a).
Qed.

(** A step that reads the clock or the generator and writes nothing. *)
Lemma safely_start {A} (w w0 w' : World) (r : Outcome A) :
  stack w0 = stack w -> fates w0 = fates w -> safely w0 r w' -> safely w r w'.
Proof. intros Hs Hf. unfold safely. by rewrite Hs, Hf. Qed.

Lemma safely_returned {A} (w : World) (a : A) : safely w (Returned a) w.
Proof.
  split; [done|]. split; [done|]. split; [discriminate|]. intros _. by exists a.
Qed.

Lemma importQuestions_safely (E : Env) (data : Bundle) (o : ImportOptions)
    (n : nat) (w : World) :
  let r := importQuestions E data o n w in
  safely w (fst (fst r)) (snd r).
Proof.
  intros r. subst r. unfold importQuestions.
  destruct (b_questions data) as [dq|]; [|apply safely_returned].
  destruct (mergeQuestions o);
    match goal with |- context [forEach ?f ?l ?w] =>
      pose proof (forEach_frame f l (stampQuestion_store E)
                    (stampQuestion_fates E) w) as (_ & Hf & _);
      pose proof (forEach_stack f l (stampQuestion_stack E) w) as Hs;
      destruct (forEach f l w) as [l' w1] end;
    cbn [fst snd] in Hf, Hs;
    match goal with |- context [setItem ?v ?w] =>
      pose proof (setItem_safely v w) as Hset;
      destruct (setItem v w) as [[b|m] w2] end;
    cbn [fst snd] in *;
    (eapply safely_start; [exact Hs|exact Hf|]);
    (eapply safely_map; [exact Hset| |]); intros; simplify_eq; eauto.
Qed.

Lemma importCollections_safely (E : Env) (data : Bundle) (o : ImportOptions)
    (w : World) :
  let r := importCollections E data o w in
  safely w (fst (fst r)) (snd r).
Proof.
  intros r. subst r. unfold importCollections.
  destruct (b_collections data) as [dc|]; [|apply safely_returned].
  destruct (mergeCollections o); [|apply safely_returned].
  match goal with |- context [forEach ?f ?l ?w] =>
    pose proof (forEach_frame f l (stampCollection_store E)
                  (stampCollection_fates E) w) as (_ & Hf & _);
    pose proof (forEach_stack f l (stampCollection_stack E) w) as Hs;
    destruct (forEach f l w) as [l' w1] end.
  cbn [fst snd] in Hf, Hs.
  match goal with |- context [setItem ?v ?w] =>
    pose proof (setItem_safely v w) as Hset;
    destruct (setItem v w) as [[b|m] w2] end;
    cbn [fst snd] in *;
    (eapply safely_start; [exact Hs|exact Hf|]);
    (eapply safely_map; [exact Hset| |]); intros; simplify_eq; eauto.
Qed.

Lemma importHistory_safely (data : Bundle) (o : ImportOptions) (w : World) :
  let r := importHistory data o w in
  safely w (fst r) (snd r).
Proof.
  intros r. subst r. unfold importHistory.
  destruct (b_history data) as [dh|]; [|apply safely_returned].
  destruct (mergeHistory o); [|apply safely_returned].
  match goal with |- context [setItem ?v ?w] =>
    pose proof (setItem_safely v w) as Hset;
    destruct (setItem v w) as [[b|m] w2] end;
    cbn [fst snd] in *;
    (eapply safely_map; [exact Hset| |]); intros; simplify_eq; eauto.
Qed.

Lemma importSettings_safely (data : Bundle) (o : ImportOptions) (w : World) :
  let r := importSettings data o w in
  safely w (fst r) (snd r).
Proof.
  intros r. subst r. unfold importSettings.
  destruct (b_settings data) as [st|]; [|apply safely_returned].
  destruct (overwriteSettings o); [|apply safely_returned].
  match goal with |- context [setItem ?v ?w] =>
    pose proof (setItem_safely v w) as Hset;
    destruct (setItem v w) as [[b|m] w2] end;
    cbn [fst snd] in *;
    (eapply safely_map; [exact Hset| |]); intros; simplify_eq; eauto.
Qed.

Lemma logImport_safely (E : Env) (data : Bundle) (n : nat) (w : World) :
  let r := logImport E data n w in
  safely w (fst r) (snd r).
Proof.
  intros r. subst r. unfold logImport, generateId, now.
  cbn [next_tick tick store fates].
  match goal with |- context [setItem ?v ?w] =>
    pose proof (setItem_safely v w) as Hset;
    destruct (setItem v w) as [[b|m] w2] end;
    cbn [fst snd] in *;
    (eapply safely_start; [| |eapply safely_map; [exact Hset| |]]);
    try reflexivity; intros; simplify_eq; eauto.
Qed.

(** The number [importQuestions] returns, when it returns. *)
Lemma importQuestions_count (E : Env) (data : Bundle) (o : ImportOptions)
    (w : World) (n : nat) :
  fst (fst (importQuestions E data o 0 w)) = Returned n ->
  n = match b_questions data with
      | Some dq =>
          if mergeQuestions o
          then length (filter (fun q => q_id q ∉ (q_id <$> questions (store w))) dq)
          else length dq
      | None => 0%nat
      end.
Proof.
  unfold importQuestions. destruct (b_questions data) as [dq|];
    [|by intros [= <-]].
  destruct (mergeQuestions o);
    match goal with |- context [forEach ?f ?l ?w] =>
      pose proof (forEach_frame f l (stampQuestion_store E)
                    (stampQuestion_fates E) w) as (_ & _ & Hl);
      destruct (forEach f l w) as [l' w1] end;
    destruct (setItem _ w1) as [[b|m] w2]; cbn [fst snd] in *;
    intros [= <-]; simpl; exact Hl.
Qed.

(** [importData], section by section: the import stops at the first section
    that throws, with the failure of the message thrown and the world that
    section leaves; when none throws, it returns the number the questions
    section returned and the world the log entry leaves. *)
Lemma importData_path (E : Env) (data : Bundle) (o : ImportOptions) (w : World) :
  let r := importData E data o w in
  let rq := importQuestions E data o 0 w in
  let rc := importCollections E data o (snd rq) in
  let rh := importHistory data o (snd rc) in
  let rs := importSettings data o (snd rh) in
  match fst (fst rq) with
  | Thrown m => fst (fst r) = ImportFailure m /\ snd r = snd rq
  | Returned n =>
      let rl := logImport E data n (snd rs) in
      match fst (fst rc), fst rh, fst rs, fst rl with
      | Thrown m, _, _, _ => fst (fst r) = ImportFailure m /\ snd r = snd rc
      | Returned _, Thrown m, _, _ =>
          fst (fst r) = ImportFailure m /\ snd r = snd rh
      | Returned _, Returned _, Thrown m, _ =>
          fst (fst r) = ImportFailure m /\ snd r = snd rs
      | Returned _, Returned _, Returned _, Thrown m =>
          fst (fst r) = ImportFailure m /\ snd r = snd rl
      | Returned _, Returned _, Returned _, Returned _ =>
          fst (fst r) = ImportSuccess n /\ snd r = snd rl
      end
  end.
Proof.
  intros r rq rc rh rs. subst r rq rc rh rs. unfold importData, importData_try.
  destruct (importQuestions E data o 0 w) as [[[n|m] dq] w1];
    cbn [fst snd]; [|done].
  match goal with
  | |- context [importCollections E (mkBundle ?a ?b ?c ?d ?e ?f) o w1] =>
      change (importCollections E (mkBundle a b c d e f) o w1)
        with (importCollections E data o w1)
  end.
  destruct (importCollections E data o w1) as [[[[]|m] dc] w2];
    cbn [fst snd]; [|done].
  match goal with
  | |- context [importHistory (mkBundle ?a ?b ?c ?d ?e ?f) o w2] =>
      change (importHistory (mkBundle a b c d e f) o w2)
        with (importHistory data o w2)
  end.
  destruct (importHistory data o w2) as [[[]|m] w3]; cbn [fst snd]; [|done].
  match goal with
  | |- context [importSettings (mkBundle ?a ?b ?c ?d ?e ?f) o w3] =>
      change (importSettings (mkBundle a b c d e f) o w3)
        with (importSettings data o w3)
  end.
  destruct (importSettings data o w3) as [[[]|m] w4]; cbn [fst snd]; [|done].
  match goal with
  | |- context [logImport E (mkBundle ?a ?b ?c ?d ?e ?f) n w4] =>
      change (logImport E (mkBundle a b c d e f) n w4)
        with (logImport E data n w4)
  end.
  destruct (logImport E data n w4) as [[[]|m] w5]; cbn [fst snd]; done.
Qed.

(** The result of an import is the success with the number of the questions
    section or the failure of the [RangeError]; it is the success when the
    stack has room for the failures on the quota to come. *)
Lemma importData_result (E : Env) (data : Bundle) (o : ImportOptions)
    (w : World) :
  let r := importData E data o w in
  let n :=
    match b_questions data with
    | Some dq =>
        if mergeQuestions o
        then length (filter (fun q => q_id q ∉ (q_id <$> questions (store w))) dq)
        else length dq
    | None => 0%nat
    end in
  (fst (fst r) = ImportSuccess n \/ fst (fst r) = ImportFailure stackOverflow)
  /\ ((quotaFailures (fates w) <= stack w)%nat -> fst (fst r) = ImportSuccess n).
Proof.
  intros r n. subst r n.
  pose proof (importData_path E data o w) as Hp. cbv zeta in Hp.
  pose proof (importQuestions_safely E data o 0 w) as S1.
  pose proof (importQuestions_count E data o w) as Hn.
  cbv zeta in S1.
  destruct (importQuestions E data o 0 w) as [[[n1|m1] dq] w1];
    cbn [fst snd] in *.
  2:{ destruct Hp as [-> _]. destruct S1 as (_ & _ & Ht & Hr).
      rewrite (Ht m1 eq_refl). split; [by right|].
      intros Hle. destruct (Hr Hle) as [a Ha]. discriminate Ha. }
  rewrite <- (Hn n1 eq_refl). clear Hn.
  pose proof (importCollections_safely E data o w1) as S2. cbv zeta in S2.
  pose proof (safely_step _ _ _ _ _ S1 S2) as S12.
  destruct (importCollections E data o w1) as [[[[]|m2] dc] w2];
    cbn [fst snd] in *.
  2:{ destruct Hp as [-> _]. destruct S12 as (_ & _ & Ht & Hr).
      rewrite (Ht m2 eq_refl). split; [by right|].
      intros Hle. destruct (Hr Hle) as [a Ha]. discriminate Ha. }
  pose proof (importHistory_safely data o w2) as S3. cbv zeta in S3.
  pose proof (safely_step _ _ _ _ _ S12 S3) as S13.
  destruct (importHistory data o w2) as [[[]|m3] w3]; cbn [fst snd] in *.
  2:{ destruct Hp as [-> _]. destruct S13 as (_ & _ & Ht & Hr).
      rewrite (Ht m3 eq_refl). split; [by right|].
      intros Hle. destruct (Hr Hle) as [a Ha]. discriminate Ha. }
  pose proof (importSettings_safely data o w3) as S4. cbv zeta in S4.
  pose proof (safely_step _ _ _ _ _ S13 S4) as S14.
  destruct (importSettings data o w3) as [[[]|m4] w4]; cbn [fst snd] in *.
  2:{ destruct Hp as [-> _]. destruct S14 as (_ & _ & Ht & Hr).
      rewrite (Ht m4 eq_refl). split; [by right|].
      intros Hle. destruct (Hr Hle) as [a Ha]. discriminate Ha. }
  pose proof (logImport_safely E data n1 w4) as S5. cbv zeta in S5.
  pose proof (safely_step _ _ _ _ _ S14 S5) as S15.
  destruct (logImport E data n1 w4) as [[[]|m5] w5]; cbn [fst snd] in *.
  2:{ destruct Hp as [-> _]. destruct S15 as (_ & _ & Ht & Hr).
      rewrite (Ht m5 eq_refl). split; [by right|].
      intros Hle. destruct (Hr Hle) as [a Ha]. discriminate Ha. }
  destruct Hp as [-> _]. split; [by left|done].
Qed.

(** *** The sections of an import when every write succeeds *)

Lemma setItem_succeeds_fates (v : Value) (w : World) :
  fates w = [] -> fates (snd (setItem v w)) = [].
Proof. intros Hf. by rewrite setItem_succeeds. Qed.

Lemma importQuestions_ok (E : Env) (data : Bundle) (o : ImportOptions)
    (n : nat) (w : World) :
  fates w = [] ->
  let r := importQuestions E data o n w in
  (exists k, fst (fst r) = Returned k)
  /\ fates (snd r) = []
  /\ history (store (snd r)) = history (store w)
  /\ imports (store (snd r)) = imports (store w)
  /\ collections (store (snd r)) = collections (store w).
Proof.
  intros Hf r. subst r. unfold importQuestions.
  destruct (b_questions data) as [dq|]; [|split_and!; eauto].
  destruct (mergeQuestions o).
  - match goal with |- context [forEach ?f ?l ?w] =>
      pose proof (forEach_frame f l (stampQuestion_store E) (stampQuestion_fates E) w)
        as (Hs & Hf' & _); destruct (forEach f l w) as [l' w1] end.
    simpl in Hs, Hf'. rewrite setItem_succeeds by congruence.
    simpl. rewrite Hs. split_and!; [eauto|congruence..].
  - match goal with |- context [forEach ?f ?l ?w] =>
      pose proof (forEach_frame f l (stampQuestion_store E) (stampQuestion_fates E) w)
        as (Hs & Hf' & _); destruct (forEach f l w) as [l' w1] end.
    simpl in Hs, Hf'. rewrite setItem_succeeds by congruence.
    simpl. rewrite Hs. split_and!; [eauto|congruence..].
Qed.

Lemma importCollections_ok (E : Env) (data : Bundle) (o : ImportOptions)
    (w : World) :
  fates w = [] ->
  let r := importCollections E data o w in
  fst (fst r) = Returned tt
  /\ fates (snd r) = []
  /\ history (store (snd r)) = history (store w)
  /\ imports (store (snd r)) = imports (store w)
  /\ questions (store (snd r)) = questions (store w).
Proof.
  intros Hf r. subst r. unfold importCollections.
  destruct (b_collections data) as [dc|]; [|done].
  destruct (mergeCollections o); [|done].
  match goal with |- context [forEach ?f ?l ?w] =>
    pose proof (forEach_frame f l (stampCollection_store E)
                  (stampCollection_fates E) w)
      as (Hs & Hf' & _); destruct (forEach f l w) as [l' w1] end.
  simpl in Hs, Hf'. rewrite setItem_succeeds by congruence.
  simpl. rewrite Hs. split_and!; congruence.
Qed.

Lemma importHistory_ok (data : Bundle) (o : ImportOptions) (w : World) :
  fates w = [] ->
  let r := importHistory data o w in
  fst r = Returned tt
  /\ fates (snd r) = []
  /\ imports (store (snd r)) = imports (store w)
  /\ questions (store (snd r)) = questions (store w)
  /\ collections (store (snd r)) = collections (store w)
  /\ history (store (snd r)) =
       match b_history data with
       | Some dh =>
           if mergeHistory o
           then take 100 (sort (fun a b => r_timestamp b - r_timestamp a)
                            (uniqueById (take 50 (history (store w)) ++ dh)))
           else history (store w)
       | None => history (store w)
       end.
Proof.
  intros Hf r. subst r. unfold importHistory.
  destruct (b_history data) as [dh|]; [|done].
  destruct (mergeHistory o); [|done].
  rewrite setItem_succeeds by exact Hf. done.
Qed.

Lemma importSettings_ok (data : Bundle) (o : ImportOptions) (w : World) :
  fates w = [] ->
  let r := importSettings data o w in
  fst r = Returned tt
  /\ fates (snd r) = []
  /\ imports (store (snd r)) = imports (store w)
  /\ history (store (snd r)) = history (store w)
  /\ questions (store (snd r)) = questions (store w)
  /\ collections (store (snd r)) = collections (store w).
Proof.
  intros Hf r. subst r. unfold importSettings.
  destruct (b_settings data) as [st|]; [|done].
  destruct (overwriteSettings o); [|done].
  rewrite setItem_succeeds by exact Hf. done.
Qed.

Lemma logImport_ok (E : Env) (data : Bundle) (n : nat) (w : World) :
  fates w = [] ->
  let r := logImport E data n w in
  fst r = Returned tt
  /\ fates (snd r) = []
  /\ history (store (snd r)) = history (store w)
  /\ questions (store (snd r)) = questions (store w)
  /\ collections (store (snd r)) = collections (store w)
  /\ imports (store (snd r)) =
       take 20 (mkImportLogEntry (genId E (tick w)) (clock E (S (tick w))) n
                  (b_version data) (b_exportDate data) :: imports (store w)).
Proof.
  intros Hf r. subst r. unfold logImport, generateId, now.
  cbn [next_tick tick store fates].
  rewrite setItem_succeeds by exact Hf. cbn [fst snd store with_store commit
    fates next_tick history questions collections imports].
  split_and!; try done.
  destruct (20 <? _)%nat eqn:Hlen; [done|].
  apply Nat.ltb_ge in Hlen. by rewrite take_ge.
Qed.

(** The world after an [importData] whose writes succeed, section by
    section. *)
Lemma importData_world (E : Env) (data : Bundle) (o : ImportOptions) (w : World) :
  fates w = [] ->
  let rq := importQuestions E data o 0 w in
  let rc := importCollections E data o (snd rq) in
  let rh := importHistory data o (snd rc) in
  let rs := importSettings data o (snd rh) in
  exists n,
    fst (fst rq) = Returned n
    /\ fst (fst (importData E data o w)) = ImportSuccess n
    /\ snd (importData E data o w) = snd (logImport E data n (snd rs))
    /\ fates (snd rs) = [].
Proof.
  intros Hf rq rc rh rs.
  pose proof (importData_path E data o w) as Hp. cbv zeta in Hp.
  fold rq in Hp. fold rc in Hp. fold rh in Hp. fold rs in Hp.
  destruct (importQuestions_ok E data o 0 w Hf) as ([n Hn] & Hf1 & _).
  fold rq in Hn, Hf1.
  destruct (importCollections_ok E data o _ Hf1) as (Hc & Hf2 & _).
  fold rc in Hc, Hf2.
  destruct (importHistory_ok data o _ Hf2) as (Hh & Hf3 & _).
  fold rh in Hh, Hf3.
  destruct (importSettings_ok data o _ Hf3) as (Hs & Hf4 & _).
  fold rs in Hs, Hf4.
  destruct (logImport_ok E data n _ Hf4) as (Hl & _).
  rewrite Hn, Hc, Hh, Hs in Hp. cbv zeta in Hp. rewrite Hl in Hp.
  exists n. by destruct Hp.
Qed.

(** X8.  An import with [mergeQuestions = false] whose writes succeed
    replaces the stored questions by those of the bundle, in the order of
    the bundle, each with the time of the import and, when it came without
    an id, with an id of the generator; it reports their number, and the
    records of the bundle are the stored ones afterwards. *)
Theorem importData_replaces_questions (E : Env) (data : Bundle)
    (o : ImportOptions) (w : World) (dq : list Question) :
  fates w = [] -> mergeQuestions o = false -> b_questions data = Some dq ->
  let r := importData E data o w in
  Forall2 (stamped E) dq (questions (store (snd r)))
  /\ fst (fst r) = ImportSuccess (length dq)
  /\ b_questions (snd (fst r)) = Some (questions (store (snd r))).
Proof.
  intros Hf Hm Hq r. subst r.
  destruct (importData_questions E data o w) as [Hw Hb].
  destruct (importData_world E data o w Hf) as (n & Hn & Hr & _).
  apply importQuestions_count in Hn. rewrite Hq, Hm in Hn. subst n.
  rewrite Hw, Hb, Hr.
  unfold importQuestions. rewrite Hq, Hm.
  pose proof (forEach_stamped E dq w) as Hst.
  pose proof (forEach_frame (stampQuestion E) dq (stampQuestion_store E)
                (stampQuestion_fates E) w) as (_ & Hf' & _).
  destruct (forEach (stampQuestion E) dq w) as [l' w1]. simpl in Hst, Hf'.
  rewrite setItem_succeeds by congruence. done.
Qed.

(** A bundle of two questions, the second without id, replacing a stored
    one: the second is stored under the id the generator gives. *)
Lemma importData_replaces_questions_witness :
  let w := snd (saveQuestion E0 (question (Some "q0") "An old question?") w0) in
  let dq := [question (Some "q1") "Capital of Brazil?"; question None "Capital of France?"] in
  let o := mkImportOptions false true false false in
  fates w = [] /\ mergeQuestions o = false
  /\ b_questions (bundle dq []) = Some dq
  /\ let r := importData E0 (bundle dq []) o w in
     Forall2 (stamped E0) dq (questions (store (snd r)))
     /\ fst (fst r) = ImportSuccess (length dq)
     /\ b_questions (snd (fst r)) = Some (questions (store (snd r))).
Proof.
  split; [reflexivity|]. split; [reflexivity|]. split; [reflexivity|].
  apply (importData_replaces_questions E0
           (bundle [question (Some "q1") "Capital of Brazil?";
                    question None "Capital of France?"] [])
           (mkImportOptions false true false false)
           (snd (saveQuestion E0 (question (Some "q0") "An old question?") w0)));
    reflexivity.
Defined.

(** The ids of the two stored questions of the example. *)
Example importData_replaces_questions_ids :
  let w := snd (saveQuestion E0 (question (Some "q0") "An old question?") w0) in
  let dq := [question (Some "q1") "Capital of Brazil?"; question None "Capital of France?"] in
  let r := importData E0 (bundle dq []) (mkImportOptions false true false false) w in
  q_id <$> questions (store (snd r)) = [Some "q1"; Some (genId E0 2)].
Proof. vm_compute. reflexivity. Qed.

(** X9.  The result of [importData] does not tell whether anything was
    stored.  When the stack has room for the failures on the quota to come,
    the result is the success with the number of questions of the bundle
    (with [mergeQuestions], of those whose id is not stored), whatever the
    writes do, also when every one of them fails; otherwise the result is
    that success or the failure the [catch] block makes of the [RangeError]
    of a write.  When the writes succeed and the questions are merged, the
    store holds that many questions more. *)
Theorem importData_reports_count (E : Env) (data : Bundle) (o : ImportOptions)
    (w : World) (fs : list WriteOutcome) :
  let n :=
    match b_questions data with
    | Some dq =>
        if mergeQuestions o
        then length (filter (fun q => q_id q ∉ (q_id <$> questions (store w))) dq)
        else length dq
    | None => 0%nat
    end in
  let r := importData E data o (with_fates fs w) in
  (fst (fst r) = ImportSuccess n \/ fst (fst r) = ImportFailure stackOverflow)
  /\ ((quotaFailures fs <= stack w)%nat -> fst (fst r) = ImportSuccess n)
  /\ (mergeQuestions o = true ->
      length (questions (store (snd (importData E data o (with_fates [] w)))))
      = (length (questions (store w)) + n)%nat).
Proof.
  intros n r. subst n r.
  destruct (importData_result E data o (with_fates fs w)) as [H1 H2].
  split; [exact H1|]. split; [exact H2|].
  intros Hm. rewrite (proj1 (importData_questions E data o (with_fates [] w))).
  rewrite Hm. destruct (b_questions data) as [dq|] eqn:Hq.
  - destruct (importQuestions_merge E data o 0 (with_fates [] w) dq
                eq_refl Hm Hq) as [Hs _].
    rewrite Hs, length_app. f_equal.
    match goal with |- context [forEach ?f ?l ?w] =>
      pose proof (forEach_frame f l (stampQuestion_store E)
                    (stampQuestion_fates E) w) as (_ & _ & Hl) end.
    exact Hl.
  - unfold importQuestions. rewrite Hq. simpl. lia.
Qed.

(** X9 at two runs of the same import.  Every write fails, with an error
    that is no quota error: the result is the success with the count 1, and
    no question is stored.  Every write fails on the quota, more often than
    the stack has room for: the result is the failure. *)
Example importData_failing_writes :
  let data := bundle [question (Some "a") "first"] [] in
  let failing := with_fates (replicate 5 OtherError) w0 in
  let full := mkWorld emptyStore 0 (replicate 4 QuotaExceededError) 3 in
  fst (fst (importData E0 data defaultOptions failing)) = ImportSuccess 1
  /\ questions (store (snd (importData E0 data defaultOptions failing))) = []
  /\ fst (fst (importData E0 data defaultOptions full))
     = ImportFailure stackOverflow
  /\ questions (store (snd (importData E0 data defaultOptions full))) = [].
Proof. vm_compute. repeat split. Qed.

(** X10.  An import whose writes succeed puts an entry in front of the
    import log, with the count it returns and the version and date of the
    bundle, and keeps the 20 most recent entries. *)
Theorem importData_logs (E : Env) (data : Bundle) (o : ImportOptions) (w : World) :
  fates w = [] ->
  let r := importData E data o w in
  exists e,
    imports (store (snd r)) = take 20 (e :: imports (store w))
    /\ fst (fst r) = ImportSuccess (il_questionsImported e)
    /\ il_sourceVersion e = b_version data
    /\ il_sourceDate e = b_exportDate data
    /\ (length (imports (store (snd r))) <= 20)%nat.
Proof.
  intros Hf r. subst r.
  destruct (importData_world E data o w Hf) as (n & _ & Hr & Hw & _).
  rewrite Hr, Hw.
  destruct (importQuestions_ok E data o 0 w Hf) as (_ & Hf1 & _ & Hi1 & _).
  destruct (importCollections_ok E data o _ Hf1) as (_ & Hf2 & _ & Hi2 & _).
  destruct (importHistory_ok data o _ Hf2) as (_ & Hf3 & Hi3 & _).
  destruct (importSettings_ok data o _ Hf3) as (_ & Hf4 & Hi4 & _).
  cbv zeta in *.
  destruct (logImport_ok E data n _ Hf4) as (_ & _ & _ & _ & _ & Hi5).
  cbv zeta in Hi5. rewrite Hi5, Hi4, Hi3, Hi2, Hi1.
  eexists. split; [reflexivity|]. cbn [il_questionsImported il_sourceVersion
    il_sourceDate]. split_and!; [done|done|done|].
  rewrite length_take. lia.
Qed.

(** The log after a first import. *)
Lemma importData_logs_witness :
  fates w0 = []
  /\ let r := importData E0 (bundle [question None "Capital of Brazil?"] [])
                defaultOptions w0 in
     exists e,
       imports (store (snd r)) = take 20 (e :: imports (store w0))
       /\ fst (fst r) = ImportSuccess (il_questionsImported e)
       /\ il_sourceVersion e = b_version (bundle [question None "Capital of Brazil?"] [])
       /\ il_sourceDate e = b_exportDate (bundle [question None "Capital of Brazil?"] [])
       /\ (length (imports (store (snd r))) <= 20)%nat.
Proof.
  split; [reflexivity|].
  apply (importData_logs E0 (bundle [question None "Capital of Brazil?"] [])
           defaultOptions w0).
  reflexivity.
Defined.


(** *** The history section *)

Lemma insert_sorted_Permutation {A} (cmp : A -> A -> Z) (x : A) (l : list A) :
  insert_sorted cmp x l ≡ₚ x :: l.
Proof.
  induction l as [|y l IH]; simpl; [done|].
  destruct (cmp y x <? 0); [|done]. rewrite IH. apply Permutation_swap.
Qed.

Lemma sort_Permutation {A} (cmp : A -> A -> Z) (l : list A) : sort cmp l ≡ₚ l.
Proof.
  unfold sort. induction l as [|x l IH]; simpl; [done|].
  by rewrite insert_sorted_Permutation, IH.
Qed.

Lemma sort_most_recent_first (l : list QuizResult) :
  StronglySorted (fun a b => r_timestamp b <= r_timestamp a)
    (sort (fun a b => r_timestamp b - r_timestamp a) l).
Proof.
  unfold sort. induction l as [|x l IH]; simpl; [constructor|].
  revert IH. generalize (foldr (insert_sorted (fun a b => r_timestamp b - r_timestamp a)) [] l).
  clear l. intros l. induction 1 as [|y l Hs IH Hy]; simpl.
  - repeat constructor.
  - destruct (Z.ltb_spec (r_timestamp x - r_timestamp y) 0).
    + constructor; [exact IH|].
      rewrite insert_sorted_Permutation. constructor; [lia|exact Hy].
    + constructor; [by constructor|]. constructor; [lia|].
      eapply Forall_impl; [exact Hy|]. simpl. intros z Hz. lia.
Qed.

Lemma imap_pair_NoDup {A} (l : list A) : NoDup (imap pair l).
Proof.
  apply (NoDup_fmap_1 fst). rewrite fmap_imap.
  rewrite (imap_ext _ (fun i _ => id i)) by done.
  rewrite imap_seq_0, list_fmap_id. apply NoDup_seq.
Qed.

(** Of the results with the same id [uniqueById] keeps one. *)
Lemma uniqueById_NoDup (arr : list QuizResult) :
  NoDup (r_id <$> uniqueById arr).
Proof.
  unfold uniqueById. rewrite <- list_fmap_compose.
  apply NoDup_fmap_2_strong; [|apply NoDup_filter, imap_pair_NoDup].
  intros [i x] [j y] Hx Hy Heq. simpl in Heq.
  apply list_elem_of_filter in Hx as [Px Hxin].
  apply list_elem_of_filter in Hy as [Py Hyin]. simpl in Px, Py.
  apply elem_of_lookup_imap in Hxin as (i' & x' & [= -> ->] & Hlx).
  apply elem_of_lookup_imap in Hyin as (j' & y' & [= -> ->] & Hly).
  rewrite Heq in Px. rewrite Px in Py. injection Py as ->.
  rewrite Hlx in Hly. by injection Hly as ->.
Qed.

Lemma uniqueById_elem_of (arr : list QuizResult) (r : QuizResult) :
  r ∈ uniqueById arr -> r ∈ arr.
Proof.
  unfold uniqueById.
  intros ([i x] & -> & [_ Hin]%list_elem_of_filter)%list_elem_of_fmap.
  apply elem_of_lookup_imap in Hin as (i' & x' & [= -> ->] & Hl).
  by eapply list_elem_of_lookup_2.
Qed.

(** Every id of the array is the id of a result [uniqueById] keeps. *)
Lemma uniqueById_ids (arr : list QuizResult) (r : QuizResult) :
  r ∈ arr -> r_id r ∈ (r_id <$> uniqueById arr).
Proof.
  intros Hr.
  destruct (list_find_elem_of (fun t => r_id t = r_id r) arr r Hr eq_refl)
    as [[i x] Hfind].
  pose proof Hfind as (Hl & Hid & _)%list_find_Some.
  apply list_elem_of_fmap. exists x. split; [done|].
  unfold uniqueById. apply list_elem_of_fmap. exists (i, x). split; [done|].
  apply list_elem_of_filter. split.
  - simpl. unfold findIndex.
    rewrite (list_find_ext _ (fun t => r_id t = r_id r)), Hfind; [done|].
    intros t. by rewrite Hid.
  - by apply elem_of_lookup_imap_2.
Qed.

(** X11.  An import with [mergeHistory] whose writes succeed leaves a
    history that is sorted, the most recent result first, holds no id twice
    and at most 100 results, all of them from the 50 most recent stored
    results or from the bundle; when these are no more than 100, every id
    among them is kept. *)
Theorem importData_merges_history (E : Env) (data : Bundle) (o : ImportOptions)
    (w : World) (dh : list QuizResult) :
  fates w = [] -> mergeHistory o = true -> b_history data = Some dh ->
  let candidates := take 50 (history (store w)) ++ dh in
  let h := history (store (snd (importData E data o w))) in
  StronglySorted (fun a b => r_timestamp b <= r_timestamp a) h
  /\ NoDup (r_id <$> h)
  /\ (length h <= 100)%nat
  /\ (forall r, r ∈ h -> r ∈ candidates)
  /\ ((length candidates <= 100)%nat ->
      forall r, r ∈ candidates -> r_id r ∈ (r_id <$> h)).
Proof.
  intros Hf Hm Hh candidates h.
  assert (Hhist : h = take 100 (sort (fun a b => r_timestamp b - r_timestamp a)
                                  (uniqueById candidates))).
  { subst h candidates.
    destruct (importData_world E data o w Hf) as (n & _ & _ & Hr & _).
    rewrite Hr.
    destruct (importQuestions_ok E data o 0 w Hf) as (_ & Hf1 & Hh1 & _).
    destruct (importCollections_ok E data o _ Hf1) as (_ & Hf2 & Hh2 & _).
    destruct (importHistory_ok data o _ Hf2) as (_ & Hf3 & _ & _ & _ & Hh3).
    destruct (importSettings_ok data o _ Hf3) as (_ & Hf4 & _ & Hh4 & _).
    cbv zeta in *.
    destruct (logImport_ok E data n _ Hf4) as (_ & _ & Hh5 & _).
    cbv zeta in Hh5. rewrite Hh5, Hh4, Hh3, Hh, Hm, Hh2, Hh1. done. }
  set (sorted := sort (fun a b => r_timestamp b - r_timestamp a)
                   (uniqueById candidates)) in *.
  assert (Hperm : sorted ≡ₚ uniqueById candidates) by apply sort_Permutation.
  rewrite Hhist. split_and!.
  - apply (StronglySorted_app_1_l _ (take 100 sorted) (drop 100 sorted)).
    rewrite take_drop. apply sort_most_recent_first.
  - eapply sublist_NoDup; [|apply fmap_sublist, sublist_take].
    rewrite Hperm. apply uniqueById_NoDup.
  - rewrite length_take. lia.
  - intros r Hr%elem_of_take. destruct Hr as (i & Hr & _).
    apply list_elem_of_lookup_2 in Hr. rewrite Hperm in Hr.
    by apply uniqueById_elem_of.
  - intros Hlen r Hr. rewrite take_ge.
    + rewrite Hperm. by apply uniqueById_ids.
    + rewrite Hperm. unfold uniqueById. rewrite length_fmap.
      etransitivity; [apply length_filter|]. by rewrite length_imap.
Qed.

(** Two stored results merged with three of a bundle. *)
Lemma importData_merges_history_witness :
  let r (i : string) (t : Z) :=
    mkQuizResult (Some i) t (mkSummary 10 5 5 0 50 None) [] in
  let w := mkWorld (mkStore [] [r "b" 30; r "a" 10] [] [] None) 0 [] stackRoom in
  let dh := [r "c" 20; r "a" 40; r "d" 30] in
  let data := mkBundle None None None None None (Some dh) in
  let o := mkImportOptions true true true false in
  fates w = [] /\ mergeHistory o = true /\ b_history data = Some dh
  /\ let candidates := take 50 (history (store w)) ++ dh in
     let h := history (store (snd (importData E0 data o w))) in
     StronglySorted (fun a b => r_timestamp b <= r_timestamp a) h
     /\ NoDup (r_id <$> h)
     /\ (length h <= 100)%nat
     /\ (forall r, r ∈ h -> r ∈ candidates)
     /\ ((length candidates <= 100)%nat ->
         forall r, r ∈ candidates -> r_id r ∈ (r_id <$> h)).
Proof.
  split; [reflexivity|]. split; [reflexivity|]. split; [reflexivity|].
  apply (importData_merges_history E0
           (mkBundle None None None None None
              (Some [mkQuizResult (Some "c") 20 (mkSummary 10 5 5 0 50 None) [];
                     mkQuizResult (Some "a") 40 (mkSummary 10 5 5 0 50 None) [];
                     mkQuizResult (Some "d") 30 (mkSummary 10 5 5 0 50 None) []]))
           (mkImportOptions true true true false)
           (mkWorld (mkStore [] [mkQuizResult (Some "b") 30 (mkSummary 10 5 5 0 50 None) [];
                                 mkQuizResult (Some "a") 10 (mkSummary 10 5 5 0 50 None) []]
                       [] [] None) 0 [] stackRoom)); reflexivity.
Defined.


(** *** Export *)

Lemma filter_known_nil {A B} `{EqDecision B} (f : A -> B) (l k : list A) :
  (forall x, x ∈ l -> f x ∈ (f <$> k)) ->
  filter (fun x => f x ∉ (f <$> k)) l = [].
Proof.
  intros Hall. induction l as [|x l IH]; [done|].
  rewrite filter_cons_False.
  - apply IH. intros y Hy. apply Hall. by right.
  - intros Hn. apply Hn, Hall. left.
Qed.

Lemma importCollections_nothing_new (E : Env) (data : Bundle)
    (o : ImportOptions) (w : World) :
  (forall dc c, b_collections data = Some dc -> c ∈ dc ->
                c_id c ∈ (c_id <$> collections (store w))) ->
  collections (store (snd (importCollections E data o w)))
  = collections (store w).
Proof.
  intros Hall. unfold importCollections.
  destruct (b_collections data) as [dc|] eqn:Hc; [|done].
  destruct (mergeCollections o); [|done]. unfold getAllCollections.
  rewrite (filter_known_nil c_id dc (collections (store w)))
    by (intros x Hx; by apply (Hall dc)).
  simpl. rewrite app_nil_r.
  match goal with |- context [setItem ?v ?w] =>
    pose proof (setItem_cases v w) as Hcase;
    destruct (setItem v w) as [[b|m] w2] end;
    simpl in *; (destruct Hcase as [->|Hcase]; [done|apply Hcase]).
Qed.

(** The collections after an import, whatever the writes do: those the
    collections section leaves, or the ones from before when the questions
    section throws. *)
Lemma importData_collections (E : Env) (data : Bundle) (o : ImportOptions)
    (w : World) :
  let rq := importQuestions E data o 0 w in
  let rc := importCollections E data o (snd rq) in
  collections (store (snd rq)) = collections (store w)
  /\ (collections (store (snd (importData E data o w)))
      = collections (store (snd rq))
      \/ collections (store (snd (importData E data o w)))
         = collections (store (snd rc))).
Proof.
  intros rq rc. split; [apply importQuestions_collections|].
  pose proof (importData_path E data o w) as Hp. cbv zeta in Hp.
  fold rq in Hp. fold rc in Hp.
  destruct (fst (fst rq)) as [n|m]; [|left; by destruct Hp as [_ ->]].
  right.
  pose proof (importHistory_frame data o (snd rc)) as [_ Hh].
  pose proof (importSettings_frame data o (snd (importHistory data o (snd rc))))
    as [_ Hs].
  pose proof (logImport_frame E data n
                (snd (importSettings data o (snd (importHistory data o (snd rc))))))
    as [_ Hl].
  destruct (fst (fst rc)); [|by destruct Hp as [_ ->]].
  destruct (fst (importHistory data o (snd rc))); [|by destruct Hp as [_ ->]].
  destruct (fst (importSettings data o _));
    [|destruct Hp as [_ ->]; congruence].
  destruct (fst (logImport E data n _)); destruct Hp as [_ ->]; congruence.
Qed.

(** X12.  Importing what [exportData] has just exported adds nothing,
    whatever the writes do: the stored questions and collections are those
    from before, and the import reports 0 questions, unless a write runs out
    of stack and the import reports the failure. *)
Theorem importData_of_own_export (E : Env) (includeHistory : bool) (w : World) :
  let data := fst (exportData E includeHistory w) in
  let w1 := snd (exportData E includeHistory w) in
  let r := importData E data defaultOptions w1 in
  (fst (fst r) = ImportSuccess 0 \/ fst (fst r) = ImportFailure stackOverflow)
  /\ ((quotaFailures (fates w) <= stack w)%nat -> fst (fst r) = ImportSuccess 0)
  /\ questions (store (snd r)) = questions (store w)
  /\ collections (store (snd r)) = collections (store w).
Proof.
  intros data w1 r. subst data w1 r. unfold exportData, now.
  cbn [fst snd]. unfold getAllQuestions, getAllCollections.
  cbn [next_tick store].
  set (w1 := next_tick w).
  set (data := mkBundle _ _ _ _ _ _).
  assert (Hq : questions (store (snd (importQuestions E data defaultOptions 0 w1)))
               = questions (store w)).
  { apply (importQuestions_nothing_new E data defaultOptions 0 w1 eq_refl).
    intros dq q [= <-] Hin. by apply list_elem_of_fmap_2. }
  assert (Hn : length (filter (fun q => q_id q ∉ (q_id <$> questions (store w1)))
                         (questions (store w))) = 0%nat).
  { rewrite (filter_known_nil q_id (questions (store w)) (questions (store w)));
      [done|]. intros x Hx. by apply list_elem_of_fmap_2. }
  destruct (importData_result E data defaultOptions w1) as [H1 H2].
  cbn [b_questions data mergeQuestions defaultOptions] in H1, H2.
  rewrite Hn in H1, H2.
  split; [exact H1|]. split; [exact H2|]. split.
  - by rewrite (proj1 (importData_questions E data defaultOptions w1)).
  - destruct (importData_collections E data defaultOptions w1) as [Hc [-> | ->]];
      [exact Hc|].
    rewrite importCollections_nothing_new; [exact Hc|].
    intros dc c [= <-] Hin. rewrite Hc. by apply list_elem_of_fmap_2.
Qed.

End ExchangeFacts.

(* ===================================================================== *)
(** ** The history: its bound, the clean-up at start-up, the statistics   *)
(* ===================================================================== *)

Module LedgerFacts.
Import Storage Spec Sample StorageFacts.

(** *** The bound of the history *)

Lemma setItem_history_length (v : Value) (w : World) :
  (length (history (store (snd (setItem v w))))
   <= Nat.max (length (history (store w)))
        (match v with VHistory h => length h | _ => 0 end))%nat.
Proof.
  destruct (setItem_cases v w) as [->|(_ & _ & _ & [k ->] & _)].
  - destruct v; simpl; lia.
  - rewrite length_take. lia.
Qed.

Lemma setItem_other_history_length (v : Value) (w : World) :
  (forall h, v <> VHistory h) ->
  (length (history (store (snd (setItem v w))))
   <= length (history (store w)))%nat.
Proof.
  intros Hv. pose proof (setItem_history_length v w) as H.
  destruct v; try lia. by destruct (Hv h).
Qed.

Lemma importData_history_length (E : Env) (data : Bundle) (o : ImportOptions)
    (w : World) :
  (length (history (store (snd (importData E data o w))))
   <= Nat.max (length (history (store w))) 100)%nat.
Proof.
  pose proof (ExchangeFacts.importData_path E data o w) as Hp. cbv zeta in Hp.
  assert (H1 : (length (history (store (snd (importQuestions E data o 0 w))))
                <= length (history (store w)))%nat).
  { unfold importQuestions. destruct (b_questions data) as [dq|]; [|done].
    destruct (mergeQuestions o);
      match goal with |- context [forEach ?f ?l ?w] =>
        pose proof (forEach_frame f l (stampQuestion_store E)
                      (stampQuestion_fates E) w) as (Hs & _ & _);
        destruct (forEach f l w) as [l' w1] end;
      simpl in Hs;
      match goal with |- context [setItem ?v ?w] =>
        pose proof (setItem_other_history_length v w) as Hc;
        destruct (setItem v w) as [[b|m] w2] end;
      simpl in *; rewrite <- Hs; apply Hc; intros ? ?; discriminate. }
  set (rq := importQuestions E data o 0 w) in *.
  assert (H2 : (length (history (store (snd (importCollections E data o (snd rq)))))
                <= length (history (store (snd rq))))%nat).
  { unfold importCollections. destruct (b_collections data) as [dc|]; [|done].
    destruct (mergeCollections o); [|done].
    match goal with |- context [forEach ?f ?l ?w] =>
      pose proof (forEach_frame f l (stampCollection_store E)
                    (stampCollection_fates E) w) as (Hs & _ & _);
      destruct (forEach f l w) as [l' w1'] end.
    simpl in Hs.
    match goal with |- context [setItem ?v ?w] =>
      pose proof (setItem_other_history_length v w) as Hc;
      destruct (setItem v w) as [[b|m] w2] end;
      simpl in *; rewrite <- Hs; apply Hc; intros ? ?; discriminate. }
  set (rc := importCollections E data o (snd rq)) in *.
  assert (H3 : (length (history (store (snd (importHistory data o (snd rc)))))
                <= Nat.max (length (history (store (snd rc)))) 100)%nat).
  { unfold importHistory. destruct (b_history data) as [dh|]; [|simpl; lia].
    destruct (mergeHistory o); [|simpl; lia].
    match goal with |- context [setItem ?v ?w] =>
      pose proof (setItem_history_length v w) as Hc;
      destruct (setItem v w) as [[b|m] w2] end;
      cbn [fst snd] in *; cbv beta iota in Hc; rewrite length_take in Hc; lia. }
  set (rh := importHistory data o (snd rc)) in *.
  assert (H4 : (length (history (store (snd (importSettings data o (snd rh)))))
                <= length (history (store (snd rh))))%nat).
  { unfold importSettings. destruct (b_settings data) as [st|]; [|done].
    destruct (overwriteSettings o); [|done].
    match goal with |- context [setItem ?v ?w] =>
      pose proof (setItem_other_history_length v w) as Hc;
      destruct (setItem v w) as [[b|m] w2] end;
      cbn [fst snd] in *; apply Hc; intros ? ?; discriminate. }
  set (rs := importSettings data o (snd rh)) in *.
  assert (H5 : forall n, (length (history (store (snd (logImport E data n (snd rs)))))
                          <= length (history (store (snd rs))))%nat).
  { intros n. unfold logImport, generateId, now.
    cbn [next_tick tick store fates].
    match goal with |- context [setItem ?v ?w] =>
      pose proof (setItem_other_history_length v w) as Hc;
      destruct (setItem v w) as [[b|m] w2] end;
      cbn [fst snd] in *;
      (etransitivity; [apply Hc; intros ? ?; discriminate|done]). }
  destruct (fst (fst rq)) as [n|m]; [|destruct Hp as [_ ->]; lia].
  specialize (H5 n).
  destruct (fst (fst rc)); [|destruct Hp as [_ ->]; lia].
  destruct (fst rh); [|destruct Hp as [_ ->]; lia].
  destruct (fst rs); [|destruct Hp as [_ ->]; lia].
  destruct (fst (logImport E data n (snd rs))); destruct Hp as [_ ->]; lia.
Qed.

(** X13.  A history of at most 100 results stays within 100 under
    [saveQuizResult], [importData], [restoreBackup], [cleanupOldEntries] and
    [handleStorageFull], whatever the writes do, also when the call throws. *)
Theorem history_stays_within_100 (E : Env)
    (sixMonthsBefore : Timestamp -> Timestamp) (w : World) :
  (length (history (store w)) <= 100)%nat ->
  (forall result,
     (length (history (store (snd (saveQuizResult E result w)))) <= 100)%nat)
  /\ (forall data o,
        (length (history (store (snd (importData E data o w)))) <= 100)%nat)
  /\ (forall backupData,
        (length (history (store (snd (restoreBackup E backupData w)))) <= 100)%nat)
  /\ (length (history (store (snd (cleanupOldEntries E sixMonthsBefore w))))
      <= 100)%nat
  /\ (length (history (store (snd (handleStorageFull w)))) <= 100)%nat.
Proof.
  intros Hw. split_and!.
  - intros result. unfold saveQuizResult, generateId, now.
    cbn [next_tick tick store fates].
    match goal with |- context [setItem (VHistory ?h) ?w] =>
      pose proof (setItem_history_length (VHistory h) w) as Hc;
      assert (Hh : (length h <= 100)%nat);
      [|destruct (setItem (VHistory h) w) as [[b|m] w2]] end.
    + destruct (100 <? _)%nat eqn:Hlen.
      * rewrite length_take. lia.
      * by apply Nat.ltb_ge in Hlen.
    + cbn [fst snd store] in *.
      change (store (next_tick (next_tick w))) with (store w) in Hc. lia.
    + cbn [fst snd store] in *.
      change (store (next_tick (next_tick w))) with (store w) in Hc. lia.
  - intros data o. pose proof (importData_history_length E data o w). lia.
  - intros backupData. unfold restoreBackup.
    destruct backupData as [b|]; [|done].
    destruct (bk_data b) as [data|]; [|done].
    pose proof (importData_history_length E data
                  (mkImportOptions false false true true) w) as H.
    destruct (importData E data _ w) as [[res d] w']. simpl in *. lia.
  - unfold cleanupOldEntries, now. cbn [next_tick tick store fates].
    destruct (_ <? _)%nat; [|done].
    match goal with |- context [setItem ?v ?w] =>
      pose proof (setItem_history_length v w) as Hc;
      destruct (setItem v w) as [[b|m] w2] end;
      cbn [fst snd] in *; cbv beta iota in Hc;
      (etransitivity; [exact Hc|]);
      (apply Nat.max_lub; [exact Hw|]);
      (etransitivity; [apply List.filter_length_le|]);
      change (getQuizHistory None (next_tick w))
        with (take 50 (history (store w)));
      rewrite length_take; lia.
  - destruct (handleStorageFull_cleaned w) as (_ & _ & _ & [k ->] & _).
    rewrite length_take. lia.
Qed.

(** The history of 51 results and the operations on it. *)
Lemma history_stays_within_100_witness :
  let w := saveAll E0 (results 51) w0 in
  (length (history (store w)) <= 100)%nat
  /\ (forall result,
        (length (history (store (snd (saveQuizResult E0 result w)))) <= 100)%nat)
  /\ (forall data o,
        (length (history (store (snd (importData E0 data o w)))) <= 100)%nat)
  /\ (forall backupData,
        (length (history (store (snd (restoreBackup E0 backupData w)))) <= 100)%nat)
  /\ (length (history (store (snd (cleanupOldEntries E0
                                         (fun t => (t - 1000)%Z) w))))
      <= 100)%nat
  /\ (length (history (store (snd (handleStorageFull w)))) <= 100)%nat.
Proof.
  assert (H : (length (history (store (saveAll E0 (results 51) w0))) <= 100)%nat)
    by (vm_compute; lia).
  split; [exact H|].
  apply (history_stays_within_100 E0 (fun t => (t - 1000)%Z)
           (saveAll E0 (results 51) w0) H).
Defined.


(** *** The clean-up at start-up *)

Lemma filter_all_or_less {A} (f : A -> bool) (l : list A) :
  (forallb f l = true /\ List.filter f l = l)
  \/ (forallb f l = false /\ (length (List.filter f l) < length l)%nat).
Proof.
  induction l as [|a l IH]; simpl; [by left|].
  pose proof (List.filter_length_le f l).
  destruct (f a); simpl.
  - destruct IH as [[-> ->]|[-> ?]]; [by left|right; split; [done|lia]].
  - right. split; [done|lia].
Qed.

Lemma filter_filter_same {A} (f : A -> bool) (l : list A) :
  List.filter f (List.filter f l) = List.filter f l.
Proof.
  induction l as [|a l IH]; simpl; [done|].
  destruct (f a) eqn:Ha; simpl; [rewrite Ha; by f_equal|done].
Qed.

Lemma filter_bool_sublist {A} (f : A -> bool) (l : list A) :
  List.filter f l `sublist_of` l.
Proof.
  induction l as [|a l IH]; simpl; [constructor|].
  destruct (f a); by constructor.
Qed.

(** The history [cleanupOldEntries] leaves when its write succeeds. *)
Lemma cleanupOldEntries_history (E : Env)
    (sixMonthsBefore : Timestamp -> Timestamp) (w : World) :
  fates w = [] ->
  let recent := fun item =>
    sixMonthsBefore (clock E (tick w)) <? r_timestamp item in
  let w' := snd (cleanupOldEntries E sixMonthsBefore w) in
  fst (cleanupOldEntries E sixMonthsBefore w) = Returned tt
  /\ fates w' = [] /\ tick w' = S (tick w)
  /\ questions (store w') = questions (store w)
  /\ collections (store w') = collections (store w)
  /\ ((forallb recent (take 50 (history (store w))) = true
       /\ history (store w') = history (store w))
      \/ (forallb recent (take 50 (history (store w))) = false
          /\ history (store w')
             = List.filter recent (take 50 (history (store w))))).
Proof.
  intros Hf recent w'. subst w'. unfold cleanupOldEntries, now.
  cbn [next_tick tick store fates].
  change (getQuizHistory None (next_tick w)) with (take 50 (history (store w))).
  fold recent.
  destruct (filter_all_or_less recent (take 50 (history (store w))))
    as [[Hall Heq]|[Hall Hlt]].
  - rewrite Heq, Nat.ltb_irrefl. cbn [fst snd]. split_and!; try done. by left.
  - apply Nat.ltb_lt in Hlt. rewrite Hlt.
    rewrite setItem_succeeds by exact Hf. cbn [fst snd].
    split_and!; try done. by right.
Qed.

(** X14.  After the clean-up at start-up, its write succeeding, none of
    the 50 most recent stored results is older than the cut-off; the history
    is a part of the one from before, in the same order: it is unchanged
    when none of its 50 most recent results is old, and is cut to the recent
    ones among these 50 otherwise. *)
Theorem cleanupOldEntries_drops_old (E : Env)
    (sixMonthsBefore : Timestamp -> Timestamp) (w : World) :
  fates w = [] ->
  let sixMonthsAgo := sixMonthsBefore (clock E (tick w)) in
  let h := history (store w) in
  let h' := history (store (snd (cleanupOldEntries E sixMonthsBefore w))) in
  Forall (fun r => sixMonthsAgo < r_timestamp r) (take 50 h')
  /\ h' `sublist_of` h
  /\ (Forall (fun r => sixMonthsAgo < r_timestamp r) (take 50 h) -> h' = h)
  /\ (~ Forall (fun r => sixMonthsAgo < r_timestamp r) (take 50 h) ->
      h' = List.filter (fun r => sixMonthsAgo <? r_timestamp r) (take 50 h)).
Proof.
  intros Hf sixMonthsAgo h h'. subst h h'.
  destruct (cleanupOldEntries_history E sixMonthsBefore w Hf)
    as (_ & _ & _ & _ & _ & Hcase). fold sixMonthsAgo in Hcase.
  assert (Hall : forall l,
             forallb (fun item => sixMonthsAgo <? r_timestamp item) l = true
             <-> Forall (fun r => sixMonthsAgo < r_timestamp r) l).
  { intros l. rewrite forallb_forall, Forall_forall.
    split; intros H x Hx.
    - apply Z.ltb_lt, H. by apply list_elem_of_In.
    - apply Z.ltb_lt, H. by apply list_elem_of_In. }
  destruct Hcase as [[Hok ->]|[Hbad ->]].
  - apply Hall in Hok. split_and!; [done|done|done|]. by intros [].
  - split_and!.
    + apply Forall_take, Forall_forall.
      intros r Hr%list_elem_of_In. apply filter_In in Hr as [_ Hr].
      by apply Z.ltb_lt.
    + etransitivity; [apply filter_bool_sublist|apply sublist_take].
    + intros Hok%Hall. congruence.
    + done.
Qed.

(** A history of an old and a recent result cleaned. *)
Lemma cleanupOldEntries_drops_old_witness :
  let r (i : string) (t : Z) :=
    mkQuizResult (Some i) t (mkSummary 10 5 5 0 50 None) [] in
  let w := mkWorld (mkStore [] [r "b" 900; r "a" 100] [] [] None) 0 [] stackRoom in
  let sixMonthsBefore := fun t : Timestamp => t - 500 in
  fates w = []
  /\ let sixMonthsAgo := sixMonthsBefore (clock E0 (tick w)) in
     let h := history (store w) in
     let h' := history (store (snd (cleanupOldEntries E0 sixMonthsBefore w))) in
     Forall (fun r => sixMonthsAgo < r_timestamp r) (take 50 h')
     /\ h' `sublist_of` h
     /\ (Forall (fun r => sixMonthsAgo < r_timestamp r) (take 50 h) -> h' = h)
     /\ (~ Forall (fun r => sixMonthsAgo < r_timestamp r) (take 50 h) ->
         h' = List.filter (fun r => sixMonthsAgo <? r_timestamp r) (take 50 h)).
Proof.
  split; [reflexivity|].
  apply (cleanupOldEntries_drops_old E0 (fun t : Timestamp => t - 500)
           (mkWorld (mkStore []
                       [mkQuizResult (Some "b") 900 (mkSummary 10 5 5 0 50 None) [];
                        mkQuizResult (Some "a") 100 (mkSummary 10 5 5 0 50 None) []]
                       [] [] None) 0 [] stackRoom)).
  reflexivity.
Defined.

(** X15.  The clean-up is idempotent: run a second time with the same
    cut-off, its writes succeeding, it leaves the store as the first run
    left it. *)
Theorem cleanupOldEntries_idempotent (E : Env)
    (sixMonthsBefore : Timestamp -> Timestamp) (w : World) :
  fates w = [] ->
  sixMonthsBefore (clock E (S (tick w))) = sixMonthsBefore (clock E (tick w)) ->
  let w1 := snd (cleanupOldEntries E sixMonthsBefore w) in
  store (snd (cleanupOldEntries E sixMonthsBefore w1)) = store w1.
Proof.
  intros Hf Hcut w1.
  destruct (cleanupOldEntries_history E sixMonthsBefore w Hf)
    as (_ & Hf1 & Ht1 & _ & _ & Hcase). fold w1 in Hf1, Ht1, Hcase.
  destruct (cleanupOldEntries_history E sixMonthsBefore w1 Hf1)
    as (_ & _ & _ & Hq & Hc & Hcase').
  rewrite Ht1, Hcut in Hcase'.
  set (recent := fun item => sixMonthsBefore (clock E (tick w)) <? r_timestamp item)
    in *.
  assert (Hsame : history (store (snd (cleanupOldEntries E sixMonthsBefore w1)))
                  = history (store w1)).
  { destruct Hcase' as [[_ ->]|[Hbad ->]]; [done|].
    destruct Hcase as [[Hok Hh]|[_ Hh]].
    - rewrite Hh in Hbad. congruence.
    - rewrite Hh. rewrite take_ge; [apply filter_filter_same|].
      etransitivity; [apply List.filter_length_le|].
      rewrite length_take. lia. }
  assert (Hrest : settings (store (snd (cleanupOldEntries E sixMonthsBefore w1)))
                  = settings (store w1)
                  /\ imports (store (snd (cleanupOldEntries E sixMonthsBefore w1)))
                     = imports (store w1)).
  { unfold cleanupOldEntries, now. cbn [next_tick tick store fates].
    destruct (_ <? _)%nat; [|done].
    rewrite setItem_succeeds by exact Hf1. done. }
  destruct Hrest as [Hs Hi].
  destruct (store (snd (cleanupOldEntries E sixMonthsBefore w1))), (store w1).
  simpl in *. congruence.
Qed.

(** Two runs at a clock that stands still. *)
Lemma cleanupOldEntries_idempotent_witness :
  let r (i : string) (t : Z) :=
    mkQuizResult (Some i) t (mkSummary 10 5 5 0 50 None) [] in
  let w := mkWorld (mkStore [] [r "b" 900; r "a" 100] [] [] None) 0 [] stackRoom in
  let sixMonthsBefore := fun t : Timestamp => t / 1000 * 1000 - 500 in
  fates w = []
  /\ sixMonthsBefore (clock E0 (S (tick w))) = sixMonthsBefore (clock E0 (tick w))
  /\ let w1 := snd (cleanupOldEntries E0 sixMonthsBefore w) in
     store (snd (cleanupOldEntries E0 sixMonthsBefore w1)) = store w1.
Proof.
  split; [reflexivity|]. split; [reflexivity|].
  apply (cleanupOldEntries_idempotent E0 (fun t : Timestamp => t / 1000 * 1000 - 500)
           (mkWorld (mkStore []
                       [mkQuizResult (Some "b") 900 (mkSummary 10 5 5 0 50 None) [];
                        mkQuizResult (Some "a") 100 (mkSummary 10 5 5 0 50 None) []]
                       [] [] None) 0 [] stackRoom)); reflexivity.
Defined.


(** *** Statistics *)







End LedgerFacts.

(* ===================================================================== *)
(** ** The form data, the tags and the parsed questions                   *)
(* ===================================================================== *)

Module FormFacts.
Import Creator Spec Sample.

(** *** Validation *)

Lemma remove_dups_length {A} `{EqDecision A} (l : list A) :
  (length (remove_dups l) <= length l)%nat.
Proof. induction l as [|x l IH]; simpl; [done|]. case_decide; simpl; lia. Qed.

Lemma remove_dups_length_NoDup {A} `{EqDecision A} (l : list A) :
  length (remove_dups l) = length l <-> NoDup l.
Proof.
  induction l as [|x l IH]; simpl.
  - split; [constructor|done].
  - pose proof (remove_dups_length l). rewrite NoDup_cons. case_decide; simpl.
    + split; [lia|]. by intros [? _].
    + rewrite <- IH. split; [intros; split; [done|lia]|intros [_ ?]; lia].
Qed.

Lemma if_error_nil {A} (c : bool) (e : A) :
  (if c then [e] else []) = [] <-> c = false.
Proof. destruct c; split; congruence. Qed.

(** X17.  Whatever the lower-casing of the platform is, [validateQuestion]
    accepts exactly the form data whose text has at least 10 code units and
    which, unless the type is 'open', has at least two options, none of them
    blank, no two of them with the same lower-cased form, and a correct
    index that, when it is a number, is below the number of options.  (No
    upper bound on the number of options and no lower bound on the index is
    checked, and an index that is no number passes.) *)
Theorem validateQuestion_accepts (toLowerCase : jsstring -> jsstring)
    (questionData : QuestionData) :
  validateQuestion toLowerCase questionData = true <->
  (10 <= length (qd_text questionData))%nat
  /\ (qd_type questionData = js "open"
      \/ ((2 <= length (qd_options questionData))%nat
          /\ Forall (fun opt => trim opt <> []) (qd_options questionData)
          /\ NoDup (toLowerCase <$> qd_options questionData)
          /\ (forall correct,
                qd_correct questionData = Some correct ->
                correct < Z.of_nat (length (qd_options questionData))))).
Proof.
  unfold validateQuestion.
  assert (Hnil : forall l : list ValidationError,
             match l with [] => true | _ :: _ => false end = true <-> l = [])
    by (intros []; split; congruence).
  rewrite Hnil. unfold validationErrors.
  rewrite app_nil, if_error_nil.
  assert (Htext : isEmpty (qd_text questionData)
                  || (length (qd_text questionData) <? 10)%nat = false
                  <-> (10 <= length (qd_text questionData))%nat).
  { rewrite orb_false_iff, Nat.ltb_ge.
    destruct (qd_text questionData); simpl; intuition (try lia; try done). }
  rewrite Htext. apply and_iff_compat_l.
  destruct (bool_decide_reflect (qd_type questionData = js "open")) as [Hopen|Hopen];
    cbn [negb]; [by intuition|].
  rewrite !app_nil, !if_error_nil.
  rewrite Nat.ltb_ge, Nat.ltb_ge, negb_false_iff, Nat.eqb_eq.
  unfold setSize.
  assert (Hblank : (length (List.filter (fun opt => isEmpty (trim opt))
                              (qd_options questionData)) <= 0)%nat
                   <-> Forall (fun opt => trim opt <> []) (qd_options questionData)).
  { induction (qd_options questionData) as [|opt l IH]; simpl.
    - split; [constructor|lia].
    - rewrite Forall_cons. destruct (trim opt) eqn:Ht; simpl.
      + split; [lia|]. by intros [? _].
      + rewrite IH. split; [by intros; split|by intros [_ ?]]. }
  assert (Hcorrect :
            match qd_correct questionData with
            | Some correct =>
                Z.of_nat (length (qd_options questionData)) <=? correct
            | None => false
            end = false
            <-> forall correct,
                  qd_correct questionData = Some correct ->
                  correct < Z.of_nat (length (qd_options questionData))).
  { destruct (qd_correct questionData) as [c|].
    - rewrite Z.leb_gt. split; [by intros H c' [= <-]|intros H; by apply H].
    - split; [intros _ c; discriminate|done]. }
  rewrite Hblank, Hcorrect.
  rewrite <- (length_fmap toLowerCase (qd_options questionData)) at 2.
  rewrite remove_dups_length_NoDup. intuition.
Qed.

(** The folding matters.  The options 'Ωmega' and 'ωmega' differ in their
    first letter, which is no letter of Latin-1: a lower-casing that leaves
    it alone accepts the form, one that folds the capital omega onto the
    small one finds the options duplicated and rejects it. *)
Example validateQuestion_omega :
  let omega := fun c : Z => if c =? 937 then 969 else c in
  let form :=
    mkQuestionData (js "Which letter is the last one?") (js "multiple")
      [937 :: js "mega"; 969 :: js "mega"] (Some 0) [] (js "easy") [] []
      0 "q_1" in
  validateQuestion (fun s => omega <$> toLowerCase s) form = false
  /\ validateQuestion toLowerCase form = true.
Proof. vm_compute. split; reflexivity. Qed.


(** *** Tags *)

Lemma split_on_aux_no_sep (sep : Z) (s : jsstring) :
  forall cur, sep ∉ s -> split_on_aux sep cur s = [reverse cur ++ s].
Proof.
  induction s as [|c s IH]; intros cur Hs; simpl.
  - by rewrite app_nil_r.
  - apply not_elem_of_cons in Hs as [Hc Hs].
    destruct (Z.eqb_spec c sep) as [->|_]; [done|].
    rewrite IH by done. by rewrite reverse_cons, <- app_assoc.
Qed.

Lemma split_on_aux_sep (sep : Z) (t rest : jsstring) :
  forall cur,
    sep ∉ t ->
    split_on_aux sep cur (t ++ sep :: rest)
    = (reverse cur ++ t) :: split_on_aux sep [] rest.
Proof.
  induction t as [|c t IH]; intros cur Ht; simpl.
  - by rewrite Z.eqb_refl, app_nil_r.
  - apply not_elem_of_cons in Ht as [Hc Ht].
    destruct (Z.eqb_spec c sep) as [->|_]; [done|].
    rewrite IH by done. by rewrite reverse_cons, <- app_assoc.
Qed.

Lemma split_on_aux_pieces (sep : Z) (s : jsstring) :
  forall cur piece,
    sep ∉ cur -> piece ∈ split_on_aux sep cur s -> sep ∉ piece.
Proof.
  induction s as [|c s IH]; intros cur piece Hcur; simpl.
  - intros ->%list_elem_of_singleton. by rewrite elem_of_reverse.
  - destruct (Z.eqb_spec c sep) as [->|Hc].
    + intros [->|Hp]%elem_of_cons; [by rewrite elem_of_reverse|].
      apply (IH [] piece); [apply not_elem_of_nil|done].
    + apply IH. by apply not_elem_of_cons.
Qed.

Lemma dropWhile_elem_of (p : Z -> bool) (s : jsstring) (x : Z) :
  x ∈ dropWhile p s -> x ∈ s.
Proof.
  induction s as [|c s IH]; simpl; [done|].
  destruct (p c); [|done]. intros Hx. right. by apply IH.
Qed.

Lemma trim_elem_of (s : jsstring) (x : Z) : x ∈ trim s -> x ∈ s.
Proof.
  unfold trim. rewrite elem_of_reverse.
  intros Hx%dropWhile_elem_of. rewrite elem_of_reverse in Hx.
  by apply dropWhile_elem_of in Hx.
Qed.

Lemma joinTags_split (ts : list jsstring) :
  forall t cur,
    Forall (fun t => COMMA ∉ t) (t :: ts) ->
    split_on_aux COMMA cur (joinWith [COMMA; 32] (t :: ts))
    = (reverse cur ++ t) :: ((fun t' => 32 :: t') <$> ts).
Proof.
  induction ts as [|t' ts IH]; intros t cur Hall.
  - simpl. apply split_on_aux_no_sep. by inversion Hall.
  - inversion Hall as [|? ? Ht Hrest]; subst.
    change (joinWith [COMMA; 32] (t :: t' :: ts))
      with (t ++ COMMA :: 32 :: joinWith [COMMA; 32] (t' :: ts)).
    rewrite split_on_aux_sep by done. f_equal.
    change (split_on_aux COMMA [] (32 :: joinWith [COMMA; 32] (t' :: ts)))
      with (split_on_aux COMMA [32] (joinWith [COMMA; 32] (t' :: ts))).
    by rewrite IH.
Qed.

(** X18.  The tags [parseTags] returns are not empty and hold no comma;
    a category that is missing or empty has no tags. *)
Theorem parseTags_tags (category : option jsstring) :
  Forall (fun tag => tag <> [] /\ COMMA ∉ tag) (parseTags category)
  /\ parseTags None = [] /\ parseTags (Some []) = [].
Proof.
  split; [|done]. unfold parseTags.
  destruct category as [c|]; [|constructor].
  destruct (isEmpty c); [constructor|].
  apply Forall_forall. intros tag Htag%list_elem_of_In.
  apply filter_In in Htag as [Hin Hne]. split.
  - by destruct tag.
  - apply list_elem_of_In, list_elem_of_fmap in Hin as (piece & -> & Hpiece).
    intros Hc%trim_elem_of. revert Hc.
    eapply split_on_aux_pieces; [|exact Hpiece]. apply not_elem_of_nil.
Qed.

(** X19.  Tags that are not empty, hold no comma and no white space at
    either end are read back from their list joined with a comma and a
    space. *)
Theorem parseTags_joined (tags : list jsstring) :
  tags <> [] ->
  Forall (fun t => t <> [] /\ (COMMA ∉ t) /\ trim t = t) tags ->
  parseTags (Some (joinWith [COMMA; 32] tags)) = tags.
Proof.
  intros Hne Hall. destruct tags as [|t ts]; [done|]. clear Hne.
  unfold parseTags.
  assert (Hjoin : isEmpty (joinWith [COMMA; 32] (t :: ts)) = false).
  { inversion Hall as [|? ? (Ht & _ & _) _]; subst.
    destruct t; [done|]. by destruct ts. }
  rewrite Hjoin. unfold split_on.
  rewrite joinTags_split
    by (eapply Forall_impl; [exact Hall|]; by intros ? (_ & ? & _)).
  simpl reverse. rewrite app_nil_l.
  assert (Htrim : forall l,
             Forall (fun t => t <> [] /\ (COMMA ∉ t) /\ trim t = t) l ->
             List.filter (fun tag => negb (isEmpty tag))
               (trim <$> ((fun t' => 32 :: t') <$> l)) = l).
  { induction 1 as [|x l (Hx & _ & Hxt) _ IH]; [done|].
    rewrite !fmap_cons.
    change (trim (32 :: x)) with (trim x). rewrite Hxt.
    cbn [List.filter]. destruct x; [done|]. cbn [isEmpty negb]. by rewrite IH. }
  inversion Hall as [|? ? (Ht & _ & Htt) Hts]; subst.
  rewrite fmap_cons, Htt. cbn [List.filter].
  destruct t; [done|]. cbn [isEmpty negb]. by rewrite Htrim.
Qed.

(** Three tags written with a comma and a space between them. *)
Lemma parseTags_joined_witness :
  let tags := [js "history"; js "Brazil"; js "capital cities"] in
  tags <> []
  /\ Forall (fun t => t <> [] /\ (COMMA ∉ t) /\ trim t = t) tags
  /\ parseTags (Some (joinWith [COMMA; 32] tags)) = tags.
Proof.
  assert (H : Forall (fun t => t <> [] /\ (COMMA ∉ t) /\ trim t = t)
                [js "history"; js "Brazil"; js "capital cities"]).
  { apply (bool_decide_unpack _). vm_compute. exact I. }
  split; [discriminate|]. split; [exact H|].
  apply (parseTags_joined [js "history"; js "Brazil"; js "capital cities"]);
    [discriminate|exact H].
Defined.


(** *** The parsed questions *)

Lemma loopBody_options (lines : list jsstring) :
  forall st,
    Forall (fun o => isOptionLine o = true) (ls_options st) ->
    Forall (fun o => isOptionLine o = true)
      (ls_options (fold_left loopBody lines st)).
Proof.
  induction lines as [|line lines IH]; intros st Hst; [exact Hst|].
  simpl. apply IH. unfold loopBody.
  destruct (isOptionLine line) eqn:Ho.
  - simpl. apply Forall_app. split; [exact Hst|]. by repeat constructor.
  - destruct (isAnswerLine line); [exact Hst|].
    destruct (isExplanationLine line); exact Hst.
Qed.

Lemma parseSingleQuestionFromText_shape (block : jsstring) (q : TextQuestion) :
  parseSingleQuestionFromText block = Some q ->
  text q <> [] /\ type q = js "multiple"
  /\ Forall (fun o => isOptionLine o = true) (options q)
  /\ explanation q <> [].
Proof.
  unfold parseSingleQuestionFromText.
  set (lines := List.filter _ _).
  assert (Hlines : Forall (fun l => l <> []) lines).
  { apply Forall_forall. intros l Hl%list_elem_of_In.
    apply filter_In in Hl as [_ Hl]. by destruct l. }
  destruct (length lines <? 3)%nat; [discriminate|].
  destruct lines as [|questionText rest]; [discriminate|].
  pose proof (loopBody_options rest (mkLoopState [] [] []) (Forall_nil_2 _))
    as Hopts.
  set (st := fold_left loopBody rest _) in *.
  destruct (_ || _); [discriminate|].
  destruct (_ || _); [discriminate|].
  intros [= <-]. cbn [text type options explanation].
  split_and!; [by inversion Hlines|done|exact Hopts|].
  destruct (ls_explanation st); [by vm_compute|done].
Qed.

(** X20.  Every question [parseMultipleQuestionsFromText] returns has a
    text that is not empty, the type 'multiple', options that all start
    with a letter and a closing parenthesis, at least two of them, a correct
    index that is the index of one of them, an explanation that is not
    empty, the difficulty 'medium' and the category 'Importada'; there is at
    most one question a block. *)
Theorem parseMultipleQuestionsFromText_questions (E : Storage.Env)
    (text_ : jsstring) (tick : nat) :
  let found := parseMultipleQuestionsFromText E text_ tick in
  Forall (fun iq =>
            let q := iq_question iq in
            text q <> [] /\ type q = js "multiple"
            /\ Forall (fun o => isOptionLine o = true) (options q)
            /\ (2 <= length (options q))%nat
            /\ 0 <= correct q < Z.of_nat (length (options q))
            /\ explanation q <> []
            /\ iq_difficulty iq = js "medium"
            /\ iq_category iq = js "Importada") found
  /\ (length found <= length (split_blocks text_))%nat.
Proof.
  intros found. subst found. unfold parseMultipleQuestionsFromText.
  generalize (split_blocks text_). intros blocks. revert tick.
  induction blocks as [|block blocks IH]; intros tick; simpl.
  - split; [constructor|lia].
  - destruct (parseSingleQuestionFromText block) as [q|] eqn:Hq.
    + destruct (IH (S (S tick))) as [Hall Hlen]. split; [|simpl; lia].
      constructor; [|exact Hall]. cbn [iq_question iq_difficulty iq_category].
      destruct (parseSingleQuestionFromText_shape block q Hq) as (? & ? & ? & ?).
      destruct (CreatorFacts.parseSingleQuestionFromText_valid block q Hq)
        as (? & ?).
      split_and!; try done; lia.
    + destruct (IH tick) as [Hall Hlen]. split; [exact Hall|lia].
Qed.


(** X21.  Whatever letter follows the colon of the answer line, the
    correct index of a question [parseSingleQuestionFromText] returns is 0
    (from the A of "Answer") or 17 (from the R of "Resposta"): the letter is
    the first letter of the whole answer line. *)
Theorem parseSingleQuestionFromText_answer_letter (block : jsstring)
    (q : TextQuestion) :
  parseSingleQuestionFromText block = Some q ->
  (correct q = 0 \/ correct q = 17)
  /\ (17 < Z.of_nat (length (options q)) \/ correct q = 0).
Proof.
  intros Hq.
  destruct (CreatorFacts.parseSingleQuestionFromText_correct block q Hq)
    as [H0|H17]; [auto|].
  destruct (CreatorFacts.parseSingleQuestionFromText_valid block q Hq)
    as [_ Hrange].
  split; [by right|left; lia].
Qed.

(** A block whose answer line reads "Answer: C": the correct index is 0. *)
Lemma parseSingleQuestionFromText_answer_letter_witness :
  parseSingleQuestionFromText answerBlock = Some answerQuestion
  /\ (correct answerQuestion = 0 \/ correct answerQuestion = 17)
  /\ (17 < Z.of_nat (length (options answerQuestion))
      \/ correct answerQuestion = 0).
Proof.
  assert (H : parseSingleQuestionFromText answerBlock = Some answerQuestion)
    by (vm_compute; reflexivity).
  split; [exact H|].
  apply (parseSingleQuestionFromText_answer_letter answerBlock answerQuestion H).
Defined.

End FormFacts.

(* ===================================================================== *)
(** ** The strategies of the fetch event and the caches                   *)
(* ===================================================================== *)

Module StrategyFacts.
Import Worker Spec WorkerFacts.

(** *** Caches *)

Lemma caches_match_open_put_miss (name : string) (request : Request)
    (r : Response) (cs : CacheStorage) :
  put_rejects request r = false ->
  caches_match (url request) cs = None ->
  caches_match (url request) (open_put name request r cs) = Some r.
Proof.
  intros Hp. induction cs as [|[n c] cs IH]; simpl.
  - by rewrite cache_match_put.
  - destruct (cache_match (url request) c) eqn:Hc; [discriminate|]. intros Hcs.
    destruct (String.eqb n name); simpl.
    + by rewrite cache_match_put.
    + rewrite Hc. by apply IH.
Qed.

Lemma cache_named_open_put_other (name name' : string) (request : Request)
    (r : Response) (cs : CacheStorage) :
  name <> name' ->
  cache_named name (open_put name' request r cs) = cache_named name cs.
Proof.
  intros Hne. unfold cache_named. induction cs as [|[n c] cs IH]; simpl.
  - destruct (String.eqb_spec name' name); [congruence|done].
  - destruct (String.eqb_spec n name') as [->|Hn]; simpl.
    + destruct (String.eqb_spec name' name); [congruence|done].
    + destruct (String.eqb n name); [done|exact IH].
Qed.

Lemma cache_set_only_ok (u : string) (r : Response) (c : Cache) :
  ok r = true ->
  Forall (fun kv : string * Response => ok (snd kv) = true) c ->
  Forall (fun kv : string * Response => ok (snd kv) = true) (cache_set u r c).
Proof.
  intros Hr. induction 1 as [|[k r'] c Hk Hc IH]; simpl.
  - by repeat constructor.
  - destruct (String.eqb k u); constructor; done.
Qed.

Lemma cache_put_only_ok (request : Request) (r : Response) (c : Cache) :
  ok r = true ->
  Forall (fun kv : string * Response => ok (snd kv) = true) c ->
  Forall (fun kv : string * Response => ok (snd kv) = true)
    (cache_put request r c).
Proof.
  intros Hr Hc. unfold cache_put.
  destruct (put_rejects request r); [done|by apply cache_set_only_ok].
Qed.

Lemma open_put_only_ok (name : string) (request : Request) (r : Response)
    (cs : CacheStorage) :
  ok r = true -> only_ok cs -> only_ok (open_put name request r cs).
Proof.
  intros Hr. unfold only_ok. induction 1 as [|[n c] cs Hc Hcs IH]; simpl.
  - constructor; [|constructor]. simpl. by apply cache_put_only_ok.
  - destruct (String.eqb n name); constructor; try done.
    simpl. by apply cache_put_only_ok.
Qed.

(** The cache storage after a fetch event is the one from before or has
    the response of the network, of a status 2xx, put into the static or the
    dynamic cache. *)
Lemma onFetch_storage (root : string) (request : Request) (net : Network)
    (cs : CacheStorage) :
  snd (onFetch root request net cs) = cs
  \/ exists name r,
       (name = STATIC_CACHE_NAME \/ name = DYNAMIC_CACHE_NAME)
       /\ net = Some r /\ ok r = true
       /\ snd (onFetch root request net cs) = open_put name request r cs.
Proof.
  unfold onFetch.
  destruct (fetchListener request); simpl; auto.
  - unfold cacheFirst. destruct (caches_match _ cs) as [cached|]; simpl; auto.
    destruct net as [nr|]; simpl; auto.
    destruct (ok nr) eqn:Hr; auto. right. exists STATIC_CACHE_NAME, nr. auto.
  - unfold networkFirst. destruct net as [nr|]; simpl.
    + destruct (ok nr) eqn:Hr; auto. right. exists DYNAMIC_CACHE_NAME, nr. auto.
    + destruct (caches_match _ cs); auto.
  - unfold cacheFirstWithRefresh.
    destruct (caches_match _ cs) as [cached|]; simpl.
    + destruct net as [nr|]; simpl; auto.
      destruct (ok nr) eqn:Hr; auto. right. exists DYNAMIC_CACHE_NAME, nr. auto.
    + destruct net as [nr|]; simpl.
      * destruct (ok nr) eqn:Hr; auto. right. exists DYNAMIC_CACHE_NAME, nr. auto.
      * destruct (String.eqb (mode request) "navigate"); auto.
Qed.

(** X22.  A fetch event never caches a response whose status is not 2xx:
    a cache storage that holds only such responses holds only such responses
    afterwards, whatever the request and the network. *)
Theorem onFetch_caches_only_ok (root : string) (request : Request)
    (net : Network) (cs : CacheStorage) :
  only_ok cs -> only_ok (snd (onFetch root request net cs)).
Proof.
  intros Hcs.
  destruct (onFetch_storage root request net cs)
    as [->|(name & r & _ & _ & Hr & ->)]; [done|].
  by apply open_put_only_ok.
Qed.

(** X23.  A fetch event writes to the static and the dynamic cache only:
    a cache of another name holds afterwards what it held before. *)
Theorem onFetch_other_caches (root : string) (request : Request)
    (net : Network) (cs : CacheStorage) (name : string) :
  name <> STATIC_CACHE_NAME -> name <> DYNAMIC_CACHE_NAME ->
  cache_named name (snd (onFetch root request net cs)) = cache_named name cs.
Proof.
  intros Hs Hd.
  destruct (onFetch_storage root request net cs)
    as [->|(name' & r & [-> | ->] & _ & _ & ->)]; [done| |];
    by apply cache_named_open_put_other.
Qed.


(** A request for an asset of the application, answered 404 by the
    network, on a storage that holds a page in the static cache. *)
Lemma onFetch_caches_only_ok_witness :
  let cs := [(STATIC_CACHE_NAME, [("https://quiz.example/", mkResponse 200 "OK" "<html>" [])])] in
  let request := mkRequest "GET" "https://quiz.example/assets/logo.png" "https:"
                   "/assets/logo.png" "no-cors" in
  only_ok cs
  /\ only_ok (snd (onFetch "https://quiz.example/" request
                     (Some (mkResponse 404 "Not Found" "" [])) cs)).
Proof.
  assert (H : only_ok [(STATIC_CACHE_NAME,
                        [("https://quiz.example/", mkResponse 200 "OK" "<html>" [])])])
    by (repeat constructor).
  split; [exact H|].
  apply (onFetch_caches_only_ok "https://quiz.example/"
           (mkRequest "GET" "https://quiz.example/assets/logo.png" "https:"
              "/assets/logo.png" "no-cors")
           (Some (mkResponse 404 "Not Found" "" [])) _ H).
Defined.

(** A cache of another application during a fetch that fills the dynamic
    cache. *)
Lemma onFetch_other_caches_witness :
  let cs := [("other-app-v1", [("https://quiz.example/x", mkResponse 200 "OK" "x" [])])] in
  let request := mkRequest "GET" "https://quiz.example/api/questions" "https:"
                   "/api/questions" "cors" in
  "other-app-v1" <> STATIC_CACHE_NAME /\ "other-app-v1" <> DYNAMIC_CACHE_NAME
  /\ cache_named "other-app-v1"
       (snd (onFetch "https://quiz.example/" request
               (Some (mkResponse 200 "OK" "[]" [])) cs))
     = cache_named "other-app-v1" cs.
Proof.
  split; [discriminate|]. split; [discriminate|].
  apply (onFetch_other_caches "https://quiz.example/"
           (mkRequest "GET" "https://quiz.example/api/questions" "https:"
              "/api/questions" "cors")
           (Some (mkResponse 200 "OK" "[]" []))
           [("other-app-v1", [("https://quiz.example/x", mkResponse 200 "OK" "x" [])])]
           "other-app-v1"); discriminate.
Defined.

(** X24.  Cache first: a request the listener hands to [cacheFirst] is
    answered with the cached copy when there is one, whatever the network
    does and without a change of the caches.  When there is none, a response
    of the network is returned; one of status 2xx that the cache accepts is
    stored in the static cache, so that the same request is answered with it
    afterwards whatever the network does, and one the cache rejects (a
    partial response, say) leaves the caches answering as before.  With no
    copy and no network the answer is the 503 response. *)
Theorem cacheFirst_for_static_requests (root : string) (request : Request)
    (cs : CacheStorage) :
  fetchListener request = CacheFirst ->
  (forall cached net,
     caches_match (url request) cs = Some cached ->
     onFetch root request net cs = (Fulfilled (Some cached), cs))
  /\ (forall r,
        caches_match (url request) cs = None ->
        let cs' := snd (onFetch root request (Some r) cs) in
        fst (onFetch root request (Some r) cs) = Fulfilled (Some r)
        /\ (ok r = true -> put_rejects request r = false ->
            cache_match (url request) (cache_named STATIC_CACHE_NAME cs')
            = Some r
            /\ forall net, onFetch root request net cs' = (Fulfilled (Some r), cs'))
        /\ (ok r = false \/ put_rejects request r = true ->
            forall u, caches_match u cs' = caches_match u cs))
  /\ (caches_match (url request) cs = None ->
      onFetch root request None cs
      = (Fulfilled (Some (offline "Offline - Resource not available")), cs)).
Proof.
  intros Hc. unfold onFetch. rewrite Hc. unfold cacheFirst. split_and!.
  - intros cached net ->. done.
  - intros r Hmiss. rewrite Hmiss. cbn [fst snd]. split_and!; [done| |].
    + intros Hr Hp. rewrite Hr.
      split; [by apply cache_named_open_put|].
      intros net. by rewrite caches_match_open_put_miss.
    + intros [Hr|Hp] u; [by rewrite Hr|].
      destruct (ok r); [|done]. by apply caches_match_open_put_rejected.
  - intros ->. done.
Qed.

(** The style sheet, not cached yet and fetched from the network: it is
    returned and stored in the static cache, and answers the request from
    then on, whatever the network does. *)
Lemma cacheFirst_for_static_requests_witness :
  let request := mkRequest "GET" "https://quiz.example/styles.css" "https:"
                   "/styles.css" "no-cors" in
  let sheet := mkResponse 200 "OK" "body {}" [] in
  let cs' := snd (onFetch "https://quiz.example/" request (Some sheet) []) in
  fetchListener request = CacheFirst
  /\ caches_match (url request) [] = None
  /\ ok sheet = true /\ put_rejects request sheet = false
  /\ fst (onFetch "https://quiz.example/" request (Some sheet) [])
     = Fulfilled (Some sheet)
  /\ cache_match (url request) (cache_named STATIC_CACHE_NAME cs') = Some sheet
  /\ forall net,
       onFetch "https://quiz.example/" request net cs'
       = (Fulfilled (Some sheet), cs').
Proof.
  split; [reflexivity|]. split; [reflexivity|]. split; [reflexivity|].
  split; [reflexivity|].
  destruct (cacheFirst_for_static_requests "https://quiz.example/"
              (mkRequest "GET" "https://quiz.example/styles.css" "https:"
                 "/styles.css" "no-cors") [] eq_refl) as (_ & Hmiss & _).
  destruct (Hmiss (mkResponse 200 "OK" "body {}" []) eq_refl) as (H1 & H2 & _).
  split; [exact H1|]. exact (H2 eq_refl eq_refl).
Defined.

(** The page of the application, cached at the installation, answers while
    the network is down. *)
Example cacheFirst_cached_page :
  let request := mkRequest "GET" "https://quiz.example/index.html" "https:"
                   "/index.html" "navigate" in
  let page := mkResponse 200 "OK" "<html>" [] in
  let cs := [(STATIC_CACHE_NAME, [("https://quiz.example/index.html", page)])] in
  onFetch "https://quiz.example/" request None cs = (Fulfilled (Some page), cs).
Proof. vm_compute. reflexivity. Qed.

(** The style sheet, not cached yet: the response of the network is stored
    and answers the request when the network is down; a partial response is
    returned and not stored. *)
Example cacheFirst_stores_what_the_cache_accepts :
  let request := mkRequest "GET" "https://quiz.example/styles.css" "https:"
                   "/styles.css" "no-cors" in
  let sheet := mkResponse 200 "OK" "body {}" [] in
  let part := mkResponse 206 "Partial Content" "body" [] in
  let stored := snd (onFetch "https://quiz.example/" request (Some sheet) []) in
  let kept := snd (onFetch "https://quiz.example/" request (Some part) []) in
  fst (onFetch "https://quiz.example/" request None stored)
  = Fulfilled (Some sheet)
  /\ fst (onFetch "https://quiz.example/" request (Some part) [])
     = Fulfilled (Some part)
  /\ fst (onFetch "https://quiz.example/" request None kept)
     = Fulfilled (Some (offline "Offline - Resource not available")).
Proof. vm_compute. repeat split. Qed.

(** X25.  Stale while revalidate: a request the listener hands to
    [cacheFirstWithRefresh] and of which a copy is cached is answered with
    that copy whatever the network does.  A response of the network of
    status 2xx that the cache accepts is then in the dynamic cache; one of
    another status or one the cache rejects leaves the caches answering as
    before, and so does a failure of the network, which leaves them as they
    were.  Without a copy and without network, a navigation is answered with
    what is cached for the root, if anything, and any other request with a
    503 response. *)
Theorem cacheFirstWithRefresh_for_other_requests (root : string)
    (request : Request) (cs : CacheStorage) :
  fetchListener request = CacheFirstWithRefresh ->
  (forall cached net,
     caches_match (url request) cs = Some cached ->
     fst (onFetch root request net cs) = Fulfilled (Some cached)
     /\ (forall r, net = Some r -> ok r = true ->
           put_rejects request r = false ->
           cache_match (url request)
             (cache_named DYNAMIC_CACHE_NAME (snd (onFetch root request net cs)))
           = Some r)
     /\ (forall r, net = Some r ->
           ok r = false \/ put_rejects request r = true ->
           forall u,
             caches_match u (snd (onFetch root request net cs))
             = caches_match u cs)
     /\ (net = None -> snd (onFetch root request net cs) = cs))
  /\ (caches_match (url request) cs = None ->
      onFetch root request None cs
      = (if String.eqb (mode request) "navigate"
         then Fulfilled (caches_match root cs)
         else Fulfilled (Some (offline "Offline")), cs)).
Proof.
  intros Hc. unfold onFetch. rewrite Hc. unfold cacheFirstWithRefresh. split.
  - intros cached net ->. cbn [fst snd].
    split_and!; [done| | |by intros ->].
    + intros r -> Hr Hp. rewrite Hr. by apply cache_named_open_put.
    + intros r -> [Hr|Hp] u; [by rewrite Hr|].
      destruct (ok r); [|done]. by apply caches_match_open_put_rejected.
  - intros ->. by destruct (String.eqb (mode request) "navigate").
Qed.

(** A page that is no asset of the manifest, cached earlier, while the
    network has a newer version: the request is answered with the cached
    one, and the newer one is in the dynamic cache afterwards. *)
Lemma cacheFirstWithRefresh_for_other_requests_witness :
  let request := mkRequest "GET" "https://quiz.example/about" "https:"
                   "/about" "navigate" in
  let older := mkResponse 200 "OK" "<html>1" [] in
  let newer := mkResponse 200 "OK" "<html>2" [] in
  let cs := [(DYNAMIC_CACHE_NAME, [("https://quiz.example/about", older)])] in
  fetchListener request = CacheFirstWithRefresh
  /\ caches_match (url request) cs = Some older
  /\ ok newer = true /\ put_rejects request newer = false
  /\ fst (onFetch "https://quiz.example/" request (Some newer) cs)
     = Fulfilled (Some older)
  /\ cache_match (url request)
       (cache_named DYNAMIC_CACHE_NAME
          (snd (onFetch "https://quiz.example/" request (Some newer) cs)))
     = Some newer.
Proof.
  split; [reflexivity|]. split; [reflexivity|]. split; [reflexivity|].
  split; [reflexivity|].
  destruct (cacheFirstWithRefresh_for_other_requests "https://quiz.example/"
              (mkRequest "GET" "https://quiz.example/about" "https:" "/about"
                 "navigate")
              [(DYNAMIC_CACHE_NAME,
                [("https://quiz.example/about", mkResponse 200 "OK" "<html>1" [])])]
              eq_refl) as [Hhit _].
  destruct (Hhit (mkResponse 200 "OK" "<html>1" [])
              (Some (mkResponse 200 "OK" "<html>2" [])) eq_refl)
    as (H1 & H2 & _).
  split; [exact H1|]. exact (H2 _ eq_refl eq_refl eq_refl).
Defined.

(** The refresh in the background: the newer page replaces the cached one
    in the dynamic cache, while the request is answered with the older
    one. *)
Example cacheFirstWithRefresh_refreshes :
  let request := mkRequest "GET" "https://quiz.example/about" "https:"
                   "/about" "navigate" in
  let older := mkResponse 200 "OK" "<html>1" [] in
  let newer := mkResponse 200 "OK" "<html>2" [] in
  let cs := [(DYNAMIC_CACHE_NAME, [("https://quiz.example/about", older)])] in
  onFetch "https://quiz.example/" request (Some newer) cs
  = (Fulfilled (Some older),
     [(DYNAMIC_CACHE_NAME, [("https://quiz.example/about", newer)])]).
Proof. vm_compute. reflexivity. Qed.

(** X26.  Requests that are no GET, that are not of the http family, or
    whose path starts with '/api/sync' or '/api/update' (also though these
    start with the dynamic prefix '/api/') are neither answered from a cache
    nor stored: the listener does not answer or answers with the outcome of
    the network, and the caches stay as they are. *)
Theorem onFetch_bypasses_cache (root : string) (request : Request)
    (net : Network) (cs : CacheStorage) :
  method request <> "GET"
  \/ startsWith (protocol request) "http" = false
  \/ startsWith (pathname request) "/api/sync" = true
  \/ startsWith (pathname request) "/api/update" = true ->
  snd (onFetch root request net cs) = cs
  /\ (fst (onFetch root request net cs) = NotAnswered
      \/ fst (onFetch root request net cs) = fetched net).
Proof.
  intros H. unfold onFetch, fetchListener.
  destruct (String.eqb_spec (method request) "GET") as [Hm|Hm]; cbn [negb];
    [|auto].
  destruct (startsWith (protocol request) "http") eqn:Hp; cbn [negb]; [|auto].
  destruct H as [?|[?|H]]; [done|done|].
  assert (Hn : existsb (fun pattern => startsWith (pathname request) pattern)
                 NETWORK_ONLY = true).
  { unfold NETWORK_ONLY. cbn [existsb]. destruct H as [-> | ->];
      rewrite ?orb_true_r; done. }
  rewrite Hn. auto.
Qed.

(** A call of the synchronisation interface. *)
Lemma onFetch_bypasses_cache_witness :
  let request := mkRequest "GET" "https://quiz.example/api/sync/quiz-data"
                   "https:" "/api/sync/quiz-data" "cors" in
  let cs := [(DYNAMIC_CACHE_NAME,
              [("https://quiz.example/api/sync/quiz-data", mkResponse 200 "OK" "old" [])])] in
  startsWith (pathname request) "/api/sync" = true
  /\ snd (onFetch "https://quiz.example/" request None cs) = cs
  /\ (fst (onFetch "https://quiz.example/" request None cs) = NotAnswered
      \/ fst (onFetch "https://quiz.example/" request None cs) = fetched None).
Proof.
  split; [reflexivity|].
  apply (onFetch_bypasses_cache "https://quiz.example/"
           (mkRequest "GET" "https://quiz.example/api/sync/quiz-data"
              "https:" "/api/sync/quiz-data" "cors")).
  right. right. left. reflexivity.
Defined.

(** *** Activation *)

Lemma find_filter_keep {A} (f keep : A -> bool) (l : list A) :
  (forall x, f x = true -> keep x = true) ->
  List.find f (List.filter keep l) = List.find f l.
Proof.
  intros H. induction l as [|a l IH]; simpl; [done|].
  destruct (keep a) eqn:Hk; simpl.
  - destruct (f a); [done|exact IH].
  - destruct (f a) eqn:Hf; [|exact IH]. apply H in Hf. congruence.
Qed.

(** X27.  Activation is idempotent, and it leaves the entries of the
    static and of the dynamic cache of the current version as they are. *)
Theorem activate_idempotent (cs : CacheStorage) :
  activate (activate cs) = activate cs
  /\ cache_named STATIC_CACHE_NAME (activate cs)
     = cache_named STATIC_CACHE_NAME cs
  /\ cache_named DYNAMIC_CACHE_NAME (activate cs)
     = cache_named DYNAMIC_CACHE_NAME cs.
Proof.
  rewrite !activate_filter. split_and!.
  - induction cs as [|e cs IH]; simpl; [done|].
    destruct (negb (isOldCache (fst e))) eqn:He; simpl; [|exact IH].
    rewrite He. by f_equal.
  - unfold cache_named. rewrite find_filter_keep; [done|].
    intros e ->%String.eqb_eq. reflexivity.
  - unfold cache_named. rewrite find_filter_keep; [done|].
    intros e ->%String.eqb_eq. reflexivity.
Qed.

End StrategyFacts.
